(** * Game-Tracker: the client-side view-state engine of [static/js/app.js]

    A shallow embedding of the browser client's state logic: the filter and
    sort derivation ([applySortingAndFiltering]), the games cache and its
    fetch ([fetchGames]), the session-expiry paths of the write handlers,
    the Top-10 draft editor and the Top-10 search box; further the saved
    filters and sort key, the authentication handlers, the start of the
    page, the results of the Top-10 search, the tags field of the game form
    and the batch mode.

    [app.js] declares several functions more than once.  JavaScript binds a
    function name to its last declaration in the script, so the embedding
    follows the last declaration of each function.  [fetchGames] changed
    between its declarations: the earlier form is embedded too, as
    [fetchGames_legacy]. *)

From Stdlib Require Import QArith Lqa Ascii String.
From stdpp Require Import gmap strings list sorting pretty.

Local Open Scope Z_scope.

(** ** Host strings

    JavaScript strings are modelled as [string]; the host functions the
    client calls are written out on the ASCII range. *)

Module JsString.

(** [c.toLowerCase()] for one character: [A]..[Z] go to [a]..[z]. *)
Definition lower_ascii (c : ascii) : ascii :=
  let n := N_of_ascii c in
  if ((65 <=? n) && (n <=? 90))%N then ascii_of_N (n + 32) else c.

(** [s.toLowerCase()]. *)
Fixpoint toLowerCase (s : string) : string :=
  match s with
  | EmptyString => EmptyString
  | String c s' => String (lower_ascii c) (toLowerCase s')
  end.

(** [s.startsWith(sub)]. *)
Fixpoint startsWith (s sub : string) : bool :=
  match sub, s with
  | EmptyString, _ => true
  | String _ _, EmptyString => false
  | String a sub', String b s' =>
      if decide (a = b) then startsWith s' sub' else false
  end.

(** [s.includes(sub)]: [sub] starts at some position of [s]. *)
Fixpoint includes (s sub : string) : bool :=
  startsWith s sub ||
  match s with
  | EmptyString => false
  | String _ s' => includes s' sub
  end.

(** White space removed by [trim] (ASCII: tab, line feed, vertical tab,
    form feed, carriage return, space). *)
Definition is_space (c : ascii) : bool :=
  let n := N_of_ascii c in
  (((9 <=? n) && (n <=? 13)) || (n =? 32))%N.

Fixpoint trimStart (s : string) : string :=
  match s with
  | EmptyString => EmptyString
  | String c s' => if is_space c then trimStart s' else s
  end.

(** [trimEnd] drops a character when it is a space and everything after it
    has been dropped. *)
Fixpoint trimEnd (s : string) : string :=
  match s with
  | EmptyString => EmptyString
  | String c s' =>
      match trimEnd s' with
      | EmptyString => if is_space c then EmptyString else String c EmptyString
      | t => String c t
      end
  end.

(** [s.trim()]. *)
Definition trim (s : string) : string := trimEnd (trimStart s).

(** [s.length]. *)
Definition length (s : string) : Z := Z.of_nat (String.length s).

End JsString.

(** [a.localeCompare(b)] is supplied by the host: its sign depends on the
    host's collation, so the engine takes it as an interface. *)
Class HostLocale := localeCompare : string -> string -> Z.

(** A host collation to run the engine with: code-unit order. *)
Definition codeUnitCompare (a b : string) : Z :=
  match String.compare a b with
  | Eq => 0
  | Lt => -1
  | Gt => 1
  end.

Definition codeUnitLocale : HostLocale := codeUnitCompare.

(** ** Data model *)

(** [game.achievement_progress]. *)
Record achievement_progress := {
  completion_percentage : option Q;
  unlocked_achievements : option Z;
  total_achievements : option Z
}.

(** A game object of [/api/games].  A field that may be [null] or missing is
    an [option].  [created_at] holds the time value (epoch milliseconds) of
    [new Date(game.created_at)], [None] for an invalid date. *)
Record game := {
  id : Z;
  title : string;
  platform : option string;
  status : option string;
  rating : option Q;
  hours_played : option Q;
  tags : option (list string);
  notes : option string;
  steam_app_id : option Z;
  cover_url : option string;
  is_favorite : bool;
  created_at : option Z;
  progress : option achievement_progress
}.

(** [currentFilters]. *)
Record filters := {
  f_status : string;
  f_platform : string;
  f_search : string
}.

(** An entry of [top10Games].  Entries pushed by the editor have the first
    seven fields; entries read from [/api/top10] may carry others, of which
    the client reads none. *)
Record top10_entry := {
  game_id : Z;
  t_title : string;
  t_platform : option string;
  t_hours_played : option Q;
  t_rating : option Q;
  t_cover_url : option string;
  why_i_love_it : option string
}.

(** ** Arrays

    [allGames] is a reference to an array; [[...a]] and [a.filter] make new
    arrays, [a.sort] reorders the array it is called on.  Arrays of games
    live in a store, and the array operations say which cell they write.
    The games themselves are values: the one write to a game object, the
    favourite flag, is a write to the array of the cache. *)

Abbreviation loc := positive.
Abbreviation store := (gmap positive (list game)).

(** The elements of the array at [r]. *)
Definition Array_read (r : loc) (h : store) : list game :=
  default [] (h !! r).

(** A new array holding [l]. *)
Definition Array_new (l : list game) (h : store) : loc * store :=
  let r := fresh (dom h) in (r, <[r := l]> h).

(** [[...a]]. *)
Definition Array_spread (r : loc) (h : store) : loc * store :=
  Array_new (Array_read r h) h.

(** [a.filter(p)]. *)
Definition Array_filter (p : game -> bool) (r : loc) (h : store) : loc * store :=
  Array_new (List.filter p (Array_read r h)) h.

(** The number [Array.prototype.sort] reads from its comparator: a [NaN]
    result counts as [0]. *)
Definition sortCompare (v : option Q) : Q := default 0%Q v.

(** One element put into a sorted list: it passes the elements it compares
    above, and stops at the first one it is below or equal to. *)
Fixpoint sort_insert (cmp : game -> game -> option Q) (x : game) (l : list game) : list game :=
  match l with
  | [] => [x]
  | y :: l' =>
      if Qle_bool (sortCompare (cmp x y)) 0 then x :: y :: l'
      else y :: sort_insert cmp x l'
  end.

(** The order [a.sort(cmp)] leaves: a stable sort, equal elements keep their
    order.  Where the comparator is consistent this is the one order the
    language allows; where it is not, the language leaves the order to the
    engine, and the model gives that of an insertion sort. *)
Definition sorted_by (cmp : game -> game -> option Q) (l : list game) : list game :=
  foldr (sort_insert cmp) [] l.

(** [a.sort(cmp)]: the array at [r] is reordered in place. *)
Definition Array_sort (cmp : game -> game -> option Q) (r : loc) (h : store) : store :=
  <[r := sorted_by cmp (Array_read r h)]> h.

(** ** Responses of the backend *)

(** What [await fetch(url)] gives: the promise rejects (network error) or
    resolves with a response.  [r_json] is what [await res.json()] gives,
    [None] when the body does not parse and the promise rejects. *)
Record response (A : Type) := {
  r_status : Z;
  r_json : option A
}.
Arguments r_status {A} _.
Arguments r_json {A} _.

Inductive fetched (A : Type) :=
  | Rejected
  | Resolved (res : response A).
Arguments Rejected {A}.
Arguments Resolved {A} res.

(** [res.ok]: a status in 200..299. *)
Definition r_ok {A} (res : response A) : bool :=
  (200 <=? r_status res) && (r_status res <=? 299).

(** ** Client state

    The script's global variables, the browser storage, and what the user
    sees: the games list, the authentication indicator, the notices. *)

(** The content of [#games-list]: the placeholder of an empty list, one card
    per game in order, or the notice of a failed load. *)
Inductive games_view :=
  | EmptyState
  | Cards (l : list game)
  | LoadError.

Record state := {
  heap : store;
  allGames : loc;
  isLoggedIn : bool;
  currentSort : string;
  currentFilters : filters;
  localStorage : gmap string string;
  games_list : games_view;
  auth_indicator : string;
  alerts : list string;
  console_errors : list string;
  reload_requested : bool
}.

Definition set_heap (h : store) (st : state) : state :=
  {| heap := h; allGames := allGames st; isLoggedIn := isLoggedIn st;
     currentSort := currentSort st; currentFilters := currentFilters st;
     localStorage := localStorage st;
     games_list := games_list st; auth_indicator := auth_indicator st;
     alerts := alerts st; console_errors := console_errors st;
     reload_requested := reload_requested st |}.

Definition set_allGames (r : loc) (st : state) : state :=
  {| heap := heap st; allGames := r; isLoggedIn := isLoggedIn st;
     currentSort := currentSort st; currentFilters := currentFilters st;
     localStorage := localStorage st;
     games_list := games_list st; auth_indicator := auth_indicator st;
     alerts := alerts st; console_errors := console_errors st;
     reload_requested := reload_requested st |}.

Definition set_isLoggedIn (b : bool) (st : state) : state :=
  {| heap := heap st; allGames := allGames st; isLoggedIn := b;
     currentSort := currentSort st; currentFilters := currentFilters st;
     localStorage := localStorage st;
     games_list := games_list st; auth_indicator := auth_indicator st;
     alerts := alerts st; console_errors := console_errors st;
     reload_requested := reload_requested st |}.

Definition set_currentSort (k : string) (st : state) : state :=
  {| heap := heap st; allGames := allGames st; isLoggedIn := isLoggedIn st;
     currentSort := k; currentFilters := currentFilters st;
     localStorage := localStorage st;
     games_list := games_list st; auth_indicator := auth_indicator st;
     alerts := alerts st; console_errors := console_errors st;
     reload_requested := reload_requested st |}.

Definition set_currentFilters (f : filters) (st : state) : state :=
  {| heap := heap st; allGames := allGames st; isLoggedIn := isLoggedIn st;
     currentSort := currentSort st; currentFilters := f;
     localStorage := localStorage st;
     games_list := games_list st; auth_indicator := auth_indicator st;
     alerts := alerts st; console_errors := console_errors st;
     reload_requested := reload_requested st |}.

Definition set_localStorage (ls : gmap string string) (st : state) : state :=
  {| heap := heap st; allGames := allGames st; isLoggedIn := isLoggedIn st;
     currentSort := currentSort st; currentFilters := currentFilters st;
     localStorage := ls;
     games_list := games_list st; auth_indicator := auth_indicator st;
     alerts := alerts st; console_errors := console_errors st;
     reload_requested := reload_requested st |}.

Definition set_games_list (v : games_view) (st : state) : state :=
  {| heap := heap st; allGames := allGames st; isLoggedIn := isLoggedIn st;
     currentSort := currentSort st; currentFilters := currentFilters st;
     localStorage := localStorage st;
     games_list := v; auth_indicator := auth_indicator st;
     alerts := alerts st; console_errors := console_errors st;
     reload_requested := reload_requested st |}.

Definition set_auth_indicator (s : string) (st : state) : state :=
  {| heap := heap st; allGames := allGames st; isLoggedIn := isLoggedIn st;
     currentSort := currentSort st; currentFilters := currentFilters st;
     localStorage := localStorage st;
     games_list := games_list st; auth_indicator := s;
     alerts := alerts st; console_errors := console_errors st;
     reload_requested := reload_requested st |}.

(** [alert(msg)]: the notices shown so far, latest first. *)
Definition alert (msg : string) (st : state) : state :=
  {| heap := heap st; allGames := allGames st; isLoggedIn := isLoggedIn st;
     currentSort := currentSort st; currentFilters := currentFilters st;
     localStorage := localStorage st;
     games_list := games_list st; auth_indicator := auth_indicator st;
     alerts := msg :: alerts st; console_errors := console_errors st;
     reload_requested := reload_requested st |}.

(** [console.error(msg)]. *)
Definition console_error (msg : string) (st : state) : state :=
  {| heap := heap st; allGames := allGames st; isLoggedIn := isLoggedIn st;
     currentSort := currentSort st; currentFilters := currentFilters st;
     localStorage := localStorage st;
     games_list := games_list st; auth_indicator := auth_indicator st;
     alerts := alerts st; console_errors := msg :: console_errors st;
     reload_requested := reload_requested st |}.

(** [window.location.reload()]: the page is asked to load again, which
    discards the script's state. *)
Definition reload (st : state) : state :=
  {| heap := heap st; allGames := allGames st; isLoggedIn := isLoggedIn st;
     currentSort := currentSort st; currentFilters := currentFilters st;
     localStorage := localStorage st;
     games_list := games_list st; auth_indicator := auth_indicator st;
     alerts := alerts st; console_errors := console_errors st;
     reload_requested := true |}.

(** The games in the cache, in fetch order. *)
Definition games (st : state) : list game := Array_read (allGames st) (heap st).

(** The games on display, in display order. *)
Definition displayed (v : games_view) : list game :=
  match v with
  | Cards l => l
  | EmptyState | LoadError => []
  end.

(** ** The filter and sort derivation *)

Section Engine.
Context `{HostLocale}.

(** The three tests of the filter callback of [applySortingAndFiltering]. *)
Definition matchSearch (f : filters) (g : game) : bool :=
  bool_decide (f_search f = "") ||
  JsString.includes (JsString.toLowerCase (title g)) (f_search f) ||
  JsString.includes (JsString.toLowerCase (default "" (notes g))) (f_search f) ||
  existsb (fun t => JsString.includes (JsString.toLowerCase t) (f_search f))
          (default [] (tags g)).

Definition matchStatus (f : filters) (g : game) : bool :=
  bool_decide (f_status f = "") || bool_decide (status g = Some (f_status f)).

Definition matchPlatform (f : filters) (g : game) : bool :=
  bool_decide (f_platform f = "") || bool_decide (platform g = Some (f_platform f)).

Definition matchGame (f : filters) (g : game) : bool :=
  matchSearch f g && matchStatus f g && matchPlatform f g.

(** [v || 0] on a number that may be missing. *)
Definition or0 (v : option Q) : Q := default 0%Q v.

(** [g.achievement_progress?.completion_percentage || 0]. *)
Definition completionOf (g : game) : Q :=
  or0 (progress g ≫= completion_percentage).

(** The comparator of [applySortingAndFiltering], one case per sort key;
    [None] is a [NaN] result (a date that does not parse). *)
Definition compareGames (sortKey : string) (a b : game) : option Q :=
  match sortKey with
  | "title" => Some (inject_Z (localeCompare (title a) (title b)))
  | "title-desc" => Some (inject_Z (localeCompare (title b) (title a)))
  | "hours" => Some (or0 (hours_played b) - or0 (hours_played a))%Q
  | "hours-asc" => Some (or0 (hours_played a) - or0 (hours_played b))%Q
  | "rating" => Some (or0 (rating b) - or0 (rating a))%Q
  | "rating-asc" => Some (or0 (rating a) - or0 (rating b))%Q
  | "completion" => Some (completionOf b - completionOf a)%Q
  | "completion-asc" => Some (completionOf a - completionOf b)%Q
  | "status" =>
      Some (inject_Z (localeCompare (default "" (status a)) (default "" (status b))))
  | "platform" =>
      Some (inject_Z (localeCompare (default "" (platform a)) (default "" (platform b))))
  | _ =>
      match created_at b, created_at a with
      | Some tb, Some ta => Some (inject_Z (tb - ta))
      | _, _ => None
      end
  end%string.

(** [renderGames(games)]: the placeholder for an empty array, else one card
    per game in the array's order. *)
Definition renderGames (r : loc) (st : state) : state :=
  match Array_read r (heap st) with
  | [] => set_games_list EmptyState st
  | l => set_games_list (Cards l) st
  end.

(** [applySortingAndFiltering()]. *)
Definition applySortingAndFiltering (st : state) : state :=
  let '(filtered, h1) := Array_spread (allGames st) (heap st) in
  let '(filtered, h2) := Array_filter (matchGame (currentFilters st)) filtered h1 in
  let h3 := Array_sort (compareGames (currentSort st)) filtered h2 in
  renderGames filtered (set_heap h3 st).

(** The store [applySortingAndFiltering] leaves: a copy of the cache, and
    the filtered array, sorted. *)
Definition heap_after (st : state) : store :=
  let '(r1, h1) := Array_spread (allGames st) (heap st) in
  let '(r2, h2) := Array_filter (matchGame (currentFilters st)) r1 h1 in
  Array_sort (compareGames (currentSort st)) r2 h2.

(** The two steps on plain lists: what the filter keeps and the order the
    sort leaves. *)
Definition applyFiltering (f : filters) (l : list game) : list game :=
  List.filter (matchGame f) l.

Definition applySorting (sortKey : string) (l : list game) : list game :=
  sorted_by (compareGames sortKey) l.

(** [saveFilters()]. *)
Definition saveFilters (st : state) : state :=
  let f := currentFilters st in
  set_localStorage
    (<["gameTracker_filter_search" := f_search f]>
       (<["gameTracker_filter_platform" := f_platform f]>
          (<["gameTracker_filter_status" := f_status f]> (localStorage st))))
    st.

(** [filterGames()], run on every input to the search box and every change
    of the two selects; the arguments are the values of the three controls. *)
Definition filterGames (search_value status_value platform_value : string)
    (st : state) : state :=
  let f := {| f_search := JsString.toLowerCase search_value;
              f_status := status_value;
              f_platform := platform_value |} in
  applySortingAndFiltering (saveFilters (set_currentFilters f st)).

(** The change handler of [#sort-by]. *)
Definition sortByChanged (value : string) (st : state) : state :=
  applySortingAndFiltering
    (set_localStorage (<["gameTracker_sort" := value]> (localStorage st))
       (set_currentSort value st)).

(** ** The games cache *)

(** [fetchGames()], from the point where the request settles. *)
Definition fetchGames (r : fetched (list game)) (st : state) : state :=
  let failed st :=
    set_games_list LoadError (console_error "Failed to fetch games:" st) in
  match r with
  | Rejected => failed st
  | Resolved res =>
      if negb (r_ok res) then failed st
      else match r_json res with
           | None => failed st
           | Some payload =>
               let '(a, h) := Array_new payload (heap st) in
               applySortingAndFiltering (set_allGames a (set_heap h st))
           end
  end.

(** The earlier declarations of [fetchGames]: no status test and no handler;
    a rejected promise leaves the function without a notice. *)
Definition fetchGames_legacy (r : fetched (list game)) (st : state) : state :=
  match r with
  | Rejected => st
  | Resolved res =>
      match r_json res with
      | None => st
      | Some payload =>
          let '(a, h) := Array_new payload (heap st) in
          applySortingAndFiltering (set_allGames a (set_heap h st))
      end
  end.

(** ** Write handlers and session expiry *)

(** [updateUIForAuth()]: the indicator follows the flag. *)
Definition updateUIForAuth (st : state) : state :=
  set_auth_indicator (if isLoggedIn st then "Admin Mode" else "View Only") st.

(** [game && game.steam_app_id] for the game of the cache with the id. *)
Definition isSteamGame (gameId : Z) (st : state) : bool :=
  match List.find (fun g => bool_decide (id g = gameId)) (games st) with
  | Some game =>
      match steam_app_id game with
      | Some n => negb (n =? 0)
      | None => false
      end
  | None => false
  end.

(** [deleteGame(id)], from the point where the request settles; [confirmed]
    is the answer to the confirmation dialog, [reloaded] what the request of
    the [fetchGames] call gives. *)
Definition deleteGame (gameId : Z) (confirmed : bool) (r : fetched unit)
    (reloaded : fetched (list game)) (st : state) : state :=
  if negb (isLoggedIn st) then alert "Please login to delete games" st
  else if negb confirmed then st
  else match r with
       | Rejected => alert "Error deleting game: " st
       | Resolved res =>
           if decide (r_status res = 401) then
             updateUIForAuth
               (set_isLoggedIn false
                  (alert "Your session has expired. Please enter the password again." st))
           else
             fetchGames reloaded
               (if isSteamGame gameId st then
                  alert "Game deleted and marked as excluded. It will not be re-imported from Steam." st
                else st)
       end.

(** [game.is_favorite = v]. *)
Definition set_is_favorite (v : bool) (g : game) : game :=
  {| id := id g; title := title g; platform := platform g; status := status g;
     rating := rating g; hours_played := hours_played g; tags := tags g;
     notes := notes g; steam_app_id := steam_app_id g; cover_url := cover_url g;
     is_favorite := v; created_at := created_at g; progress := progress g |}.

(** [allGames.findIndex(g => g.id === gameId)]; [None] is the result -1. *)
Fixpoint findIndex (gameId : Z) (l : list game) : option nat :=
  match l with
  | [] => None
  | g :: l' => if decide (id g = gameId) then Some 0%nat
               else S <$> findIndex gameId l'
  end.

(** [toggleFavorite(gameId)], from the point where the request settles; the
    payload is [result.is_favorite]. *)
Definition toggleFavorite (gameId : Z) (r : fetched bool) (st : state) : state :=
  match r with
  | Rejected => console_error "Error toggling favorite:" st
  | Resolved res =>
      if r_ok res then
        match r_json res with
        | None => console_error "Error toggling favorite:" st
        | Some v =>
            match findIndex gameId (games st) with
            | Some i =>
                applySortingAndFiltering
                  (set_heap (<[allGames st := alter (set_is_favorite v) i (games st)]> (heap st)) st)
            | None => st
            end
        end
      else st
  end.

(** The click handler of [#save-game], from the point where the request
    settles; [title_value] is the content of the title input.  The import of
    achievements that may follow a creation is left out. *)
Definition saveGame (title_value : string) (r : fetched unit)
    (reloaded : fetched (list game)) (st : state) : state :=
  if negb (isLoggedIn st) then alert "Please login to save games" st
  else if decide (JsString.trim title_value = "") then alert "Title is required" st
  else match r with
       | Rejected => alert "Error saving game: " st
       | Resolved res =>
           if decide (r_status res = 401) then
             reload (alert "Your session has expired. Please login again." st)
           else fetchGames reloaded st
       end.

End Engine.

(** ** The Top-10 draft editor *)

Module Top10.

(** The content of [#top10-selection] and of [#top10-list]: a placeholder,
    or the entries with the rank printed before each. *)
Inductive ranked_view :=
  | NoEntries
  | Ranked (items : list (Z * top10_entry)).

(** The globals the editor works on and the elements it writes.  [cache] is
    the content of [allGames], which the editor only reads. *)
Record editor := {
  cache : list game;
  top10Games : list top10_entry;
  top10_selection : ranked_view;
  top10_list : ranked_view;
  top10_search : string;
  available_games : string;
  notices : list string;
  errors : list string
}.

Definition set_top10Games (l : list top10_entry) (ed : editor) : editor :=
  {| cache := cache ed; top10Games := l; top10_selection := top10_selection ed;
     top10_list := top10_list ed; top10_search := top10_search ed;
     available_games := available_games ed; notices := notices ed;
     errors := errors ed |}.

Definition set_top10_selection (v : ranked_view) (ed : editor) : editor :=
  {| cache := cache ed; top10Games := top10Games ed; top10_selection := v;
     top10_list := top10_list ed; top10_search := top10_search ed;
     available_games := available_games ed; notices := notices ed;
     errors := errors ed |}.

Definition set_top10_list (v : ranked_view) (ed : editor) : editor :=
  {| cache := cache ed; top10Games := top10Games ed;
     top10_selection := top10_selection ed;
     top10_list := v; top10_search := top10_search ed;
     available_games := available_games ed; notices := notices ed;
     errors := errors ed |}.

Definition set_search_box (value message : string) (ed : editor) : editor :=
  {| cache := cache ed; top10Games := top10Games ed;
     top10_selection := top10_selection ed;
     top10_list := top10_list ed; top10_search := value;
     available_games := message; notices := notices ed;
     errors := errors ed |}.

Definition set_cache (l : list game) (ed : editor) : editor :=
  {| cache := l; top10Games := top10Games ed;
     top10_selection := top10_selection ed;
     top10_list := top10_list ed; top10_search := top10_search ed;
     available_games := available_games ed; notices := notices ed;
     errors := errors ed |}.

(** [alert(msg)]. *)
Definition notify (msg : string) (ed : editor) : editor :=
  {| cache := cache ed; top10Games := top10Games ed;
     top10_selection := top10_selection ed;
     top10_list := top10_list ed; top10_search := top10_search ed;
     available_games := available_games ed; notices := msg :: notices ed;
     errors := errors ed |}.

(** [console.error(msg)]. *)
Definition log_error (msg : string) (ed : editor) : editor :=
  {| cache := cache ed; top10Games := top10Games ed;
     top10_selection := top10_selection ed;
     top10_list := top10_list ed; top10_search := top10_search ed;
     available_games := available_games ed; notices := notices ed;
     errors := msg :: errors ed |}.

(** The state of a page that has just loaded. *)
Definition initial : editor :=
  {| cache := []; top10Games := []; top10_selection := NoEntries;
     top10_list := NoEntries; top10_search := ""; available_games := "";
     notices := []; errors := [] |}.

(** The rank both renderers print: [index + 1]. *)
Definition ranked (l : list top10_entry) : list (Z * top10_entry) :=
  imap (fun index game => (Z.of_nat index + 1, game)) l.

(** [renderTop10Selection()]. *)
Definition renderTop10Selection (ed : editor) : editor :=
  match top10Games ed with
  | [] => set_top10_selection NoEntries ed
  | l => set_top10_selection (Ranked (ranked l)) ed
  end.

(** [renderTop10()]. *)
Definition renderTop10 (ed : editor) : editor :=
  match top10Games ed with
  | [] => set_top10_list NoEntries ed
  | l => set_top10_list (Ranked (ranked l)) ed
  end.

(** The entry pushed for a game of the cache. *)
Definition entry_of (game : game) (cover : option string) : top10_entry :=
  {| game_id := id game; t_title := title game; t_platform := platform game;
     t_hours_played := hours_played game; t_rating := rating game;
     t_cover_url := cover; why_i_love_it := Some ""%string |}.

(** [addGameToTop10(gameId)]. *)
Definition addGameToTop10 (gameId : Z) (ed : editor) : editor :=
  if (10 <=? Z.of_nat (length (top10Games ed))) then
    notify "Top 10 is full! Remove a game first." ed
  else
    match List.find (fun g => bool_decide (id g = gameId)) (cache ed) with
    | Some game =>
        set_search_box "" "Game added! Search for more games..."
          (renderTop10Selection
             (set_top10Games (top10Games ed ++ [entry_of game (cover_url game)]) ed))
    | None => ed
    end.

(** The click handler [loadAvailableGames] puts on a listed game. *)
Definition addListedGame (gameId : Z) (ed : editor) : editor :=
  match List.find (fun g => bool_decide (id g = gameId)) (cache ed) with
  | Some game =>
      if (Z.of_nat (length (top10Games ed)) <? 10) then
        renderTop10 (set_top10Games (top10Games ed ++ [entry_of game None]) ed)
      else notify "Top 10 is full! Remove a game first." ed
  | None =>
      if (10 <=? Z.of_nat (length (top10Games ed))) then
        notify "Top 10 is full! Remove a game first." ed
      else ed
  end.

(** [removeFromTop10(gameId)]. *)
Definition removeFromTop10 (gameId : Z) (ed : editor) : editor :=
  renderTop10Selection
    (set_top10Games
       (List.filter (fun game => negb (bool_decide (game_id game = gameId)))
                    (top10Games ed))
       ed).

Definition set_why (reason : string) (e : top10_entry) : top10_entry :=
  {| game_id := game_id e; t_title := t_title e; t_platform := t_platform e;
     t_hours_played := t_hours_played e; t_rating := t_rating e;
     t_cover_url := t_cover_url e; why_i_love_it := Some reason |}.

(** The first entry with the given id gets the annotation. *)
Fixpoint set_reason (gameId : Z) (reason : string) (l : list top10_entry) : list top10_entry :=
  match l with
  | [] => []
  | g :: l' =>
      if decide (game_id g = gameId) then set_why reason g :: l'
      else g :: set_reason gameId reason l'
  end.

(** [updateTop10Reason(gameId, reason)]. *)
Definition updateTop10Reason (gameId : Z) (reason : string) (ed : editor) : editor :=
  set_top10Games (set_reason gameId reason (top10Games ed)) ed.

(** The drop handler of [setupTop10DragAndDrop], on the item of index
    [dropIndex] while the item of index [draggedIndex] is dragged; [below]
    says that the pointer is below the middle of the item.  Handlers are per
    rendered item, so both are indices of the draft: [None] otherwise. *)
Definition dropOn (draggedIndex dropIndex : nat) (below : bool) (ed : editor) : option editor :=
  if decide (draggedIndex = dropIndex) then Some ed
  else
    match top10Games ed !! draggedIndex with
    | Some movedGame =>
        if decide (dropIndex < length (top10Games ed))%nat then
          let newIndex := if below then S dropIndex else dropIndex in
          let newIndex := if decide (draggedIndex < newIndex)%nat then pred newIndex else newIndex in
          let rest := delete draggedIndex (top10Games ed) in
          Some (renderTop10Selection
                  (set_top10Games (take newIndex rest ++ movedGame :: drop newIndex rest) ed))
        else None
    | None => None
    end.

(** [loadTop10()], from the point where the request settles. *)
Definition loadTop10 (r : fetched (list top10_entry)) (ed : editor) : editor :=
  match r with
  | Rejected => log_error "Error loading Top 10:" ed
  | Resolved res =>
      match r_json res with
      | None => log_error "Error loading Top 10:" ed
      | Some payload => renderTop10 (set_top10Games payload ed)
      end
  end.

(** An item of the body [saveTop10] posts. *)
Record saved_entry := {
  s_game_id : Z;
  position : Z;
  s_why_i_love_it : string
}.

Record request := {
  method : string;
  url : string;
  body : list saved_entry
}.

(** [gamesToSave]. *)
Definition gamesToSave (l : list top10_entry) : list saved_entry :=
  imap (fun index game =>
          {| s_game_id := game_id game;
             position := Z.of_nat index + 1;
             s_why_i_love_it := default ""%string (why_i_love_it game) |}) l.

(** The request [saveTop10()] sends. *)
Definition saveTop10_request (ed : editor) : request :=
  {| method := "POST"; url := "/api/top10"; body := gamesToSave (top10Games ed) |}.

(** [saveTop10()], from the point where the request settles.  After a
    success the handler closes the editor, which calls [loadTop10]: the
    loads settle later, each on its own. *)
Definition saveTop10 (r : fetched unit) (ed : editor) : editor :=
  match r with
  | Rejected => notify "Network error saving Top 10: " (log_error "Network error:" ed)
  | Resolved res =>
      if r_ok res then
        match r_json res with
        | Some _ => notify "Top 10 saved successfully!" ed
        | None => notify "Network error saving Top 10: " (log_error "Network error:" ed)
        end
      else notify "Error saving Top 10: " (log_error "Server error:" ed)
  end.

(** A response of [/api/top10] within the capacity of the list. *)
Definition within_capacity (r : fetched (list top10_entry)) : Prop :=
  match r with
  | Resolved res =>
      match r_json res with
      | Some payload => (length payload <= 10)%nat
      | None => True
      end
  | Rejected => True
  end.

(** What can happen to the editor: the user's actions, the responses of the
    backend, a new content of the cache.  [/api/top10] returns a stored
    Top-10, a list within the capacity.  [moveTop10Up] and [moveTop10Down]
    are called from nowhere and are no steps. *)
Inductive step : editor -> editor -> Prop :=
  | step_add gameId ed : step ed (addGameToTop10 gameId ed)
  | step_add_listed gameId ed : step ed (addListedGame gameId ed)
  | step_remove gameId ed : step ed (removeFromTop10 gameId ed)
  | step_reason gameId reason ed : step ed (updateTop10Reason gameId reason ed)
  | step_drop draggedIndex dropIndex below ed ed' :
      dropOn draggedIndex dropIndex below ed = Some ed' -> step ed ed'
  | step_load r ed : within_capacity r -> step ed (loadTop10 r ed)
  | step_save r ed : step ed (saveTop10 r ed)
  | step_cache l ed : step ed (set_cache l ed).


End Top10.

(** ** The Top-10 search box

    [setupTop10Search] puts two listeners on the input event of
    [#top10-search].  Time is a count of milliseconds; a timeout set at [t]
    for 300 ms is due at [t + 300]. *)

Module Top10Search.

(** [searchTimeout], the pending timeouts (identifier, due time, search
    term), and the calls of [searchAvailableGames] so far, latest first, each
    with its time. *)
Record search_box := {
  searchTimeout : option nat;
  timers : list (nat * (Z * string));
  next_timer : nat;
  searches : list (Z * string);
  hints : nat
}.

Definition initial : search_box :=
  {| searchTimeout := None; timers := []; next_timer := 1%nat;
     searches := []; hints := 0%nat |}.

(** [searchAvailableGames(searchTerm)], as a call on record. *)
Definition searchAvailableGames (now : Z) (searchTerm : string) (b : search_box) : search_box :=
  {| searchTimeout := searchTimeout b; timers := timers b;
     next_timer := next_timer b;
     searches := (now, searchTerm) :: searches b; hints := hints b |}.

(** The placeholder asking for two characters. *)
Definition showHint (b : search_box) : search_box :=
  {| searchTimeout := searchTimeout b; timers := timers b;
     next_timer := next_timer b;
     searches := searches b; hints := S (hints b) |}.

(** [clearTimeout(id)]; an undefined [id] clears nothing. *)
Definition clearTimeout (i : option nat) (b : search_box) : search_box :=
  match i with
  | None => b
  | Some n =>
      {| searchTimeout := searchTimeout b;
         timers := List.filter (fun t => negb (Nat.eqb (fst t) n)) (timers b);
         next_timer := next_timer b;
         searches := searches b; hints := hints b |}
  end.

(** [searchTimeout = setTimeout(() => searchAvailableGames(term), delay)]. *)
Definition setSearchTimeout (now delay : Z) (term : string) (b : search_box) : search_box :=
  {| searchTimeout := Some (next_timer b);
     timers := timers b ++ [(next_timer b, (now + delay, term))];
     next_timer := S (next_timer b);
     searches := searches b; hints := hints b |}.

(** The first listener: it searches at once. *)
Definition onInput_search (now : Z) (value : string) (b : search_box) : search_box :=
  let searchTerm := JsString.toLowerCase (JsString.trim value) in
  if JsString.length searchTerm <? 2 then showHint b
  else searchAvailableGames now searchTerm b.

(** The second listener: it searches after 300 ms without input. *)
Definition onInput_debounced (now : Z) (value : string) (b : search_box) : search_box :=
  let b := clearTimeout (searchTimeout b) b in
  let searchTerm := JsString.toLowerCase (JsString.trim value) in
  if JsString.length searchTerm <? 2 then showHint b
  else setSearchTimeout now 300 searchTerm b.

(** An input event runs the listeners in the order of their registration. *)
Definition onInput (now : Z) (value : string) (b : search_box) : search_box :=
  onInput_debounced now value (onInput_search now value b).

(** The timeouts due at [now] run, in the order they were set. *)
Definition runTimers (now : Z) (b : search_box) : search_box :=
  let due := List.filter (fun t => fst (snd t) <=? now) (timers b) in
  {| searchTimeout := searchTimeout b;
     timers := List.filter (fun t => negb (fst (snd t) <=? now)) (timers b);
     next_timer := next_timer b;
     searches := rev (map snd due) ++ searches b;
     hints := hints b |}.

(** A timeout runs at its due time, so the call is recorded with it. *)
Definition runAllTimers (b : search_box) : search_box :=
  {| searchTimeout := searchTimeout b;
     timers := [];
     next_timer := next_timer b;
     searches := rev (map snd (timers b)) ++ searches b;
     hints := hints b |}.

(** A session: input events [(time, value)] in the order of time, each after
    the timeouts due by then; at the end the pending timeouts run. *)
Fixpoint session (events : list (Z * string)) (b : search_box) : search_box :=
  match events with
  | [] => runAllTimers b
  | (now, value) :: events' => session events' (onInput now value (runTimers now b))
  end.

(** The calls of [searchAvailableGames] in a session, first to last. *)
Definition searches_of (events : list (Z * string)) : list (Z * string) :=
  rev (searches (session events initial)).

(** The same session with the second listener alone. *)
Fixpoint session_debounced (events : list (Z * string)) (b : search_box) : search_box :=
  match events with
  | [] => runAllTimers b
  | (now, value) :: events' =>
      session_debounced events' (onInput_debounced now value (runTimers now b))
  end.

End Top10Search.

(** ** Saved filters and the saved sort key *)

(** The three controls [filterGames] reads: the search box and the two
    selects.  A select is taken to offer the value it is given. *)
Record controls := {
  search_box : string;
  status_select : string;
  platform_select : string
}.

Definition empty_controls : controls :=
  {| search_box := ""; status_select := ""; platform_select := "" |}.

Definition no_filters : filters :=
  {| f_status := ""; f_platform := ""; f_search := "" |}.

(** [localStorage.getItem(key)] where the script tests it: a missing key and
    an empty string both count as nothing. *)
Definition stored (key : string) (st : state) : option string :=
  match localStorage st !! key with
  | Some v => if decide (v = ""%string) then None else Some v
  | None => None
  end.

Definition restoreStatus (cs : controls * state) : controls * state :=
  match stored "gameTracker_filter_status" cs.2 with
  | Some savedStatus =>
      ({| search_box := search_box cs.1; status_select := savedStatus;
          platform_select := platform_select cs.1 |},
       set_currentFilters
         {| f_status := savedStatus;
            f_platform := f_platform (currentFilters cs.2);
            f_search := f_search (currentFilters cs.2) |} cs.2)
  | None => cs
  end.

Definition restorePlatform (cs : controls * state) : controls * state :=
  match stored "gameTracker_filter_platform" cs.2 with
  | Some savedPlatform =>
      ({| search_box := search_box cs.1; status_select := status_select cs.1;
          platform_select := savedPlatform |},
       set_currentFilters
         {| f_status := f_status (currentFilters cs.2);
            f_platform := savedPlatform;
            f_search := f_search (currentFilters cs.2) |} cs.2)
  | None => cs
  end.

Definition restoreSearch (cs : controls * state) : controls * state :=
  match stored "gameTracker_filter_search" cs.2 with
  | Some savedSearch =>
      ({| search_box := savedSearch; status_select := status_select cs.1;
          platform_select := platform_select cs.1 |},
       set_currentFilters
         {| f_status := f_status (currentFilters cs.2);
            f_platform := f_platform (currentFilters cs.2);
            f_search := savedSearch |} cs.2)
  | None => cs
  end.

(** [loadSavedFilters()]: its three tests in turn. *)
Definition loadSavedFilters (c : controls) (st : state) : controls * state :=
  restoreSearch (restorePlatform (restoreStatus (c, st))).

(** The initial value of [currentSort]:
    [localStorage.getItem('gameTracker_sort') || 'recent']. *)
Definition initialSort (ls : gmap string string) : string :=
  match ls !! "gameTracker_sort"%string with
  | Some v => if decide (v = ""%string) then "recent"%string else v
  | None => "recent"%string
  end.

Section Controls.
Context `{HostLocale}.

(** [filterGames()] on the present values of the controls. *)
Definition filterGamesFrom (c : controls) (st : state) : state :=
  filterGames (search_box c) (status_select c) (platform_select c) st.

(** ** Authentication *)

(** [checkAuth()], from the point where the request settles; the payload is
    [data.logged_in]. *)
Definition checkAuth (r : fetched bool) (st : state) : state :=
  match r with
  | Rejected => console_error "Auth check failed:" st
  | Resolved res =>
      match r_json res with
      | None => console_error "Auth check failed:" st
      | Some logged_in => updateUIForAuth (set_isLoggedIn logged_in st)
      end
  end.

(** The click handler of [#login-btn], from the point where the request
    settles; the payload is [data.success].  The symbols that open the two
    notices are left out. *)
Definition login (password : string) (r : fetched bool) (st : state) : state :=
  if decide (password = ""%string) then alert "Please enter the password" st
  else match r with
       | Rejected => alert "Error logging in" st
       | Resolved res =>
           match r_json res with
           | None => alert "Error logging in" st
           | Some true =>
               alert "Unlocked! You can now edit games."
                 (updateUIForAuth (set_isLoggedIn true st))
           | Some false => alert "Incorrect password" st
           end
       end.

(** The click handler of [#add-ach-btn], from the point where the request
    settles: [fetch(...).then(() => loadAchievementsModal(id)).catch(...)].
    [title] is the answer to the prompt; [listed] says whether the reload of
    the achievements went through.  The handler is attached in admin mode
    only. *)
Definition addAchievement (title : option string) (r : fetched unit)
    (listed : bool) (st : state) : state :=
  match title with
  | None => st
  | Some t =>
      if decide (t = ""%string) then st
      else
        let expired st :=
          updateUIForAuth
            (set_isLoggedIn false
               (alert "Error adding achievement. Your session may have expired." st)) in
        match r with
        | Rejected => expired st
        | Resolved _ => if listed then st else expired st
        end
  end.

(** ** Starting the page

    The script calls [checkAuth()] twice at its top level.  The callback of
    the first call loads the saved filters and calls [fetchGames()]; the
    callback of the second calls [fetchGames()].  Each request settles on
    its own, a [fetchGames()] after the callback that sent it.  The other
    calls of the callbacks work on other parts of the page. *)
Inductive startup_event :=
  | AuthChecked1
  | GamesFetched1
  | AuthChecked2
  | GamesFetched2.

(** What the four requests give. *)
Record startup_results := {
  auth1 : fetched bool;
  games1 : fetched (list game);
  auth2 : fetched bool;
  games2 : fetched (list game)
}.

Definition startup_step (rs : startup_results) (cs : controls * state)
    (e : startup_event) : controls * state :=
  match e with
  | AuthChecked1 => loadSavedFilters cs.1 (checkAuth (auth1 rs) cs.2)
  | GamesFetched1 => (cs.1, fetchGames (games1 rs) cs.2)
  | AuthChecked2 => (cs.1, checkAuth (auth2 rs) cs.2)
  | GamesFetched2 => (cs.1, fetchGames (games2 rs) cs.2)
  end.

(** The page after the events of [order]. *)
Definition startup (rs : startup_results) (order : list startup_event)
    (cs : controls * state) : controls * state :=
  fold_left (startup_step rs) order cs.

(** What the handlers above and the handlers of the games tab can do to the
    page, one step per settled handler. *)
Inductive page_step : state -> state -> Prop :=
  | step_checkAuth r st : page_step st (checkAuth r st)
  | step_login password r st : page_step st (login password r st)
  | step_addAchievement title r listed st :
      page_step st (addAchievement title r listed st)
  | step_fetchGames r st : page_step st (fetchGames r st)
  | step_filterGames typed sv pv st : page_step st (filterGames typed sv pv st)
  | step_sortByChanged value st : page_step st (sortByChanged value st)
  | step_toggleFavorite gameId r st : page_step st (toggleFavorite gameId r st)
  | step_deleteGame gameId confirmed r reloaded st :
      page_step st (deleteGame gameId confirmed r reloaded st)
  | step_saveGame title_value r reloaded st :
      page_step st (saveGame title_value r reloaded st).

End Controls.

(** The ways two sequences of events can interleave, each keeping its
    order. *)
Fixpoint merges {A} (l1 : list A) : list A -> list (list A) :=
  fix inner (l2 : list A) : list (list A) :=
    match l1, l2 with
    | [], _ => [l2]
    | _, [] => [l1]
    | x :: l1', y :: l2' =>
        map (cons x) (merges l1' l2) ++ map (cons y) (inner l2')
    end.

(** The orders in which the requests of the start can settle. *)
Definition startup_orders : list (list startup_event) :=
  merges [AuthChecked1; GamesFetched1] [AuthChecked2; GamesFetched2].

(** ** The results of the Top-10 search *)

Module Top10Results.
Import Top10.

(** [top10Games.some(top10 => top10.game_id === game.id)]. *)
Definition inTop10 (ed : editor) (game : game) : bool :=
  existsb (fun top10 => bool_decide (game_id top10 = id game)) (top10Games ed).

(** The games [searchAvailableGames(searchTerm)] lists: [filteredGames].
    Each comes with a control that calls [addGameToTop10] with its id. *)
Definition filteredGames (searchTerm : string) (ed : editor) : list game :=
  List.filter
    (fun game =>
       negb (inTop10 ed game) &&
       (JsString.includes (JsString.toLowerCase (title game)) searchTerm ||
        existsb (fun tag => JsString.includes (JsString.toLowerCase tag) searchTerm)
                (default [] (tags game)) ||
        JsString.includes (JsString.toLowerCase (default ""%string (platform game)))
                          searchTerm))
    (cache ed).

End Top10Results.

(** ** The tags field of the game form *)

(** [s.split(',')]: the pieces between the commas. *)
Fixpoint split_comma (s : string) : list string :=
  match s with
  | EmptyString => [EmptyString]
  | String c s' =>
      if Ascii.eqb c "," then EmptyString :: split_comma s'
      else match split_comma s' with
           | [] => [String c EmptyString]
           | piece :: pieces => String c piece :: pieces
           end
  end.

(** [l.join(sep)]. *)
Fixpoint join (sep : string) (l : list string) : string :=
  match l with
  | [] => EmptyString
  | t :: l' =>
      match l' with
      | [] => t
      | _ => t +:+ sep +:+ join sep l'
      end
  end.

(** [editGame(game)] writes [(game.tags || []).join(', ')] to the tags
    input. *)
Definition tagsInput (game : game) : string :=
  join ", " (default [] (tags game)).

(** The save handler reads the tags back:
    [value.split(',').map(t => t.trim()).filter(t => t)]. *)
Definition tagsOf (value : string) : list string :=
  List.filter (fun t => negb (bool_decide (t = ""%string)))
              (map JsString.trim (split_comma value)).

(** ** Batch operations *)

Module Batch.

(** The games tab with the two globals of the batch mode.  [selectedGames]
    is a [Set]: its members in the order of their insertion. *)
Record page := {
  view : state;
  batchMode : bool;
  selectedGames : list Z
}.

Definition set_view (st : state) (p : page) : page :=
  {| view := st; batchMode := batchMode p; selectedGames := selectedGames p |}.

(** [s.add(x)]: a member keeps its place. *)
Definition Set_add (x : Z) (s : list Z) : list Z :=
  if decide (x ∈ s) then s else s ++ [x].

(** [s.delete(x)]. *)
Definition Set_delete (x : Z) (s : list Z) : list Z :=
  List.filter (fun y => negb (bool_decide (y = x))) s.

(** The change handler of the checkbox on the card of a game. *)
Definition checkboxChanged (gameId : Z) (checked : bool) (p : page) : page :=
  {| view := view p; batchMode := batchMode p;
     selectedGames := if checked then Set_add gameId (selectedGames p)
                      else Set_delete gameId (selectedGames p) |}.

(** What one game of [batchUpdateStatus] meets: an exception (the request
    rejected or its body not parsed), or the fields of the result the loop
    reads. *)
Inductive update_result :=
  | Threw
  | Answered (success : bool) (achievements_updated : option Z)
             (all_achievements_unlocked : bool).

(** The counters of the loop, and the games for which it goes on to write
    the chosen status. *)
Record tally := {
  updatedCount : Z;
  completedCount : Z;
  achievementsUpdated : Z;
  status_writes : list Z
}.

Definition no_tally : tally :=
  {| updatedCount := 0; completedCount := 0; achievementsUpdated := 0;
     status_writes := [] |}.

(** The body of the loop for one game. *)
Definition updateOne (newStatus : string) (gameId : Z) (r : update_result)
    (t : tally) : tally :=
  match r with
  | Threw => t
  | Answered success achievements_updated all_achievements_unlocked =>
      if success then
        {| updatedCount := updatedCount t + 1;
           completedCount :=
             if all_achievements_unlocked then completedCount t + 1
             else completedCount t;
           achievementsUpdated :=
             match achievements_updated with
             | Some n => if 0 <? n then achievementsUpdated t + n
                         else achievementsUpdated t
             | None => achievementsUpdated t
             end;
           status_writes :=
             if negb (bool_decide (newStatus = ""%string)) &&
                negb all_achievements_unlocked
             then status_writes t ++ [gameId] else status_writes t |}
      else t
  end.

(** [for (const gameId of selectedGames) ...]; [answer] gives what each game
    meets. *)
Definition updateAll (newStatus : string) (answer : Z -> update_result)
    (selected : list Z) : tally :=
  fold_left (fun t gameId => updateOne newStatus gameId (answer gameId) t)
            selected no_tally.

(** The notice at the end of the loop. *)
Definition updateMessage (t : tally) : string :=
  ("Updated " +:+ pretty (updatedCount t) +:+ " game(s) from Steam") +:+
  (if 0 <? achievementsUpdated t
   then " - " +:+ pretty (achievementsUpdated t) +:+ " achievements refreshed"
   else "") +:+
  (if 0 <? completedCount t
   then " - " +:+ pretty (completedCount t) +:+ " games completed all achievements"
   else "").

(** The body [batchDeleteGames] posts to [/api/batch/delete]:
    [Array.from(selectedGames)]. *)
Definition game_ids (p : page) : list Z := selectedGames p.

Section Handlers.
Context `{HostLocale}.

(** [toggleBatchMode()]. *)
Definition toggleBatchMode (p : page) : page :=
  {| view := applySortingAndFiltering (view p);
     batchMode := negb (batchMode p);
     selectedGames := [] |}.

(** [cancelBatchMode()]. *)
Definition cancelBatchMode (p : page) : page :=
  {| view := applySortingAndFiltering (view p);
     batchMode := false;
     selectedGames := [] |}.

(** [batchDeleteGames()], from the point where the request settles;
    [confirmed] is the answer to the confirmation dialog, [reloaded] what
    the request of the [fetchGames] call gives. *)
Definition batchDeleteGames (confirmed : bool) (r : fetched unit)
    (reloaded : fetched (list game)) (p : page) : page :=
  match selectedGames p with
  | [] => set_view (alert "Please select at least one game" (view p)) p
  | _ =>
      if negb confirmed then p
      else match r with
           | Rejected => set_view (alert "Error deleting games: " (view p)) p
           | Resolved res =>
               if r_ok res then
                 let p1 :=
                   cancelBatchMode
                     (set_view
                        (alert ("Deleted " +:+ pretty (length (selectedGames p))
                                +:+ " game(s) successfully!") (view p)) p) in
                 set_view (fetchGames reloaded (view p1)) p1
               else p
           end
  end.

(** [batchUpdateStatus()], from the point where the loop has run;
    [newStatus] is the value of [#batch-status]. *)
Definition batchUpdateStatus (newStatus : string) (confirmed : bool)
    (answer : Z -> update_result) (reloaded : fetched (list game))
    (p : page) : page :=
  match selectedGames p with
  | [] => set_view (alert "Please select at least one game" (view p)) p
  | _ =>
      if negb confirmed then p
      else
        let t := updateAll newStatus answer (selectedGames p) in
        let p1 := cancelBatchMode (set_view (alert (updateMessage t) (view p)) p) in
        set_view (fetchGames reloaded (view p1)) p1
  end.

(** What can happen to the selection: the handlers of the batch mode and
    the handlers of the games tab, which work on the view. *)
Inductive step : page -> page -> Prop :=
  | step_checkbox gameId checked p :
      batchMode p = true ->
      In gameId (map id (displayed (games_list (view p)))) ->
      step p (checkboxChanged gameId checked p)
  | step_toggle p : step p (toggleBatchMode p)
  | step_cancel p : step p (cancelBatchMode p)
  | step_delete confirmed r reloaded p :
      step p (batchDeleteGames confirmed r reloaded p)
  | step_update newStatus confirmed answer reloaded p :
      step p (batchUpdateStatus newStatus confirmed answer reloaded p)
  | step_view st' p : page_step (view p) st' -> step p (set_view st' p).

End Handlers.

(** The page as the script leaves it when it has loaded. *)
Definition initial (st : state) : page :=
  {| view := st; batchMode := false; selectedGames := [] |}.

End Batch.

(** ** Vocabulary of the properties *)

(** [s] is a substring of [t]. *)
Definition occurs_in (s t : string) : Prop :=
  exists pre suf : string, t = pre +:+ s +:+ suf.

(** [s] is a substring of [t] when case is ignored. *)
Definition occurs_ci (s t : string) : Prop :=
  occurs_in (JsString.toLowerCase s) (JsString.toLowerCase t).

(** The search test of the filter, on the text the user typed. *)
Definition search_matches (typed : string) (g : game) : Prop :=
  typed = ""%string \/
  occurs_ci typed (title g) \/
  occurs_ci typed (default ""%string (notes g)) \/
  exists t, In t (default [] (tags g)) /\ occurs_ci typed t.

(** The two games of the scenarios. *)
Definition scenario_game (i : Z) (t : string) (hours stars : Q) : game :=
  {| id := i; title := t; platform := None; status := None;
     rating := Some stars; hours_played := Some hours; tags := None;
     notes := None; steam_app_id := None; cover_url := None;
     is_favorite := false; created_at := None; progress := None |}.

Definition Alpha : game := scenario_game 1 "Alpha" 5 3.
Definition Beta : game := scenario_game 2 "Beta" 20 5.

(** A page whose cache holds [l], with no filter set. *)
Definition page_with (l : list game) (sortKey : string) : state :=
  {| heap := {[ 1%positive := l ]}; allGames := 1%positive; isLoggedIn := false;
     currentSort := sortKey;
     currentFilters := {| f_status := ""; f_platform := ""; f_search := "" |};
     localStorage := ∅; games_list := EmptyState; auth_indicator := "View Only";
     alerts := []; console_errors := []; reload_requested := false |}.

(** What [renderGames] shows for a list. *)
Definition view_of (l : list game) : games_view :=
  match l with
  | [] => EmptyState
  | _ => Cards l
  end.

(** [a] may stand before [b] for the comparator: the number the sort reads
    from [cmp a b] is not positive. *)
Definition precedes (cmp : game -> game -> option Q) (a b : game) : Prop :=
  (sortCompare (cmp a b) <= 0)%Q.

(** The comparator orders the games of [l] consistently: any two compare
    one way or the other, and the comparisons chain. *)
Definition consistent_on (cmp : game -> game -> option Q) (l : list game) : Prop :=
  (forall a b, In a l -> In b l -> precedes cmp a b \/ precedes cmp b a) /\
  (forall a b c, In a l -> In b l -> In c l ->
                 precedes cmp a b -> precedes cmp b c -> precedes cmp a c).

(** The time value of [created_at], for the games that have one. *)
Definition created (g : game) : Z := default 0 (created_at g).

(** *** The comparator table of the specification

    The table in the words of the specification, to hold the sort of the
    code against: the number or the text each sort key orders by, a missing
    number being 0 and a missing text the empty text, and the direction. *)

Module Table.

Inductive direction := Ascending | Descending.

(** "missing treated as 0". *)
Definition number_or_0 (v : option Q) : Q :=
  match v with
  | Some q => q
  | None => 0%Q
  end.

(** "missing treated as empty string". *)
Definition text_or_empty (v : option string) : string :=
  match v with
  | Some s => s
  | None => ""%string
  end.

Definition hours (g : game) : Q := number_or_0 (hours_played g).

Definition stars (g : game) : Q := number_or_0 (rating g).

(** The achievement completion percentage. *)
Definition completion (g : game) : Q :=
  match progress g with
  | Some p => number_or_0 (completion_percentage p)
  | None => 0%Q
  end.

Definition status_text (g : game) : string := text_or_empty (status g).

Definition platform_text (g : game) : string := text_or_empty (platform g).

(** The rows of the keys that order by a number. *)
Definition numeric_rows : list (string * (game -> Q) * direction) :=
  [("hours", hours, Descending); ("hours-asc", hours, Ascending);
   ("rating", stars, Descending); ("rating-asc", stars, Ascending);
   ("completion", completion, Descending);
   ("completion-asc", completion, Ascending)]%string.

(** The rows of the keys that order by a text, in the host's collation. *)
Definition text_rows : list (string * (game -> string) * direction) :=
  [("title", title, Ascending); ("title-desc", title, Descending);
   ("status", status_text, Ascending);
   ("platform", platform_text, Ascending)]%string.

(** The keys with a row of their own; every other key is the default,
    "recent". *)
Definition sort_keys : list string :=
  map (fun row => row.1.1) numeric_rows ++ map (fun row => row.1.1) text_rows.

(** [a] may stand before [b]. *)
Definition by_number (key : game -> Q) (d : direction) (a b : game) : Prop :=
  match d with
  | Ascending => (key a <= key b)%Q
  | Descending => (key b <= key a)%Q
  end.

Definition by_text `{HostLocale} (key : game -> string) (d : direction)
    (a b : game) : Prop :=
  match d with
  | Ascending => localeCompare (key a) (key b) <= 0
  | Descending => localeCompare (key b) (key a) <= 0
  end.

(** "descending by created_at timestamp". *)
Definition most_recent_first (a b : game) : Prop := created b <= created a.

(** The host's collation orders the texts of [l] consistently: comparing
    the other way round gives the opposite sign, and the order chains. *)
Definition collation_consistent `{HostLocale} (l : list string) : Prop :=
  (forall s t, In s l -> In t l ->
               Z.sgn (localeCompare t s) = - Z.sgn (localeCompare s t)) /\
  (forall s t u, In s l -> In t l -> In u l ->
                 localeCompare s t <= 0 -> localeCompare t u <= 0 ->
                 localeCompare s u <= 0).

(** [shown] is [subset] put in order: the same games, each before the games
    it may stand before, and games that tie in the order they have in
    [subset]. *)
Definition sorts (before : game -> game -> Prop) (subset shown : list game) : Prop :=
  shown ≡ₚ subset /\
  StronglySorted before shown /\
  forall tie : game -> bool,
    (forall a b, tie a = true -> tie b = true -> before a b) ->
    List.filter tie shown = List.filter tie subset.

End Table.

(** A game with no hours on record. *)
Definition Untimed : game :=
  {| id := 4; title := "Untimed"; platform := None; status := None;
     rating := None; hours_played := None; tags := None; notes := None;
     steam_app_id := None; cover_url := None; is_favorite := false;
     created_at := None; progress := None |}.

(** Two games with a date of creation, the second the later. *)
Definition Older : game :=
  {| id := 5; title := "Older"; platform := None; status := None;
     rating := None; hours_played := None; tags := None; notes := None;
     steam_app_id := None; cover_url := None; is_favorite := false;
     created_at := Some 1000; progress := None |}.

Definition Newer : game :=
  {| id := 6; title := "Newer"; platform := None; status := None;
     rating := None; hours_played := None; tags := None; notes := None;
     steam_app_id := None; cover_url := None; is_favorite := false;
     created_at := Some 2000; progress := None |}.

(** The games [applySortingAndFiltering] sorts: those its filter keeps. *)
Definition filtered_subset (st : state) : list game :=
  List.filter (matchGame (currentFilters st)) (games st).

(** Text of the ASCII range.  There the host lower-cases character by
    character, A to Z and nothing else, as [JsString.toLowerCase] does. *)
Fixpoint ascii_only (s : string) : bool :=
  match s with
  | EmptyString => true
  | String c s' => (N_of_ascii c <? 128)%N && ascii_only s'
  end.

(** Orders by a numeric key. *)
Definition descending (key : game -> Q) (l : list game) : Prop :=
  StronglySorted (fun a b => (key b <= key a)%Q) l.

Definition ascending (key : game -> Q) (l : list game) : Prop :=
  StronglySorted (fun a b => (key a <= key b)%Q) l.

(** [l'] keeps the games of equal key in the order they have in [l]. *)
Definition keeps_ties_of (key : game -> Q) (l l' : list game) : Prop :=
  forall q : Q,
    List.filter (fun g => Qeq_bool (key g) q) l' =
    List.filter (fun g => Qeq_bool (key g) q) l.

(** A read of the games list that fails: the request is rejected, or the
    response has a status outside 200..299. *)
Definition failed_read (r : fetched (list game)) : Prop :=
  match r with
  | Rejected => True
  | Resolved res => r_ok res = false
  end.

(** A response with the given status and body. *)
Definition responds {A} (code : Z) (payload : option A) : fetched A :=
  Resolved {| r_status := code; r_json := payload |}.

(** A page in admin mode whose cache holds [l]. *)
Definition admin_page (l : list game) : state :=
  {| heap := {[ 1%positive := l ]}; allGames := 1%positive; isLoggedIn := true;
     currentSort := "recent";
     currentFilters := {| f_status := ""; f_platform := ""; f_search := "" |};
     localStorage := ∅; games_list := Cards l; auth_indicator := "Admin Mode";
     alerts := []; console_errors := []; reload_requested := false |}.

(** The entries a view shows, each with its rank. *)
Definition ranks (v : Top10.ranked_view) : list (Z * top10_entry) :=
  match v with
  | Top10.NoEntries => []
  | Top10.Ranked items => items
  end.

(** A Top-10 entry as [/api/top10] returns it. *)
Definition stored_entry (i : Z) (t why : string) : top10_entry :=
  {| game_id := i; t_title := t; t_platform := None; t_hours_played := None;
     t_rating := None; t_cover_url := None; why_i_love_it := Some why |}.



(** The ranks 1, 2, ..., n. *)
Definition dense_ranks (n : nat) : list Z := seqZ 1 (Z.of_nat n).

(** The item [saveTop10] posts for the entry at [index]. *)
Definition posted (index : nat) (e : top10_entry) : Top10.saved_entry :=
  {| Top10.s_game_id := game_id e;
     Top10.position := Z.of_nat index + 1;
     Top10.s_why_i_love_it := default ""%string (why_i_love_it e) |}.

(** A draft of three stored entries. *)
Definition three_entries : list top10_entry :=
  [stored_entry 7 "Hades" "runs"; stored_entry 8 "Celeste" ""; stored_entry 9 "Outer Wilds" "loop"].

(** The term a listener of the search box extracts from the input. *)
Definition search_term (value : string) : string :=
  JsString.toLowerCase (JsString.trim value).

(** The input is long enough to search for. *)
Definition searchable (value : string) : Prop :=
  (JsString.length (search_term value) <? 2) = false.

(** The events of a session come in the order of time. *)
Definition times_ascend (events : list (Z * string)) : Prop :=
  StronglySorted (fun e1 e2 => fst e1 <= fst e2) events.

(** A search at time [t] comes after a quiet period: the input it searches
    for came 300 ms before, and no input came in between. *)
Definition after_quiet (events : list (Z * string)) (t : Z) (term : string) : Prop :=
  (exists value, In (t - 300, value) events /\ term = search_term value) /\
  (forall t' value, In (t', value) events -> ~ (t - 300 < t' < t)).

(** What the second listener keeps pending after the inputs [past]: nothing,
    or the timeout of the latest input, which [searchTimeout] names. *)
Definition pending_ok (past : list (Z * string)) (b : Top10Search.search_box) : Prop :=
  Top10Search.timers b = [] \/
  exists i t value,
    Top10Search.timers b = [(i, (t + 300, search_term value))] /\
    Top10Search.searchTimeout b = Some i /\
    In (t, value) past /\
    forall e, In e past -> fst e <= t.

(** The searches on record came after a quiet period among the inputs
    [past], and not later than the inputs to come. *)
Definition logged_ok (past future : list (Z * string)) (b : Top10Search.search_box) : Prop :=
  forall t term,
    In (t, term) (Top10Search.searches b) ->
    after_quiet past t term /\ forall e, In e future -> t <= fst e.

(** The indicator shows the mode of the flag. *)
Definition indicator_agrees (st : state) : Prop :=
  auth_indicator st = (if isLoggedIn st then "Admin Mode" else "View Only")%string.

(** A search at time [t] is the one the first listener runs for an input of
    that time. *)
Definition at_input (events : list (Z * string)) (t : Z) (term : string) : Prop :=
  exists value, In (t, value) events /\ searchable value /\ term = search_term value.

(** The searches on record came with an input or after a quiet period among
    the inputs [past], and not later than the inputs to come. *)
Definition searched_ok (past future : list (Z * string)) (b : Top10Search.search_box) : Prop :=
  forall t term,
    In (t, term) (Top10Search.searches b) ->
    (at_input past t term \/ after_quiet past t term) /\
    forall e, In e future -> t <= fst e.

(** At most one timeout is pending, the one [searchTimeout] names. *)
Definition one_pending (b : Top10Search.search_box) : Prop :=
  Top10Search.timers b = [] \/
  exists i d, Top10Search.timers b = [(i, d)] /\ Top10Search.searchTimeout b = Some i.

(** [c] occurs in [s]. *)
Fixpoint mentions (c : ascii) (s : string) : bool :=
  match s with
  | EmptyString => false
  | String a s' => Ascii.eqb a c || mentions c s'
  end.

(** A tag as the form yields it: not empty, no comma, no white space at
    either end. *)
Definition clean_tag (t : string) : Prop :=
  t <> ""%string /\ mentions "," t = false /\ JsString.trim t = t.

(** The update of a game went through. *)
Definition succeeded (answer : Z -> Batch.update_result) (gameId : Z) : bool :=
  match answer gameId with
  | Batch.Answered true _ _ => true
  | _ => false
  end.

(** The update found all achievements of the game unlocked. *)
Definition completed (answer : Z -> Batch.update_result) (gameId : Z) : bool :=
  match answer gameId with
  | Batch.Answered true _ true => true
  | _ => false
  end.

(** The response carries [payload] under a success status. *)
Definition delivers {A} (r : fetched A) (payload : A) : Prop :=
  exists code, r = responds code (Some payload) /\
               r_ok {| r_status := code; r_json := Some payload |} = true.

(** The page before the saved filters are loaded, and after. *)
Definition just_loaded (ls : gmap string string) (cs : controls * state) : Prop :=
  cs.1 = empty_controls /\ currentFilters cs.2 = no_filters /\
  currentSort cs.2 = initialSort ls /\ localStorage cs.2 = ls.

Definition filters_restored (ls : gmap string string) (f : filters)
    (cs : controls * state) : Prop :=
  cs.1 = {| search_box := f_search f; status_select := f_status f;
            platform_select := f_platform f |} /\
  currentFilters cs.2 = f /\
  currentSort cs.2 = initialSort ls /\ localStorage cs.2 = ls.

(** The library arrives twice; the first authentication check fails. *)
Definition library_twice : startup_results :=
  {| auth1 := Rejected; games1 := responds 200 (Some [Alpha; Beta]);
     auth2 := responds 200 (Some true);
     games2 := responds 200 (Some [Alpha; Beta]) |}.

(** The sort keys that order by a number, each with its ascending form and
    the number it reads. *)
Definition numeric_sorts : list (string * string * (game -> Q)) :=
  [("hours", "hours-asc", fun g => or0 (hours_played g));
   ("rating", "rating-asc", fun g => or0 (rating g));
   ("completion", "completion-asc", completionOf)]%string.

(** No two games of [l] have the same key. *)
Definition distinct_keys (key : game -> Q) (l : list game) : Prop :=
  NoDup (map (fun g => Qred (key g)) l).

(** The response was taken as a success. *)
Definition accepted {A} (r : fetched A) : Prop :=
  exists res, r = Resolved res /\ r_ok res = true.

(** A game of the cache with tags and a platform. *)
Definition Gamma : game :=
  {| id := 3; title := "Gamma"; platform := Some "PC"%string; status := None;
     rating := None; hours_played := None;
     tags := Some ["rpg"; "co-op"]%string;
     notes := None; steam_app_id := None; cover_url := None;
     is_favorite := false; created_at := None; progress := None |}.

(** An editor whose draft holds three entries, with [Alpha], [Beta] and
    [Gamma] in the cache. *)
Definition draft_editor : Top10.editor :=
  Top10.set_cache [Alpha; Beta; Gamma]
    (Top10.set_top10Games three_entries Top10.initial).

(** A page in batch mode with three games selected. *)
Definition batch_page : Batch.page :=
  {| Batch.view := admin_page [Alpha; Beta; Gamma]; Batch.batchMode := true;
     Batch.selectedGames := [1; 2; 3] |}.

(** The answers of a batch update in which the second game fails. *)
Definition second_fails (gameId : Z) : Batch.update_result :=
  if decide (gameId = 2) then Batch.Threw
  else Batch.Answered true (Some 3) (bool_decide (gameId = 3)).

(** * Properties *)

(** ** Strings *)

Section StringFacts.
Import JsString.

Lemma lower_ascii_idem c : lower_ascii (lower_ascii c) = lower_ascii c.
Proof. destruct c as [[] [] [] [] [] [] [] []]; reflexivity. Qed.

Lemma toLowerCase_idem s : toLowerCase (toLowerCase s) = toLowerCase s.
Proof.
  induction s as [|c s IH]; simpl; [reflexivity|].
  now rewrite lower_ascii_idem, IH.
Qed.

Lemma toLowerCase_empty s : toLowerCase s = ""%string <-> s = ""%string.
Proof. destruct s; simpl; split; intros E; congruence. Qed.

Lemma append_String c (s t : string) : String c s +:+ t = String c (s +:+ t).
Proof. reflexivity. Qed.

Lemma startsWith_spec s sub :
  startsWith s sub = true <-> exists suf, s = sub +:+ suf.
Proof.
  revert s. induction sub as [|a sub IH]; intros s; simpl.
  - split; [intros _; now exists s | intros _; now destruct s].
  - destruct s as [|b s]; simpl.
    + split; [discriminate | intros [suf E]; discriminate].
    + destruct (decide (a = b)) as [->|Hne].
      * rewrite IH. split; intros [suf E]; exists suf;
          rewrite append_String in *; congruence.
      * split; [discriminate|].
        intros [suf E]. rewrite append_String in E. congruence.
Qed.

Lemma includes_spec s sub : includes s sub = true <-> occurs_in sub s.
Proof.
  unfold occurs_in. induction s as [|c s IH].
  - change (includes "" sub) with (startsWith "" sub || false).
    rewrite orb_false_r, startsWith_spec. split.
    + intros [suf E]. now exists ""%string, suf.
    + intros [[|c pre] [suf E]]; [now exists suf | discriminate].
  - change (includes (String c s) sub)
      with (startsWith (String c s) sub || includes s sub).
    rewrite orb_true_iff, IH, startsWith_spec. split.
    + intros [[suf E]|[pre [suf E]]].
      * now exists ""%string, suf.
      * exists (String c pre), suf. rewrite append_String. now rewrite E.
    + intros [[|c' pre] [suf E]].
      * left. now exists suf.
      * right. exists pre, suf. rewrite append_String in E. congruence.
Qed.

End StringFacts.

(** ** Arrays in the store *)

Lemma Array_new_fresh l (h : store) : h !! (Array_new l h).1 = None.
Proof. apply not_elem_of_dom, is_fresh. Qed.

Lemma Array_new_read l (h : store) :
  Array_read (Array_new l h).1 (Array_new l h).2 = l.
Proof. unfold Array_read, Array_new; simpl. now rewrite lookup_insert_eq. Qed.

Lemma Array_new_frame l (h : store) r :
  is_Some (h !! r) -> (Array_new l h).2 !! r = h !! r.
Proof.
  intros Hr. unfold Array_new; simpl. apply lookup_insert_ne.
  intros E. rewrite <- E in Hr. pose proof (Array_new_fresh l h) as Hf.
  unfold Array_new in Hf; simpl in Hf. rewrite Hf in Hr. now destruct Hr.
Qed.

Lemma Array_sort_read cmp r (h : store) :
  Array_read r (Array_sort cmp r h) = sorted_by cmp (Array_read r h).
Proof. unfold Array_sort, Array_read at 1. now rewrite lookup_insert_eq. Qed.

Lemma Array_read_insert r l (h : store) : Array_read r (<[r := l]> h) = l.
Proof. unfold Array_read. now rewrite lookup_insert_eq. Qed.

Lemma Array_read_insert_nil r r' (h : store) :
  Array_read r h = [] -> Array_read r (<[r' := []]> h) = [].
Proof.
  intros E. destruct (decide (r' = r)) as [->|N].
  - apply Array_read_insert.
  - unfold Array_read in *. now rewrite lookup_insert_ne.
Qed.

(** ** The sort leaves a permutation *)

Lemma sort_insert_perm cmp x l : sort_insert cmp x l ≡ₚ x :: l.
Proof.
  induction l as [|y l IH]; simpl; [reflexivity|].
  destruct (Qle_bool _ _); [reflexivity|].
  rewrite IH. apply perm_swap.
Qed.

Lemma sorted_by_perm cmp l : sorted_by cmp l ≡ₚ l.
Proof.
  induction l as [|x l IH]; simpl; [reflexivity|].
  now rewrite sort_insert_perm, IH.
Qed.

Lemma sorted_by_In cmp l g : In g (sorted_by cmp l) <-> In g l.
Proof.
  rewrite <- !list_elem_of_In. now rewrite sorted_by_perm.
Qed.

Lemma filter_sublist (p : game -> bool) l : List.filter p l `sublist_of` l.
Proof.
  induction l as [|x l IH]; simpl; [constructor|].
  destruct (p x); now constructor.
Qed.

Lemma displayed_view_of l : displayed (view_of l) = l.
Proof. now destruct l. Qed.

(** ** What one derivation does *)

Section Derivation.
Context `{HostLocale}.

Lemma renderGames_eq r st :
  renderGames r st = set_games_list (view_of (Array_read r (heap st))) st.
Proof. unfold renderGames. now destruct (Array_read r (heap st)). Qed.

Lemma applySortingAndFiltering_eq st :
  applySortingAndFiltering st =
  set_games_list
    (view_of (applySorting (currentSort st)
                (applyFiltering (currentFilters st) (games st))))
    (set_heap (heap_after st) st).
Proof.
  unfold applySortingAndFiltering, heap_after, Array_spread, Array_filter.
  destruct (Array_new (Array_read (allGames st) (heap st)) (heap st))
    as [r1 h1] eqn:E1.
  pose proof (Array_new_read (Array_read (allGames st) (heap st)) (heap st)) as R1.
  rewrite E1 in R1; simpl in R1.
  destruct (Array_new (List.filter (matchGame (currentFilters st)) (Array_read r1 h1)) h1)
    as [r2 h2] eqn:E2.
  pose proof (Array_new_read
                (List.filter (matchGame (currentFilters st)) (Array_read r1 h1)) h1) as R2.
  rewrite E2 in R2; simpl in R2.
  rewrite renderGames_eq. simpl heap.
  now rewrite Array_sort_read, R2, R1.
Qed.

Lemma applySortingAndFiltering_view st :
  games_list (applySortingAndFiltering st) =
  view_of (applySorting (currentSort st)
             (applyFiltering (currentFilters st) (games st))).
Proof. now rewrite applySortingAndFiltering_eq. Qed.

Lemma applySortingAndFiltering_displayed st :
  displayed (games_list (applySortingAndFiltering st)) =
  applySorting (currentSort st) (applyFiltering (currentFilters st) (games st)).
Proof. now rewrite applySortingAndFiltering_view, displayed_view_of. Qed.

End Derivation.


(** ** The sort *)

Section StableSort.
Variable cmp : game -> game -> option Q.

(** Games that tie pairwise keep their order, whatever the comparator does
    elsewhere. *)
Lemma sort_insert_ties (P : game -> bool) x l :
  (forall a b, P a = true -> P b = true -> precedes cmp a b) ->
  List.filter P (sort_insert cmp x l) = List.filter P (x :: l).
Proof.
  intros Htie. induction l as [|y l IH]; [reflexivity|].
  cbn [sort_insert].
  destruct (Qle_bool (sortCompare (cmp x y)) 0) eqn:E; [reflexivity|].
  cbn [List.filter] in *. rewrite IH.
  destruct (P x) eqn:Px, (P y) eqn:Py; try reflexivity.
  exfalso. specialize (Htie x y Px Py). unfold precedes in Htie.
  apply Qle_bool_iff in Htie. congruence.
Qed.

Lemma sorted_by_ties (P : game -> bool) l :
  (forall a b, P a = true -> P b = true -> precedes cmp a b) ->
  List.filter P (sorted_by cmp l) = List.filter P l.
Proof.
  intros Htie. induction l as [|x l IH]; [reflexivity|].
  cbn [sorted_by foldr]. fold (sorted_by cmp l).
  rewrite sort_insert_ties by exact Htie.
  cbn [List.filter]. now rewrite IH.
Qed.

Lemma consistent_on_tail x l : consistent_on cmp (x :: l) -> consistent_on cmp l.
Proof.
  intros [Htot Htrans]. split.
  - intros a b Ha Hb. apply Htot; now right.
  - intros a b c Ha Hb Hc. apply Htrans; now right.
Qed.

Lemma sort_insert_sorted x l :
  consistent_on cmp (x :: l) ->
  StronglySorted (precedes cmp) l ->
  StronglySorted (precedes cmp) (sort_insert cmp x l).
Proof.
  intros Hc Hs. induction Hs as [|y l Hl IH Hy]; cbn [sort_insert].
  - repeat constructor.
  - destruct Hc as [Htot Htrans].
    destruct (Qle_bool (sortCompare (cmp x y)) 0) eqn:E.
    + apply Qle_bool_iff in E.
      constructor; [now constructor|].
      constructor; [exact E|].
      rewrite Forall_forall in Hy. apply Forall_forall. intros z Hz.
      apply Htrans with y; [now left | right; now left | | exact E | now apply Hy].
      right; right. now apply list_elem_of_In.
    + constructor.
      * apply IH. split.
        -- intros a b Ha Hb. apply Htot.
           ++ destruct Ha as [<-|Ha]; [now left | right; now right].
           ++ destruct Hb as [<-|Hb]; [now left | right; now right].
        -- intros a b c Ha Hb Hc. apply Htrans.
           ++ destruct Ha as [<-|Ha]; [now left | right; now right].
           ++ destruct Hb as [<-|Hb]; [now left | right; now right].
           ++ destruct Hc as [<-|Hc]; [now left | right; now right].
      * apply Forall_forall. intros z Hz.
        rewrite sort_insert_perm in Hz.
        apply elem_of_cons in Hz. destruct Hz as [->|Hz].
        -- destruct (Htot x y) as [Hxy|Hyx]; [now left | right; now left | | exact Hyx].
           apply Qle_bool_iff in Hxy. unfold precedes in *. congruence.
        -- rewrite Forall_forall in Hy. now apply Hy.
Qed.

Lemma sorted_by_sorted l :
  consistent_on cmp l -> StronglySorted (precedes cmp) (sorted_by cmp l).
Proof.
  induction l as [|x l IH]; intros Hc; [constructor|].
  cbn [sorted_by foldr]. fold (sorted_by cmp l).
  apply sort_insert_sorted.
  - destruct Hc as [Htot Htrans].
    assert (forall a, In a (x :: sorted_by cmp l) -> In a (x :: l)) as Hin.
    { intros a [<-|Ha]; [now left|right]. now apply sorted_by_In in Ha. }
    split.
    + intros a b Ha Hb. apply Htot; now apply Hin.
    + intros a b c Ha Hb Hc. apply Htrans; now apply Hin.
  - apply IH. now apply consistent_on_tail with x.
Qed.

End StableSort.

Lemma StronglySorted_weaken (R S : game -> game -> Prop) l :
  (forall a b, R a b -> S a b) -> StronglySorted R l -> StronglySorted S l.
Proof.
  intros HRS. induction 1 as [|x l Hl IH Hx]; constructor; [exact IH|].
  eapply Forall_impl; [exact Hx|]. intros y. apply HRS.
Qed.

Lemma StronglySorted_weaken_on (R S : game -> game -> Prop) l :
  (forall a b, In a l -> In b l -> R a b -> S a b) ->
  StronglySorted R l -> StronglySorted S l.
Proof.
  intros HRS Hs. induction Hs as [|x l Hl IH Hx]; constructor.
  - apply IH. intros a b Ha Hb. apply HRS; now right.
  - rewrite Forall_forall in Hx. apply Forall_forall. intros y Hy.
    apply HRS; [now left | right; now apply list_elem_of_In | now apply Hx].
Qed.

Lemma inject_Z_nonpos z : (inject_Z z <= 0)%Q <-> z <= 0.
Proof. unfold Qle; simpl. lia. Qed.

(** A comparator that subtracts a numeric key. *)
Section NumericKey.
Variable key : game -> Q.
Variable cmp : game -> game -> option Q.

Lemma sorted_descending l :
  (forall a b, cmp a b = Some (key b - key a)%Q) ->
  descending key (sorted_by cmp l) /\ keeps_ties_of key l (sorted_by cmp l).
Proof.
  intros Hcmp.
  assert (forall a b, precedes cmp a b <-> (key b <= key a)%Q) as Hp.
  { intros a b. unfold precedes. rewrite Hcmp. simpl. split; intros; lra. }
  split.
  - apply StronglySorted_weaken with (precedes cmp); [intros a b; apply Hp|].
    apply sorted_by_sorted. split.
    + intros a b _ _. rewrite !Hp. lra.
    + intros a b c _ _ _. rewrite !Hp. lra.
  - intros q. apply sorted_by_ties. intros a b Ha Hb.
    apply Qeq_bool_iff in Ha, Hb. apply Hp. lra.
Qed.

Lemma sorted_ascending l :
  (forall a b, cmp a b = Some (key a - key b)%Q) ->
  ascending key (sorted_by cmp l) /\ keeps_ties_of key l (sorted_by cmp l).
Proof.
  intros Hcmp.
  assert (forall a b, precedes cmp a b <-> (key a <= key b)%Q) as Hp.
  { intros a b. unfold precedes. rewrite Hcmp. simpl. split; intros; lra. }
  split.
  - apply StronglySorted_weaken with (precedes cmp); [intros a b; apply Hp|].
    apply sorted_by_sorted. split.
    + intros a b _ _. rewrite !Hp. lra.
    + intros a b c _ _ _. rewrite !Hp. lra.
  - intros q. apply sorted_by_ties. intros a b Ha Hb.
    apply Qeq_bool_iff in Ha, Hb. apply Hp. lra.
Qed.

End NumericKey.

(** The cases of a match on a sort key, one character after the other. *)
Ltac walk_key Hnot :=
  first
    [ reflexivity
    | exfalso; apply Hnot; cbn; tauto
    | match goal with
      | |- context [match ?k with EmptyString => _ | String _ _ => _ end] =>
          is_var k; destruct k as [|[[] [] [] [] [] [] [] []] ?]; walk_key Hnot
      end ].

Section SortKeys.
Context `{HostLocale}.

Lemma recent_precedes a b :
  is_Some (created_at a) -> is_Some (created_at b) ->
  precedes (compareGames "recent") a b <-> created b <= created a.
Proof.
  intros [ta Ha] [tb Hb]. unfold precedes, created.
  change (compareGames "recent" a b)
    with (match created_at b, created_at a with
          | Some tb, Some ta => Some (inject_Z (tb - ta))
          | _, _ => None
          end).
  rewrite Ha, Hb. simpl. rewrite inject_Z_nonpos. lia.
Qed.

Lemma recent_sorted l :
  Forall (fun g => is_Some (created_at g)) l ->
  StronglySorted (fun a b => created b <= created a) (applySorting "recent" l).
Proof.
  intros Hvalid. rewrite Forall_forall in Hvalid.
  assert (forall g, In g l -> is_Some (created_at g)) as Hv.
  { intros g Hg. now apply Hvalid, list_elem_of_In. }
  apply StronglySorted_weaken_on with (precedes (compareGames "recent")).
  - intros a b Ha Hb. unfold applySorting in Ha, Hb.
    apply sorted_by_In in Ha, Hb. now apply recent_precedes; apply Hv.
  - apply sorted_by_sorted. split.
    + intros a b Ha Hb. rewrite !recent_precedes by now apply Hv. lia.
    + intros a b c Ha Hb Hc. rewrite !recent_precedes by now apply Hv. lia.
Qed.

Lemma compareGames_default k a b :
  ~ In k Table.sort_keys -> compareGames k a b = compareGames "recent" a b.
Proof. intros Hnot. unfold compareGames at 1. walk_key Hnot. Qed.

Lemma shown_sorted_by st :
  displayed (games_list (applySortingAndFiltering st)) =
  sorted_by (compareGames (currentSort st)) (filtered_subset st).
Proof. now rewrite applySortingAndFiltering_displayed. Qed.

(** The sort of the code against an order [before] that its comparator
    decides on the games of [l]. *)
Lemma sorted_by_sorts cmp (before : game -> game -> Prop) l :
  (forall a b, In a l -> In b l -> precedes cmp a b -> before a b) ->
  (forall a b, before a b -> precedes cmp a b) ->
  (forall a b, In a l -> In b l -> before a b \/ before b a) ->
  (forall a b c, In a l -> In b l -> In c l ->
                 before a b -> before b c -> before a c) ->
  Table.sorts before l (sorted_by cmp l).
Proof.
  intros Hto Hfrom Htotal Htrans. split; [apply sorted_by_perm|]. split.
  - apply StronglySorted_weaken_on with (precedes cmp).
    + intros a b Ha Hb. apply sorted_by_In in Ha, Hb. now apply Hto.
    + apply sorted_by_sorted. split.
      * intros a b Ha Hb. destruct (Htotal a b Ha Hb); [left|right]; now apply Hfrom.
      * intros a b c Ha Hb Hc Hab Hbc. apply Hfrom.
        apply (Htrans a b c Ha Hb Hc); now apply Hto.
  - intros tie Htie. apply sorted_by_ties. intros a b Ha Hb.
    now apply Hfrom, Htie.
Qed.

Lemma precedes_difference cmp (x y : Q) a b :
  cmp a b = Some (x - y)%Q -> precedes cmp a b <-> (x <= y)%Q.
Proof. intros E. unfold precedes. rewrite E. simpl. split; intros; lra. Qed.

Lemma precedes_collation cmp (z : Z) a b :
  cmp a b = Some (inject_Z z) -> precedes cmp a b <-> z <= 0.
Proof. intros E. unfold precedes. rewrite E. simpl. apply inject_Z_nonpos. Qed.

Lemma numeric_row_sorts name key d l :
  In (name, key, d) Table.numeric_rows ->
  Table.sorts (Table.by_number key d) l (sorted_by (compareGames name) l).
Proof.
  intros Hrow.
  assert (forall a b, precedes (compareGames name) a b <-> Table.by_number key d a b)
    as Hp.
  { intros a b.
    destruct Hrow as [E|[E|[E|[E|[E|[E|[]]]]]]]; injection E as <- <- <-;
      cbn [Table.by_number]; apply precedes_difference;
      cbn [compareGames];
      unfold Table.hours, Table.stars, Table.completion, completionOf, or0;
      try (destruct (hours_played a), (hours_played b); reflexivity);
      try (destruct (rating a), (rating b); reflexivity);
      destruct (progress a) as [pa|], (progress b) as [pb|]; cbn;
      try destruct (completion_percentage pa); try destruct (completion_percentage pb);
      reflexivity. }
  apply sorted_by_sorts.
  - intros a b _ _. apply Hp.
  - intros a b. apply Hp.
  - intros a b _ _. destruct d; cbn; lra.
  - intros a b c _ _ _. destruct d; cbn; lra.
Qed.

Lemma text_row_sorts name key d l :
  In (name, key, d) Table.text_rows ->
  Table.collation_consistent (map key l) ->
  Table.sorts (Table.by_text key d) l (sorted_by (compareGames name) l).
Proof.
  intros Hrow [Hsign Htrans].
  assert (forall a b, precedes (compareGames name) a b <-> Table.by_text key d a b)
    as Hp.
  { intros a b.
    destruct Hrow as [E|[E|[E|[E|[]]]]]; injection E as <- <- <-;
      cbn [Table.by_text]; apply precedes_collation;
      unfold Table.status_text, Table.platform_text;
      cbn [compareGames];
      try destruct (status a); try destruct (status b);
      try destruct (platform a); try destruct (platform b); reflexivity. }
  assert (forall g, In g l -> In (key g) (map key l)) as Hkey
    by (intros g Hg; now apply in_map).
  apply sorted_by_sorts.
  - intros a b _ _. apply Hp.
  - intros a b. apply Hp.
  - intros a b Ha Hb. pose proof (Hsign _ _ (Hkey a Ha) (Hkey b Hb)).
    destruct d; cbn; lia.
  - intros a b c Ha Hb Hc. destruct d; cbn; intros Hab Hbc.
    + exact (Htrans _ _ _ (Hkey a Ha) (Hkey b Hb) (Hkey c Hc) Hab Hbc).
    + exact (Htrans _ _ _ (Hkey c Hc) (Hkey b Hb) (Hkey a Ha) Hbc Hab).
Qed.

Lemma recent_row_sorts name l :
  ~ In name Table.sort_keys ->
  Forall (fun g => is_Some (created_at g)) l ->
  Table.sorts Table.most_recent_first l (sorted_by (compareGames name) l).
Proof.
  intros Hname Hdates.
  assert (forall g, In g l -> is_Some (created_at g)) as Hd.
  { intros g Hg. rewrite Forall_forall in Hdates. now apply Hdates, list_elem_of_In. }
  assert (forall a b, is_Some (created_at a) -> is_Some (created_at b) ->
            precedes (compareGames name) a b <-> Table.most_recent_first a b) as Hp.
  { intros a b Ha Hb. unfold precedes. rewrite compareGames_default by exact Hname.
    now apply recent_precedes. }
  apply sorted_by_sorts.
  - intros a b Ha Hb. now apply Hp; apply Hd.
  - intros a b Hab. unfold precedes. rewrite compareGames_default by exact Hname.
    change (compareGames "recent" a b)
      with (match created_at b, created_at a with
            | Some tb, Some ta => Some (inject_Z (tb - ta))
            | _, _ => None
            end).
    unfold Table.most_recent_first, created in Hab.
    destruct (created_at b) as [tb|], (created_at a) as [ta|]; cbn in *;
      unfold Qle; cbn; lia.
  - intros a b _ _. unfold Table.most_recent_first. lia.
  - intros a b c _ _ _. unfold Table.most_recent_first. lia.
Qed.

(** C2. The sort of [applySortingAndFiltering] orders the games its filter
    keeps as the comparator table of the specification says.  For each of
    the keys "hours", "rating" and "completion" the list shown is in
    descending order of the number, for "hours-asc", "rating-asc" and
    "completion-asc" in ascending order, a missing number counting as 0.
    For "title", "status" and "platform" it is in the ascending order of the
    host's collation on the text, a missing status or platform counting as
    the empty text, and for "title-desc" in the descending order, where the
    collation orders those texts consistently.  For every other key,
    "recent" among them, it is in descending order of [created_at] where
    every date parses.  Each time the list shown holds the same games as
    the filtered set, and games that tie keep the order they have there.
    On the library [Alpha (5 h), Beta (20 h)] the key "hours" shows
    [Beta, Alpha]; a game with no hours goes after Alpha under "hours" and
    before it under "hours-asc"; "recent" shows the later game first; the
    key "title" shows [Alpha, Beta] from
    either order of the library, and "title-desc" [Beta, Alpha], when the
    host's collation puts "Alpha" before "Beta". *)
Theorem sort_follows_the_comparator_table :
  (forall st name key d,
      In (name, key, d) Table.numeric_rows ->
      currentSort st = name ->
      Table.sorts (Table.by_number key d) (filtered_subset st)
        (displayed (games_list (applySortingAndFiltering st)))) /\
  (forall st name key d,
      In (name, key, d) Table.text_rows ->
      currentSort st = name ->
      Table.collation_consistent (map key (filtered_subset st)) ->
      Table.sorts (Table.by_text key d) (filtered_subset st)
        (displayed (games_list (applySortingAndFiltering st)))) /\
  (forall st,
      ~ In (currentSort st) Table.sort_keys ->
      Forall (fun g => is_Some (created_at g)) (filtered_subset st) ->
      Table.sorts Table.most_recent_first (filtered_subset st)
        (displayed (games_list (applySortingAndFiltering st)))) /\
  displayed (games_list (applySortingAndFiltering (page_with [Alpha; Beta] "hours")))
    = [Beta; Alpha] /\
  displayed (games_list (applySortingAndFiltering (page_with [Untimed; Alpha] "hours")))
    = [Alpha; Untimed] /\
  displayed (games_list (applySortingAndFiltering (page_with [Alpha; Untimed] "hours-asc")))
    = [Untimed; Alpha] /\
  displayed (games_list (applySortingAndFiltering (page_with [Older; Newer] "recent")))
    = [Newer; Older] /\
  (localeCompare "Alpha" "Beta" < 0 ->
   displayed (games_list (applySortingAndFiltering (page_with [Alpha; Beta] "title")))
     = [Alpha; Beta]) /\
  (0 < localeCompare "Beta" "Alpha" ->
   displayed (games_list (applySortingAndFiltering (page_with [Beta; Alpha] "title")))
     = [Alpha; Beta] /\
   displayed (games_list (applySortingAndFiltering (page_with [Alpha; Beta] "title-desc")))
     = [Beta; Alpha]).
Proof.
  split; [|split; [|split]].
  - intros st name key d Hrow <-. rewrite shown_sorted_by.
    now apply numeric_row_sorts.
  - intros st name key d Hrow <- Hc. rewrite shown_sorted_by.
    now apply text_row_sorts.
  - intros st Hname Hdates. rewrite shown_sorted_by.
    now apply recent_row_sorts.
  - split; [rewrite applySortingAndFiltering_displayed; reflexivity|].
    split; [rewrite applySortingAndFiltering_displayed; reflexivity|].
    split; [rewrite applySortingAndFiltering_displayed; reflexivity|].
    split; [rewrite applySortingAndFiltering_displayed; reflexivity|].
    assert (forall z, (Qle_bool (inject_Z z) 0 = true) <-> z <= 0) as Hq.
    { intros z. rewrite Qle_bool_iff. apply inject_Z_nonpos. }
    split.
    + intros Hlt. rewrite applySortingAndFiltering_displayed.
      change (sort_insert (compareGames "title") Alpha [Beta] = [Alpha; Beta]).
      cbn [sort_insert].
      change (sortCompare (compareGames "title" Alpha Beta))
        with (inject_Z (localeCompare "Alpha" "Beta")).
      now rewrite (proj2 (Hq _)) by lia.
    + intros Hgt. split; rewrite applySortingAndFiltering_displayed.
      * change (sort_insert (compareGames "title") Beta [Alpha] = [Alpha; Beta]).
        cbn [sort_insert].
        change (sortCompare (compareGames "title" Beta Alpha))
          with (inject_Z (localeCompare "Beta" "Alpha")).
        destruct (Qle_bool (inject_Z (localeCompare "Beta" "Alpha")) 0) eqn:E;
          [apply Hq in E; lia | reflexivity].
      * change (sort_insert (compareGames "title-desc") Alpha [Beta] = [Beta; Alpha]).
        cbn [sort_insert].
        change (sortCompare (compareGames "title-desc" Alpha Beta))
          with (inject_Z (localeCompare "Beta" "Alpha")).
        destruct (Qle_bool (inject_Z (localeCompare "Beta" "Alpha")) 0) eqn:E;
          [apply Hq in E; lia | reflexivity].
Qed.

End SortKeys.

(** The key "title" on the library [Beta, Alpha] under code-unit
    collation. *)
Lemma sort_by_title_witness :
  In ("title"%string, title, Table.Ascending) Table.text_rows /\
  @Table.collation_consistent codeUnitLocale
    (map title (filtered_subset (page_with [Beta; Alpha] "title"))) /\
  0 < codeUnitCompare "Beta" "Alpha" /\
  StronglySorted (@Table.by_text codeUnitLocale title Table.Ascending)
    (displayed (games_list (@applySortingAndFiltering codeUnitLocale
                              (page_with [Beta; Alpha] "title")))) /\
  displayed (games_list (@applySortingAndFiltering codeUnitLocale
                           (page_with [Beta; Alpha] "title")))
  = [Alpha; Beta].
Proof.
  assert (In ("title"%string, title, Table.Ascending) Table.text_rows) as Hrow
    by (left; reflexivity).
  assert (@Table.collation_consistent codeUnitLocale
            (map title (filtered_subset (page_with [Beta; Alpha] "title")))) as Hc.
  { split.
    - intros s t [<-|[<-|[]]] [<-|[<-|[]]]; reflexivity.
    - intros s t u [<-|[<-|[]]] [<-|[<-|[]]] [<-|[<-|[]]]; vm_compute; congruence. }
  split; [exact Hrow|]. split; [exact Hc|]. split; [reflexivity|].
  destruct (@sort_follows_the_comparator_table codeUnitLocale)
    as (_ & Htext & _ & _ & _ & _ & _ & _ & Hscenario).
  split.
  - exact (proj1 (proj2 (Htext (page_with [Beta; Alpha] "title") _ _ _
                           Hrow eq_refl Hc))).
  - exact (proj1 (Hscenario eq_refl)).
Defined.

(** ** The derivation and the cache *)

Section Cache.
Context `{HostLocale}.

(** The derivation writes to the two arrays it creates, and to no other. *)
Lemma heap_after_frame st r :
  is_Some (heap st !! r) -> heap_after st !! r = heap st !! r.
Proof.
  intros Hr. unfold heap_after, Array_spread, Array_filter.
  destruct (Array_new (Array_read (allGames st) (heap st)) (heap st))
    as [r1 h1] eqn:E1.
  pose proof (Array_new_frame (Array_read (allGames st) (heap st)) (heap st) r Hr) as F1.
  rewrite E1 in F1; simpl in F1.
  destruct (Array_new (List.filter (matchGame (currentFilters st)) (Array_read r1 h1)) h1)
    as [r2 h2] eqn:E2.
  assert (is_Some (h1 !! r)) as Hr1 by now rewrite F1.
  pose proof (Array_new_frame
                (List.filter (matchGame (currentFilters st)) (Array_read r1 h1)) h1 r Hr1) as F2.
  pose proof (Array_new_fresh
                (List.filter (matchGame (currentFilters st)) (Array_read r1 h1)) h1) as N2.
  rewrite E2 in F2, N2; simpl in F2, N2.
  unfold Array_sort. rewrite lookup_insert_ne; [now rewrite F2, F1|].
  intros ->. rewrite N2 in Hr1. now destruct Hr1.
Qed.

Lemma heap_after_unfold st :
  heap_after st =
  <[fresh (dom (<[fresh (dom (heap st)) := games st]> (heap st))) :=
      applySorting (currentSort st) (applyFiltering (currentFilters st) (games st))]>
    (<[fresh (dom (<[fresh (dom (heap st)) := games st]> (heap st))) :=
         applyFiltering (currentFilters st) (games st)]>
       (<[fresh (dom (heap st)) := games st]> (heap st))).
Proof.
  unfold heap_after, Array_spread, Array_filter, Array_new, Array_sort.
  cbn beta iota zeta. fold (games st).
  now rewrite !Array_read_insert.
Qed.

(** The cache reads the same after a derivation. *)
Lemma games_after st : Array_read (allGames st) (heap_after st) = games st.
Proof.
  destruct (heap st !! allGames st) as [l|] eqn:E.
  - unfold games, Array_read. rewrite heap_after_frame; [reflexivity|].
    rewrite E. now eexists.
  - assert (games st = []) as G by (unfold games, Array_read; now rewrite E).
    rewrite heap_after_unfold, G.
    change (applyFiltering (currentFilters st) []) with (@nil game).
    change (applySorting (currentSort st) []) with (@nil game).
    do 3 apply Array_read_insert_nil. exact G.
Qed.

Lemma applySortingAndFiltering_games st :
  games (applySortingAndFiltering st) = games st.
Proof. rewrite applySortingAndFiltering_eq. exact (games_after st). Qed.

Lemma applySortingAndFiltering_inputs st :
  currentFilters (applySortingAndFiltering st) = currentFilters st /\
  currentSort (applySortingAndFiltering st) = currentSort st /\
  allGames (applySortingAndFiltering st) = allGames st.
Proof. now rewrite applySortingAndFiltering_eq. Qed.

(** C3. The derivation is deterministic and idempotent: what it shows is
    fixed by the cache, the filters and the sort key, so two runs on equal
    inputs show the same ordered list; and it changes none of the three, so
    a second run, or any number of runs, shows what the first run showed. *)
Theorem derivation_is_deterministic_and_idempotent :
  (forall st1 st2,
      games st1 = games st2 ->
      currentFilters st1 = currentFilters st2 ->
      currentSort st1 = currentSort st2 ->
      games_list (applySortingAndFiltering st1) =
      games_list (applySortingAndFiltering st2)) /\
  (forall st,
      games_list (applySortingAndFiltering (applySortingAndFiltering st)) =
      games_list (applySortingAndFiltering st)) /\
  (forall st n,
      games_list (Nat.iter (S n) applySortingAndFiltering st) =
      games_list (applySortingAndFiltering st)).
Proof.
  assert (forall st1 st2,
      games st1 = games st2 ->
      currentFilters st1 = currentFilters st2 ->
      currentSort st1 = currentSort st2 ->
      games_list (applySortingAndFiltering st1) =
      games_list (applySortingAndFiltering st2)) as Hdet.
  { intros st1 st2 Hg Hf Hs.
    rewrite !applySortingAndFiltering_view. now rewrite Hg, Hf, Hs. }
  assert (forall st n,
      games (Nat.iter n applySortingAndFiltering st) = games st /\
      currentFilters (Nat.iter n applySortingAndFiltering st) = currentFilters st /\
      currentSort (Nat.iter n applySortingAndFiltering st) = currentSort st) as Hinv.
  { intros st n. induction n as [|n (Hg & Hf & Hs)]; [easy|].
    rewrite Nat.iter_succ.
    pose proof (applySortingAndFiltering_inputs (Nat.iter n applySortingAndFiltering st))
      as (Ef & Es & _).
    rewrite applySortingAndFiltering_games, Ef, Es. easy. }
  split; [exact Hdet|]. split.
  - intros st. apply Hdet.
    + apply applySortingAndFiltering_games.
    + apply applySortingAndFiltering_inputs.
    + apply applySortingAndFiltering_inputs.
  - intros st n. rewrite Nat.iter_succ.
    apply Hdet; apply Hinv.
Qed.

(** C9. What the derivation shows comes from the cache: every game on
    display is a game of [allGames], the display holds no more games than
    the cache, and it holds each game at most as often as the cache does. *)
Theorem displayed_games_come_from_the_cache :
  forall st,
    (forall g, In g (displayed (games_list (applySortingAndFiltering st))) ->
               In g (games st)) /\
    (length (displayed (games_list (applySortingAndFiltering st)))
     <= length (games st))%nat /\
    displayed (games_list (applySortingAndFiltering st)) ⊆+ games st.
Proof.
  intros st. rewrite applySortingAndFiltering_displayed.
  assert (applySorting (currentSort st)
            (applyFiltering (currentFilters st) (games st)) ⊆+ games st) as Hsub.
  { unfold applySorting. rewrite sorted_by_perm.
    apply sublist_submseteq, filter_sublist. }
  split; [|split; [now apply submseteq_length | exact Hsub]].
  intros g Hg. apply list_elem_of_In. apply list_elem_of_In in Hg.
  eapply elem_of_submseteq; eauto.
Qed.

(** C10. The derivation does not touch the cache: [allGames] refers to the
    same array, the array holds the same games in the same order, and
    every array that existed before the call is as it was -- the sort
    reorders the filtered copy only. *)
Theorem derivation_leaves_the_cache_as_it_was :
  forall st,
    allGames (applySortingAndFiltering st) = allGames st /\
    games (applySortingAndFiltering st) = games st /\
    (forall r, is_Some (heap st !! r) ->
               heap (applySortingAndFiltering st) !! r = heap st !! r).
Proof.
  intros st. split; [apply applySortingAndFiltering_inputs|].
  split; [apply applySortingAndFiltering_games|].
  intros r Hr. rewrite applySortingAndFiltering_eq. now apply heap_after_frame.
Qed.

End Cache.

(** ** The filter *)

Section Filter.
Context `{HostLocale}.

Lemma matchSearch_spec typed sv pv g :
  matchSearch {| f_search := JsString.toLowerCase typed;
                 f_status := sv; f_platform := pv |} g = true <->
  search_matches typed g.
Proof.
  unfold matchSearch, search_matches, occurs_ci; simpl.
  rewrite !orb_true_iff, bool_decide_eq_true, !includes_spec,
    toLowerCase_empty, existsb_exists.
  setoid_rewrite includes_spec. tauto.
Qed.

Lemma matchGame_spec typed sv pv g :
  matchGame {| f_search := JsString.toLowerCase typed;
               f_status := sv; f_platform := pv |} g = true <->
  search_matches typed g /\
  (sv = ""%string \/ status g = Some sv) /\
  (pv = ""%string \/ platform g = Some pv).
Proof.
  unfold matchGame. rewrite !andb_true_iff, matchSearch_spec.
  unfold matchStatus, matchPlatform; simpl.
  rewrite !orb_true_iff, !bool_decide_eq_true. tauto.
Qed.

(** C1. The filter of [applySortingAndFiltering] keeps a game exactly when
    the typed search text is empty or occurs, case ignored, in the title,
    the notes or a tag, and the status filter is empty or equal to the
    game's status, and the platform filter is empty or equal to the game's
    platform: on the list the filter step returns, and on the games shown
    after [filterGames].  The same holds of every filter state whose search
    text is in lower case, which is how [filterGames] stores it.  With the
    search "alp" and no other filter the library [Alpha, Beta] shows exactly
    [Alpha], whatever the sort key. *)
Theorem filter_keeps_exactly_the_matching_games :
  (forall (l : list game) (typed sv pv : string) (g : game),
      In g (applyFiltering {| f_search := JsString.toLowerCase typed;
                              f_status := sv; f_platform := pv |} l) <->
      In g l /\ search_matches typed g /\
      (sv = ""%string \/ status g = Some sv) /\
      (pv = ""%string \/ platform g = Some pv)) /\
  (forall (st : state) (typed sv pv : string) (g : game),
      In g (displayed (games_list (filterGames typed sv pv st))) <->
      In g (games st) /\ search_matches typed g /\
      (sv = ""%string \/ status g = Some sv) /\
      (pv = ""%string \/ platform g = Some pv)) /\
  (forall (f : filters) (l : list game) (g : game),
      JsString.toLowerCase (f_search f) = f_search f ->
      In g (applyFiltering f l) <->
      In g l /\ search_matches (f_search f) g /\
      (f_status f = ""%string \/ status g = Some (f_status f)) /\
      (f_platform f = ""%string \/ platform g = Some (f_platform f))) /\
  (forall (st : state) (typed sv pv : string),
      JsString.toLowerCase (f_search (currentFilters (filterGames typed sv pv st)))
      = f_search (currentFilters (filterGames typed sv pv st))) /\
  (forall sortKey : string,
      displayed (games_list (filterGames "alp" "" "" (page_with [Alpha; Beta] sortKey)))
      = [Alpha]).
Proof.
  assert (forall l typed sv pv g,
      In g (applyFiltering {| f_search := JsString.toLowerCase typed;
                              f_status := sv; f_platform := pv |} l) <->
      In g l /\ search_matches typed g /\
      (sv = ""%string \/ status g = Some sv) /\
      (pv = ""%string \/ platform g = Some pv)) as Hlist.
  { intros l typed sv pv g. unfold applyFiltering.
    now rewrite filter_In, matchGame_spec. }
  split; [exact Hlist|]. split; [|split; [|split]].
  - intros st typed sv pv g. unfold filterGames.
    rewrite applySortingAndFiltering_displayed. unfold applySorting.
    rewrite sorted_by_In. apply Hlist.
  - intros [sv pv typed] l g Hlow. cbn [f_search f_status f_platform] in *.
    pose proof (Hlist l typed sv pv g) as Hl. now rewrite Hlow in Hl.
  - intros st typed sv pv. unfold filterGames.
    destruct (applySortingAndFiltering_inputs
                (saveFilters
                   (set_currentFilters
                      {| f_search := JsString.toLowerCase typed;
                         f_status := sv; f_platform := pv |} st))) as (-> & _).
    apply toLowerCase_idem.
  - intros sortKey. unfold filterGames.
    rewrite applySortingAndFiltering_displayed. reflexivity.
Qed.

End Filter.

(** An in-place sort is seen through every reference to the array: sorting
    the cache itself would reorder it. *)
Lemma Array_sort_reorders_its_array :
  Array_read 1%positive
    (Array_sort (@compareGames codeUnitLocale "hours") 1%positive
       {[ 1%positive := [Alpha; Beta] ]})
  = [Beta; Alpha].
Proof. reflexivity. Qed.

(** ** Reading the games list *)

Section Fetch.
Context `{HostLocale}.

(** C4. A read of the games list that fails -- a rejected request or a
    status outside 200..299, whatever the body -- leaves [allGames] and every
    array as they were: the state after [fetchGames] is the state before with
    the failure notice in the games list and a line on the console. *)
Theorem failed_fetch_leaves_the_cache :
  forall (r : fetched (list game)) (st : state),
    failed_read r ->
    fetchGames r st =
      set_games_list LoadError (console_error "Failed to fetch games:" st) /\
    allGames (fetchGames r st) = allGames st /\
    heap (fetchGames r st) = heap st /\
    games (fetchGames r st) = games st /\
    games_list (fetchGames r st) = LoadError.
Proof.
  intros r st Hr.
  assert (fetchGames r st =
          set_games_list LoadError (console_error "Failed to fetch games:" st)) as E.
  { destruct r as [|res]; [reflexivity|].
    simpl in Hr. unfold fetchGames. now rewrite Hr. }
  rewrite E. easy.
Qed.

(** A body that does not parse fails the read too, also under a success
    status. *)
Lemma unparsable_body_leaves_the_cache code st :
  fetchGames (responds code None) st =
  set_games_list LoadError (console_error "Failed to fetch games:" st).
Proof. unfold fetchGames, responds; simpl. now destruct (r_ok _). Qed.

(** A successful read replaces the cache by the payload and shows its
    derivation. *)
Lemma successful_fetch_replaces_the_cache code payload st :
  r_ok (A := list game) {| r_status := code; r_json := Some payload |} = true ->
  games (fetchGames (responds code (Some payload)) st) = payload.
Proof.
  intros Hok. unfold fetchGames, responds. rewrite Hok. simpl.
  rewrite applySortingAndFiltering_games. unfold games; simpl.
  apply Array_read_insert.
Qed.

(** The earlier declarations of [fetchGames] took the body of any response:
    a status 500 with a list in its body replaced the cache. *)
Lemma fetchGames_legacy_takes_a_failed_response :
  games (fetchGames_legacy (responds 500 (Some [Alpha])) (page_with [Beta] "recent"))
  = [Alpha] /\
  games (fetchGames (responds 500 (Some [Alpha])) (page_with [Beta] "recent"))
  = [Beta].
Proof.
  split.
  - unfold fetchGames_legacy, responds; simpl.
    rewrite applySortingAndFiltering_games. reflexivity.
  - reflexivity.
Qed.

(** ** Session expiry *)

(** [deleteGame] on a 401: the flag is reverted, the indicator shows the
    guest mode, the user is told to log in again, and the cache is as it
    was. *)
Lemma deleteGame_session_expiry gameId body reloaded st :
  isLoggedIn st = true ->
  isLoggedIn (deleteGame gameId true (responds 401 body) reloaded st) = false /\
  auth_indicator (deleteGame gameId true (responds 401 body) reloaded st) = "View Only"%string /\
  alerts (deleteGame gameId true (responds 401 body) reloaded st) =
    "Your session has expired. Please enter the password again."%string :: alerts st /\
  games (deleteGame gameId true (responds 401 body) reloaded st) = games st /\
  games_list (deleteGame gameId true (responds 401 body) reloaded st) = games_list st.
Proof. intros Hin. unfold deleteGame. rewrite Hin. easy. Qed.

(** The save handler on a 401: the user is told to log in again and the
    page is reloaded; the cache is as it was. *)
Lemma saveGame_session_expiry title_value body reloaded st :
  isLoggedIn st = true ->
  JsString.trim title_value <> ""%string ->
  saveGame title_value (responds 401 body) reloaded st =
  reload (alert "Your session has expired. Please login again." st).
Proof.
  intros Hin Ht. unfold saveGame. rewrite Hin. simpl.
  now destruct (decide (JsString.trim title_value = ""%string)).
Qed.

(** C7, as the code has it on the favourite toggle: a 401 is a response
    that is not ok, and [toggleFavorite] does nothing with it.  The state is
    what it was: the flag stays set, the indicator stays in admin mode, no
    notice is shown.  (The cache is not changed either.) *)
Theorem toggleFavorite_ignores_session_expiry :
  forall (gameId : Z) (body : option bool) (st : state),
    toggleFavorite gameId (responds 401 body) st = st.
Proof. reflexivity. Qed.

(** The same on a page in admin mode. *)
Lemma toggleFavorite_session_expiry_example :
  isLoggedIn (toggleFavorite 1 (responds 401 None) (admin_page [Alpha])) = true /\
  auth_indicator (toggleFavorite 1 (responds 401 None) (admin_page [Alpha]))
    = "Admin Mode"%string /\
  alerts (toggleFavorite 1 (responds 401 None) (admin_page [Alpha])) = [] /\
  isLoggedIn (deleteGame 1 true (responds 401 None) Rejected (admin_page [Alpha])) = false.
Proof. easy. Qed.

End Fetch.

(** A status 500 carrying a list, on a page that shows [Beta]. *)
Lemma failed_fetch_witness :
  failed_read (responds 500 (Some [Alpha])) /\
  games (@fetchGames codeUnitLocale (responds 500 (Some [Alpha]))
           (page_with [Beta] "recent")) = [Beta].
Proof.
  split; [reflexivity|].
  apply (@failed_fetch_leaves_the_cache codeUnitLocale). reflexivity.
Defined.

(** ** The Top-10 draft *)

Section Top10Facts.
Import Top10.

Lemma renderTop10Selection_draft ed :
  top10Games (renderTop10Selection ed) = top10Games ed.
Proof. unfold renderTop10Selection. destruct (top10Games ed) eqn:E; exact E. Qed.


Lemma renderTop10Selection_ranks ed :
  ranks (top10_selection (renderTop10Selection ed)) = ranked (top10Games ed).
Proof. unfold renderTop10Selection. destruct (top10Games ed) eqn:E; reflexivity. Qed.









End Top10Facts.


Section Top10Ranks.
Import Top10.

(** Numbering by [index + 1] gives the ranks 1..n. *)
Lemma imap_ranks {A B} (f : Z -> A -> B) (rank : B -> Z) (l : list A) :
  (forall i x, rank (f i x) = i) ->
  map rank (imap (fun index x => f (Z.of_nat index + 1) x) l) = dense_ranks (length l).
Proof.
  intros Hrank. unfold dense_ranks. apply list_eq. intros i.
  change (map rank ?k) with (rank <$> k).
  rewrite list_lookup_fmap, list_lookup_imap.
  destruct (l !! i) as [x|] eqn:E; simpl.
  - rewrite Hrank. symmetry. rewrite lookup_seqZ_lt.
    + f_equal. lia.
    + apply lookup_lt_Some in E. lia.
  - symmetry. apply lookup_seqZ_ge. apply lookup_ge_None in E. lia.
Qed.

Lemma ranked_ranks l : map fst (ranked l) = dense_ranks (length l).
Proof. unfold ranked. now apply (imap_ranks (fun i x => (i, x)) fst). Qed.

Lemma ranked_entries l : map snd (ranked l) = l.
Proof.
  unfold ranked. change (map snd ?k) with (snd <$> k).
  rewrite fmap_imap. apply list_eq. intros i.
  rewrite list_lookup_imap. now destruct (l !! i).
Qed.

Lemma gamesToSave_positions l :
  map position (gamesToSave l) = dense_ranks (length l).
Proof.
  unfold gamesToSave.
  now apply (imap_ranks
    (fun i e => {| s_game_id := game_id e; position := i;
                   s_why_i_love_it := default ""%string (why_i_love_it e) |})
    position).
Qed.

Lemma gamesToSave_lookup l i :
  gamesToSave l !! i = posted i <$> l !! i.
Proof. unfold gamesToSave. now rewrite list_lookup_imap. Qed.

(** C6. Removing an entry keeps the others in their order, and the ranks
    the editor prints for them are 1, 2, ..., N with no gap.  Saving posts
    one item per entry of the draft to [/api/top10], in the draft's order,
    the item at index [i] with position [i + 1], the entry's game and its
    annotation: the whole list, whatever was saved before. *)
Theorem removal_compacts_ranks_and_save_posts_the_whole_list :
  (forall ed gameId,
      top10Games (removeFromTop10 gameId ed) =
        List.filter (fun game => negb (bool_decide (game_id game = gameId)))
                    (top10Games ed) /\
      map fst (ranks (top10_selection (removeFromTop10 gameId ed))) =
        dense_ranks (length (top10Games (removeFromTop10 gameId ed))) /\
      map snd (ranks (top10_selection (removeFromTop10 gameId ed))) =
        top10Games (removeFromTop10 gameId ed) /\
      map position (body (saveTop10_request (removeFromTop10 gameId ed))) =
        dense_ranks (length (top10Games (removeFromTop10 gameId ed)))) /\
  (forall ed,
      method (saveTop10_request ed) = "POST"%string /\
      url (saveTop10_request ed) = "/api/top10"%string /\
      length (body (saveTop10_request ed)) = length (top10Games ed) /\
      map position (body (saveTop10_request ed)) =
        dense_ranks (length (top10Games ed)) /\
      (forall i e,
          top10Games ed !! i = Some e ->
          body (saveTop10_request ed) !! i = Some (posted i e))).
Proof.
  split.
  - intros ed gameId.
    assert (top10Games (removeFromTop10 gameId ed) =
            List.filter (fun game => negb (bool_decide (game_id game = gameId)))
                        (top10Games ed)) as E.
    { unfold removeFromTop10. now rewrite renderTop10Selection_draft. }
    split; [exact E|].
    assert (ranks (top10_selection (removeFromTop10 gameId ed)) =
            ranked (top10Games (removeFromTop10 gameId ed))) as R.
    { unfold removeFromTop10 at 1.
      rewrite renderTop10Selection_ranks. cbn [top10Games set_top10Games].
      now rewrite E. }
    rewrite R. split; [apply ranked_ranks|]. split; [apply ranked_entries|].
    apply gamesToSave_positions.
  - intros ed. split; [reflexivity|]. split; [reflexivity|].
    split; [apply length_imap|]. split; [apply gamesToSave_positions|].
    intros i e Hi. cbn [body saveTop10_request].
    now rewrite gamesToSave_lookup, Hi.
Qed.

End Top10Ranks.

(** Three entries, the middle one removed, then saved: ranks and positions
    1 and 2. *)
Lemma top10_removal_witness :
  Top10.top10Games (Top10.set_top10Games three_entries Top10.initial) !! 2%nat
    = Some (stored_entry 9 "Outer Wilds" "loop") /\
  Top10.body (Top10.saveTop10_request (Top10.set_top10Games three_entries Top10.initial))
    !! 2%nat = Some (posted 2 (stored_entry 9 "Outer Wilds" "loop")) /\
  map fst (ranks (Top10.top10_selection
                    (Top10.removeFromTop10 8
                       (Top10.set_top10Games three_entries Top10.initial))))
    = [1; 2].
Proof.
  split; [reflexivity|]. split.
  - apply (proj2 removal_compacts_ranks_and_save_posts_the_whole_list
             (Top10.set_top10Games three_entries Top10.initial)).
    reflexivity.
  - etransitivity.
    + apply (proj1 removal_compacts_ranks_and_save_posts_the_whole_list
               (Top10.set_top10Games three_entries Top10.initial) 8).
    + reflexivity.
Defined.

(** ** The Top-10 search box *)

Section SearchBox.
Import Top10Search.

(** The first listener searches at the time of the input, whatever is
    pending. *)
Lemma onInput_searches_at_once now value b :
  searchable value ->
  searches (onInput now value b) = (now, search_term value) :: searches b.
Proof.
  unfold searchable, search_term. intros Hlen.
  unfold onInput, onInput_debounced, onInput_search.
  rewrite Hlen. cbn [searches setSearchTimeout].
  now destruct (searchTimeout (searchAvailableGames now _ b)).
Qed.

Lemma clearTimeout_searches i b : searches (clearTimeout i b) = searches b.
Proof. now destruct i. Qed.

Lemma onInput_debounced_searches now value b :
  searches (onInput_debounced now value b) = searches b.
Proof.
  unfold onInput_debounced.
  destruct (JsString.length _ <? 2); cbn [searches showHint setSearchTimeout];
    apply clearTimeout_searches.
Qed.

Lemma onInput_keeps e now value b :
  In e (searches b) -> In e (searches (onInput now value b)).
Proof.
  intros He. unfold onInput. rewrite onInput_debounced_searches.
  unfold onInput_search. destruct (JsString.length _ <? 2); [exact He|].
  now right.
Qed.

Lemma runTimers_keeps e now b :
  In e (searches b) -> In e (searches (runTimers now b)).
Proof. intros He. cbn [searches runTimers]. apply in_or_app. now right. Qed.

Lemma session_keeps e events b :
  In e (searches b) -> In e (searches (session events b)).
Proof.
  revert b. induction events as [|[now value] events IH]; intros b He.
  - cbn [session searches runAllTimers]. apply in_or_app. now right.
  - cbn [session]. now apply IH, onInput_keeps, runTimers_keeps.
Qed.

(** Every input that is long enough is searched for at its own time. *)
Lemma session_searches_at_once events b now value :
  In (now, value) events -> searchable value ->
  In (now, search_term value) (searches (session events b)).
Proof.
  revert b. induction events as [|[t v] events IH]; intros b Hin Hs; [easy|].
  cbn [session]. destruct Hin as [[= -> ->]|Hin].
  - apply session_keeps. rewrite onInput_searches_at_once by exact Hs. now left.
  - now apply IH.
Qed.

(** C8, as the code has it.  In any session every input of two characters
    or more is searched for at the time of the input, with no wait.  One
    input "ze" at time 0 runs the search at time 0 and again at time 300.  A
    burst "z", "ze", "zel" at times 0, 100, 200 runs the search at 100 and
    at 200, in the middle of the burst, and once more at 500.  The second
    listener alone runs it once, at 500. *)
Theorem top10_search_runs_before_the_quiet_period :
  (forall events now value,
      In (now, value) events -> searchable value ->
      In (now, search_term value) (searches_of events)) /\
  searches_of [(0, "ze")] = [(0, "ze"); (300, "ze")] /\
  searches_of [(0, "z"); (100, "ze"); (200, "zel")] =
    [(100, "ze"); (200, "zel"); (500, "zel")] /\
  rev (searches (session_debounced [(0, "z"); (100, "ze"); (200, "zel")] initial)) =
    [(500, "zel")].
Proof.
  split; [|repeat split].
  intros events now value Hin Hs. unfold searches_of.
  apply in_rev. rewrite rev_involutive. now apply session_searches_at_once.
Qed.

(** *** The second listener alone *)

Lemma after_quiet_later past extra t term :
  after_quiet past t term ->
  (forall e, In e extra -> t <= fst e) ->
  after_quiet (past ++ extra) t term.
Proof.
  intros [[value [Hin Hterm]] Hquiet] Hlater. split.
  - exists value. split; [apply in_or_app; now left | exact Hterm].
  - intros t' v Hin'. apply in_app_or in Hin'. destruct Hin' as [Hp|He].
    + now apply Hquiet with v.
    + apply Hlater in He. simpl in He. lia.
Qed.

Lemma pending_after_quiet past t value :
  In (t, value) past -> (forall e, In e past -> fst e <= t) ->
  after_quiet past (t + 300) (search_term value).
Proof.
  intros Hin Hmax. split.
  - exists value. split; [|reflexivity].
    now replace (t + 300 - 300) with t by lia.
  - intros t' v Hin'. apply Hmax in Hin'. simpl in Hin'. lia.
Qed.

(** An input clears whatever is pending. *)
Lemma input_clears_pending past now b :
  pending_ok past b ->
  timers (clearTimeout (searchTimeout (runTimers now b)) (runTimers now b)) = [].
Proof.
  intros [Hnone|(i & t & value & Ht & Hid & _)].
  - cbn [searchTimeout runTimers].
    destruct (searchTimeout b); cbn [clearTimeout timers runTimers];
      now rewrite Hnone.
  - cbn [searchTimeout runTimers]. rewrite Hid.
    cbn [clearTimeout timers runTimers]. rewrite Ht. cbn [List.filter fst snd].
    destruct (t + 300 <=? now); cbn [negb List.filter fst]; [reflexivity|].
    now rewrite Nat.eqb_refl.
Qed.

Lemma onInput_debounced_pending past now value b :
  pending_ok past b ->
  (forall e, In e past -> fst e <= now) ->
  pending_ok (past ++ [(now, value)]) (onInput_debounced now value (runTimers now b)).
Proof.
  intros Hp Hmax. pose proof (input_clears_pending past now b Hp) as Hclear.
  unfold onInput_debounced.
  destruct (JsString.length _ <? 2) eqn:Hlen.
  - left. exact Hclear.
  - right. eexists _, now, value.
    cbn [timers searchTimeout setSearchTimeout]. rewrite Hclear.
    split; [reflexivity|]. split; [reflexivity|].
    split; [apply in_or_app; right; now left|].
    intros e He. apply in_app_or in He. destruct He as [He|[<-|[]]].
    + now apply Hmax.
    + simpl. lia.
Qed.

Lemma runTimers_logged past now value future b :
  pending_ok past b ->
  logged_ok past ((now, value) :: future) b ->
  (forall e, In e future -> now <= fst e) ->
  logged_ok (past ++ [(now, value)]) future (runTimers now b).
Proof.
  intros Hp Hl Hsorted t term Hin.
  cbn [searches runTimers] in Hin. apply in_app_or in Hin.
  destruct Hin as [Hdue|Hold].
  - destruct Hp as [Hnone|(i & t0 & v0 & Ht & _ & Hin0 & Hmax)].
    + rewrite Hnone in Hdue. destruct Hdue.
    + rewrite Ht in Hdue. cbn [List.filter fst snd] in Hdue.
      destruct (t0 + 300 <=? now) eqn:E; [|destruct Hdue].
      apply Z.leb_le in E.
      destruct Hdue as [[= <- <-]|[]].
      split.
      * apply after_quiet_later; [now apply pending_after_quiet|].
        intros e [<-|[]]. simpl. lia.
      * intros e He. apply Hsorted in He. lia.
  - destruct (Hl t term Hold) as [Hq Hlater]. split.
    + apply after_quiet_later; [exact Hq|].
      intros e [<-|[]]. apply Hlater. now left.
    + intros e He. apply Hlater. now right.
Qed.

Lemma session_debounced_quiet future :
  times_ascend future ->
  forall past b,
    pending_ok past b ->
    logged_ok past future b ->
    (forall p e, In p past -> In e future -> fst p <= fst e) ->
    forall t term,
      In (t, term) (searches (session_debounced future b)) ->
      after_quiet (past ++ future) t term.
Proof.
  induction 1 as [|[now value] future Hs IH Hnow];
    intros past b Hp Hl Hpf t term Hin.
  - rewrite app_nil_r. cbn [session_debounced searches runAllTimers] in Hin.
    apply in_app_or in Hin. destruct Hin as [Hdue|Hold]; [|now apply Hl].
    destruct Hp as [Hnone|(i & t0 & v0 & Ht & _ & Hin0 & Hmax)].
    + rewrite Hnone in Hdue. destruct Hdue.
    + rewrite Ht in Hdue. destruct Hdue as [[= <- <-]|[]].
      now apply pending_after_quiet.
  - rewrite Forall_forall in Hnow.
    assert (forall e, In e future -> now <= fst e) as Hsorted.
    { intros e He. now apply (Hnow e), list_elem_of_In. }
    assert (forall e, In e past -> fst e <= now) as Hmax.
    { intros e He. apply (Hpf e (now, value) He). now left. }
    cbn [session_debounced] in Hin.
    replace (past ++ (now, value) :: future)
      with ((past ++ [(now, value)]) ++ future) by now rewrite <- app_assoc.
    apply (IH (past ++ [(now, value)])
              (onInput_debounced now value (runTimers now b))); [| | |exact Hin].
    + now apply onInput_debounced_pending.
    + intros t1 term1 H1. rewrite onInput_debounced_searches in H1.
      now apply (runTimers_logged past now value future b).
    + intros p e Hin' He. apply in_app_or in Hin'.
      destruct Hin' as [Hin'|[<-|[]]].
      * apply (Hpf p e Hin'). now right.
      * now apply Hsorted.
Qed.

(** With the second listener alone, every search of a session comes after
    a quiet period of 300 ms. *)
Lemma debounced_listener_waits events t term :
  times_ascend events ->
  In (t, term) (searches (session_debounced events initial)) ->
  after_quiet events t term.
Proof.
  intros Hs Hin.
  apply (session_debounced_quiet events Hs [] initial); try easy.
  now left.
Qed.

End SearchBox.

(** ** The properties on the scenario library *)

(** Two pages that differ in their login flag and agree on cache, filters
    and sort key show the same list. *)
Lemma derivation_witness :
  games (admin_page [Alpha; Beta]) = games (page_with [Alpha; Beta] "recent") /\
  games_list (@applySortingAndFiltering codeUnitLocale (admin_page [Alpha; Beta])) =
  games_list (@applySortingAndFiltering codeUnitLocale (page_with [Alpha; Beta] "recent")).
Proof.
  split; [reflexivity|].
  apply (proj1 (@derivation_is_deterministic_and_idempotent codeUnitLocale));
    reflexivity.
Defined.

(** [Beta], shown first under the key "hours", is a game of the cache. *)
Lemma displayed_witness :
  In Beta (displayed (games_list (@applySortingAndFiltering codeUnitLocale
                                    (page_with [Alpha; Beta] "hours")))) /\
  In Beta (games (page_with [Alpha; Beta] "hours")).
Proof.
  assert (In Beta (displayed (games_list (@applySortingAndFiltering codeUnitLocale
                                            (page_with [Alpha; Beta] "hours"))))) as Hshown.
  { rewrite applySortingAndFiltering_displayed. left. reflexivity. }
  split; [exact Hshown|].
  exact (proj1 (@displayed_games_come_from_the_cache codeUnitLocale
                  (page_with [Alpha; Beta] "hours")) Beta Hshown).
Defined.

(** The array of the cache after a derivation under the key "hours". *)
Lemma cache_untouched_witness :
  heap (page_with [Alpha; Beta] "hours") !! 1%positive = Some [Alpha; Beta] /\
  heap (@applySortingAndFiltering codeUnitLocale (page_with [Alpha; Beta] "hours"))
    !! 1%positive = Some [Alpha; Beta].
Proof.
  split; [reflexivity|].
  etransitivity.
  - apply (@derivation_leaves_the_cache_as_it_was codeUnitLocale
             (page_with [Alpha; Beta] "hours")).
    now eexists.
  - reflexivity.
Defined.

(** The input "ze" of a burst is searched for at its own time, 100. *)
Lemma top10_search_witness :
  In (100, "ze"%string) [(0, "z"%string); (100, "ze"%string); (200, "zel"%string)] /\
  searchable "ze" /\
  In (100, "ze"%string)
     (Top10Search.searches_of [(0, "z"%string); (100, "ze"%string); (200, "zel"%string)]).
Proof.
  assert (In (100, "ze"%string)
             [(0, "z"%string); (100, "ze"%string); (200, "zel"%string)]) as Hin
    by (right; left; reflexivity).
  split; [exact Hin|]. split; [reflexivity|].
  exact (proj1 top10_search_runs_before_the_quiet_period _ 100 "ze"%string Hin eq_refl).
Defined.

(** The search "alp", stored in lower case, against [Alpha]. *)
Lemma filter_witness :
  JsString.toLowerCase "alp" = "alp"%string /\
  (In Alpha (@applyFiltering
               {| f_status := ""; f_platform := ""; f_search := "alp" |}
               [Alpha; Beta]) <->
   In Alpha [Alpha; Beta] /\ search_matches "alp" Alpha /\
   (""%string = ""%string \/ status Alpha = Some ""%string) /\
   (""%string = ""%string \/ platform Alpha = Some ""%string)).
Proof.
  split; [reflexivity|].
  apply (proj1 (proj2 (proj2 (@filter_keeps_exactly_the_matching_games codeUnitLocale)))
           {| f_status := ""; f_platform := ""; f_search := "alp" |}).
  reflexivity.
Defined.

(** * Further properties of the client *)

(** ** Saved filters and the saved sort key *)

Section SavedState.
Context `{HostLocale}.

Lemma applySortingAndFiltering_frame st :
  localStorage (applySortingAndFiltering st) = localStorage st /\
  isLoggedIn (applySortingAndFiltering st) = isLoggedIn st /\
  auth_indicator (applySortingAndFiltering st) = auth_indicator st /\
  alerts (applySortingAndFiltering st) = alerts st.
Proof. now rewrite applySortingAndFiltering_eq. Qed.

Lemma filterGames_filters typed sv pv st :
  currentFilters (filterGames typed sv pv st) =
  {| f_status := sv; f_platform := pv; f_search := JsString.toLowerCase typed |}.
Proof.
  unfold filterGames.
  now destruct (applySortingAndFiltering_inputs
                  (saveFilters
                     (set_currentFilters
                        {| f_search := JsString.toLowerCase typed;
                           f_status := sv; f_platform := pv |} st))) as (-> & _).
Qed.

Lemma filterGames_storage typed sv pv st :
  localStorage (filterGames typed sv pv st) =
  <["gameTracker_filter_search"%string := JsString.toLowerCase typed]>
    (<["gameTracker_filter_platform"%string := pv]>
       (<["gameTracker_filter_status"%string := sv]> (localStorage st))).
Proof.
  unfold filterGames.
  now destruct (applySortingAndFiltering_frame
                  (saveFilters
                     (set_currentFilters
                        {| f_search := JsString.toLowerCase typed;
                           f_status := sv; f_platform := pv |} st))) as (-> & _).
Qed.

Lemma stored_ext key st st' :
  localStorage st = localStorage st' -> stored key st = stored key st'.
Proof. unfold stored. now intros ->. Qed.

Lemma restoreStatus_spec cs :
  localStorage (restoreStatus cs).2 = localStorage cs.2 /\
  currentFilters (restoreStatus cs).2 =
    {| f_status := default (f_status (currentFilters cs.2))
                           (stored "gameTracker_filter_status" cs.2);
       f_platform := f_platform (currentFilters cs.2);
       f_search := f_search (currentFilters cs.2) |} /\
  (restoreStatus cs).1 =
    {| status_select := default (status_select cs.1)
                                (stored "gameTracker_filter_status" cs.2);
       platform_select := platform_select cs.1;
       search_box := search_box cs.1 |}.
Proof.
  unfold restoreStatus. destruct cs as [c st]; cbn [fst snd].
  destruct (stored "gameTracker_filter_status" st); cbn [fst snd default];
    [easy|]. now destruct (currentFilters st), c.
Qed.

Lemma restorePlatform_spec cs :
  localStorage (restorePlatform cs).2 = localStorage cs.2 /\
  currentFilters (restorePlatform cs).2 =
    {| f_status := f_status (currentFilters cs.2);
       f_platform := default (f_platform (currentFilters cs.2))
                             (stored "gameTracker_filter_platform" cs.2);
       f_search := f_search (currentFilters cs.2) |} /\
  (restorePlatform cs).1 =
    {| status_select := status_select cs.1;
       platform_select := default (platform_select cs.1)
                                  (stored "gameTracker_filter_platform" cs.2);
       search_box := search_box cs.1 |}.
Proof.
  unfold restorePlatform. destruct cs as [c st]; cbn [fst snd].
  destruct (stored "gameTracker_filter_platform" st); cbn [fst snd default];
    [easy|]. now destruct (currentFilters st), c.
Qed.

Lemma restoreSearch_spec cs :
  localStorage (restoreSearch cs).2 = localStorage cs.2 /\
  currentFilters (restoreSearch cs).2 =
    {| f_status := f_status (currentFilters cs.2);
       f_platform := f_platform (currentFilters cs.2);
       f_search := default (f_search (currentFilters cs.2))
                           (stored "gameTracker_filter_search" cs.2) |} /\
  (restoreSearch cs).1 =
    {| status_select := status_select cs.1;
       platform_select := platform_select cs.1;
       search_box := default (search_box cs.1)
                             (stored "gameTracker_filter_search" cs.2) |}.
Proof.
  unfold restoreSearch. destruct cs as [c st]; cbn [fst snd].
  destruct (stored "gameTracker_filter_search" st); cbn [fst snd default];
    [easy|]. now destruct (currentFilters st), c.
Qed.

(** What [loadSavedFilters] leaves: each filter and its control take the
    stored value when there is one, and stay as they are otherwise. *)
Lemma loadSavedFilters_spec c st :
  currentFilters (loadSavedFilters c st).2 =
    {| f_status := default (f_status (currentFilters st))
                           (stored "gameTracker_filter_status" st);
       f_platform := default (f_platform (currentFilters st))
                             (stored "gameTracker_filter_platform" st);
       f_search := default (f_search (currentFilters st))
                           (stored "gameTracker_filter_search" st) |} /\
  (loadSavedFilters c st).1 =
    {| status_select := default (status_select c)
                                (stored "gameTracker_filter_status" st);
       platform_select := default (platform_select c)
                                  (stored "gameTracker_filter_platform" st);
       search_box := default (search_box c)
                             (stored "gameTracker_filter_search" st) |}.
Proof.
  unfold loadSavedFilters.
  destruct (restoreStatus_spec (c, st)) as (L1 & F1 & C1).
  destruct (restorePlatform_spec (restoreStatus (c, st))) as (L2 & F2 & C2).
  destruct (restoreSearch_spec (restorePlatform (restoreStatus (c, st))))
    as (_ & F3 & C3).
  rewrite F3, C3, F2, C2, F1, C1. cbn [fst snd] in *.
  cbn [f_status f_platform f_search status_select platform_select search_box].
  rewrite (stored_ext "gameTracker_filter_search" _ st) by now rewrite L2, L1.
  now rewrite (stored_ext "gameTracker_filter_platform" _ st) by exact L1.
Qed.

Lemma stored_after_filterGames typed sv pv st1 st0 :
  localStorage st0 = localStorage (filterGames typed sv pv st1) ->
  default ""%string (stored "gameTracker_filter_status" st0) = sv /\
  default ""%string (stored "gameTracker_filter_platform" st0) = pv /\
  default ""%string (stored "gameTracker_filter_search" st0)
    = JsString.toLowerCase typed.
Proof.
  intros Hls. unfold stored. rewrite Hls, filterGames_storage.
  repeat split.
  - do 2 rewrite lookup_insert_ne by discriminate. rewrite lookup_insert_eq.
    now destruct (decide (sv = ""%string)).
  - rewrite lookup_insert_ne by discriminate. rewrite lookup_insert_eq.
    now destruct (decide (pv = ""%string)).
  - rewrite lookup_insert_eq.
    now destruct (decide (JsString.toLowerCase typed = ""%string)).
Qed.

(** X1. The filters come back on the next visit: on a page that has just
    loaded (no filter set, controls empty) and holds the storage an earlier
    [filterGames] left, [loadSavedFilters] restores the filters of that
    call, and a [filterGames] that reads the restored controls keeps
    them. *)
Theorem saved_filters_come_back :
  forall (typed sv pv : string) (st1 st0 : state),
    currentFilters st0 = no_filters ->
    localStorage st0 = localStorage (filterGames typed sv pv st1) ->
    currentFilters (loadSavedFilters empty_controls st0).2 =
      currentFilters (filterGames typed sv pv st1) /\
    currentFilters (filterGamesFrom (loadSavedFilters empty_controls st0).1
                                    (loadSavedFilters empty_controls st0).2) =
      currentFilters (filterGames typed sv pv st1).
Proof.
  intros typed sv pv st1 st0 Hnone Hls.
  destruct (stored_after_filterGames typed sv pv st1 st0 Hls) as (E1 & E2 & E3).
  split.
  - rewrite (proj1 (loadSavedFilters_spec _ _)), filterGames_filters, Hnone.
    cbn [f_status f_platform f_search no_filters]. now rewrite E1, E2, E3.
  - unfold filterGamesFrom. rewrite !filterGames_filters.
    rewrite (proj2 (loadSavedFilters_spec _ _)).
    cbn [status_select platform_select search_box empty_controls].
    now rewrite E1, E2, E3, toLowerCase_idem.
Qed.

(** X2. The sort key comes back on the next visit: after the change handler
    of [#sort-by] has run with a value, the initial [currentSort] of a page
    loaded with that storage sorts as the value does; it is the value
    itself unless the value is empty, which sorts as "recent" either way. *)
Theorem saved_sort_key_comes_back :
  forall (value : string) (st : state),
    (forall a b,
        compareGames (initialSort (localStorage (sortByChanged value st))) a b =
        compareGames value a b) /\
    (value = ""%string \/
     initialSort (localStorage (sortByChanged value st)) = value).
Proof.
  intros value st.
  assert (initialSort (localStorage (sortByChanged value st)) =
          if decide (value = ""%string) then "recent"%string else value) as E.
  { unfold sortByChanged.
    destruct (applySortingAndFiltering_frame
                (set_localStorage
                   (<["gameTracker_sort"%string := value]> (localStorage st))
                   (set_currentSort value st))) as (E & _).
    unfold initialSort. rewrite E. cbn [localStorage set_localStorage].
    now rewrite lookup_insert_eq. }
  rewrite E. destruct (decide (value = ""%string)) as [->|Hne].
  - split; [reflexivity | now left].
  - split; [reflexivity | now right].
Qed.

End SavedState.

(** The search "Zelda" with the status "Playing", stored and restored. *)
Lemma saved_filters_witness :
  currentFilters (page_with [] "recent") = no_filters /\
  currentFilters
    (loadSavedFilters empty_controls
       (set_localStorage
          (localStorage (@filterGames codeUnitLocale "Zelda" "Playing" ""
                           (admin_page [Alpha])))
          (page_with [] "recent"))).2
  = {| f_status := "Playing"; f_platform := ""; f_search := "zelda" |}.
Proof.
  split; [reflexivity|].
  etransitivity.
  - apply (@saved_filters_come_back codeUnitLocale "Zelda" "Playing" ""
             (admin_page [Alpha])); reflexivity.
  - apply (@filterGames_filters codeUnitLocale).
Defined.

(** ** Narrowing the search, and the order of filter and sort *)

Lemma append_assoc (a b c : string) : (a +:+ b) +:+ c = a +:+ (b +:+ c).
Proof.
  induction a as [|x a IH]; [reflexivity|].
  now rewrite !append_String, IH.
Qed.

Lemma append_empty_r (a : string) : a +:+ "" = a.
Proof. induction a as [|x a IH]; [reflexivity|]. now rewrite append_String, IH. Qed.

Lemma ascii_only_append a b :
  ascii_only (a +:+ b) = true -> ascii_only a = true /\ ascii_only b = true.
Proof.
  induction a as [|x a IH]; [easy|]. rewrite append_String. cbn [ascii_only].
  intros Hab. apply andb_prop in Hab as [Hx Hab]. rewrite Hx. now apply IH.
Qed.

(** Lower-casing goes through a concatenation of ASCII text. *)
Lemma toLowerCase_append_ascii a b :
  ascii_only (a +:+ b) = true ->
  JsString.toLowerCase (a +:+ b) = JsString.toLowerCase a +:+ JsString.toLowerCase b.
Proof.
  induction a as [|x a IH]; [reflexivity|].
  rewrite append_String. cbn [ascii_only JsString.toLowerCase].
  intros Hab. apply andb_prop in Hab as [_ Hab].
  now rewrite append_String, IH.
Qed.

Lemma occurs_in_trans a b c : occurs_in a b -> occurs_in b c -> occurs_in a c.
Proof.
  intros (p & s & ->) (p' & s' & ->).
  exists (p' +:+ p), (s +:+ s'). now rewrite !append_assoc.
Qed.

Lemma occurs_in_middle a b c : occurs_in b (a +:+ b +:+ c).
Proof. now exists a, c. Qed.

Lemma append_eq_empty (a b : string) :
  a +:+ b = ""%string -> a = ""%string /\ b = ""%string.
Proof. destruct a; [easy | discriminate]. Qed.

Lemma search_matches_narrower before typed after g :
  ascii_only (before +:+ typed +:+ after) = true ->
  search_matches (before +:+ typed +:+ after) g -> search_matches typed g.
Proof.
  intros Hascii.
  assert (forall t, occurs_ci (before +:+ typed +:+ after) t -> occurs_ci typed t) as Hci.
  { intros t. unfold occurs_ci.
    rewrite (toLowerCase_append_ascii before _ Hascii).
    rewrite (toLowerCase_append_ascii typed after
               (proj2 (ascii_only_append before _ Hascii))).
    apply occurs_in_trans, occurs_in_middle. }
  intros [Hempty|[Ht|[Hn|(t & Hin & Ht)]]].
  - left. apply append_eq_empty in Hempty as [_ Hempty].
    now apply append_eq_empty in Hempty.
  - right; left. now apply Hci.
  - right; right; left. now apply Hci.
  - right; right; right. exists t. split; [exact Hin | now apply Hci].
Qed.

Section Narrowing.
Context `{HostLocale}.

Lemma filterGames_displayed typed sv pv st g :
  In g (displayed (games_list (filterGames typed sv pv st))) <->
  In g (games st) /\
  matchGame {| f_search := JsString.toLowerCase typed;
               f_status := sv; f_platform := pv |} g = true.
Proof.
  unfold filterGames. rewrite applySortingAndFiltering_displayed.
  unfold applySorting, applyFiltering. now rewrite sorted_by_In, filter_In.
Qed.

(** X3. Typing more never brings a game back, for search text of the ASCII
    range: a game shown for such a text is shown for every part of it, the
    other filters being equal.  So each further ASCII character typed
    before or after the text can only take games away. *)
Theorem longer_search_shows_fewer_games :
  forall (before typed after sv pv : string) (st : state) (g : game),
    ascii_only (before +:+ typed +:+ after) = true ->
    In g (displayed (games_list
            (filterGames (before +:+ typed +:+ after) sv pv st))) ->
    In g (displayed (games_list (filterGames typed sv pv st))).
Proof.
  intros before typed after sv pv st g Hascii.
  rewrite !filterGames_displayed, !matchGame_spec.
  intros (Hg & Hs & Hrest). split; [exact Hg|].
  split; [|exact Hrest]. now apply search_matches_narrower with before after.
Qed.

End Narrowing.

(** The search "alpha" and its part "alp". *)
Lemma longer_search_witness :
  ascii_only ("" +:+ "alp" +:+ "ha") = true /\
  In Alpha (displayed (games_list
              (@filterGames codeUnitLocale ("" +:+ "alp" +:+ "ha") "" ""
                 (page_with [Alpha; Beta] "title")))) /\
  In Alpha (displayed (games_list
              (@filterGames codeUnitLocale "alp" "" ""
                 (page_with [Alpha; Beta] "title")))).
Proof.
  assert (In Alpha (displayed (games_list
              (@filterGames codeUnitLocale ("" +:+ "alp" +:+ "ha") "" ""
                 (page_with [Alpha; Beta] "title"))))) as Hlong.
  { apply (@filterGames_displayed codeUnitLocale). split; [now left | reflexivity]. }
  split; [reflexivity|]. split; [exact Hlong|].
  exact (@longer_search_shows_fewer_games codeUnitLocale "" "alp" "ha" "" ""
           (page_with [Alpha; Beta] "title") Alpha eq_refl Hlong).
Defined.

(** *** Filtering a sorted list *)

Section FilterSorted.
Variable cmp : game -> game -> option Q.
Variable keep : game -> bool.

Lemma sort_insert_first x l :
  (forall y, In y l -> precedes cmp x y) -> sort_insert cmp x l = x :: l.
Proof.
  intros Hall. destruct l as [|y l]; [reflexivity|].
  cbn [sort_insert].
  assert (Qle_bool (sortCompare (cmp x y)) 0 = true) as ->; [|reflexivity].
  apply Qle_bool_iff. apply Hall. now left.
Qed.

Lemma filter_sort_insert x l :
  consistent_on cmp (x :: l) ->
  StronglySorted (precedes cmp) l ->
  List.filter keep (sort_insert cmp x l) =
  if keep x then sort_insert cmp x (List.filter keep l) else List.filter keep l.
Proof.
  intros Hc Hs. induction Hs as [|y l Hl IH Hy].
  - cbn. now destruct (keep x).
  - assert (consistent_on cmp (x :: l)) as Hc'.
    { destruct Hc as [Htot Htrans]. split.
      - intros a b Ha Hb. apply Htot.
        + destruct Ha as [<-|Ha]; [now left | right; now right].
        + destruct Hb as [<-|Hb]; [now left | right; now right].
      - intros a b c Ha Hb Hc'. apply Htrans.
        + destruct Ha as [<-|Ha]; [now left | right; now right].
        + destruct Hb as [<-|Hb]; [now left | right; now right].
        + destruct Hc' as [<-|Hc']; [now left | right; now right]. }
    specialize (IH Hc'). cbn [sort_insert].
    destruct (Qle_bool (sortCompare (cmp x y)) 0) eqn:E.
    + apply Qle_bool_iff in E.
      change (List.filter keep (x :: y :: l))
        with (if keep x then x :: List.filter keep (y :: l)
              else List.filter keep (y :: l)).
      destruct (keep x) eqn:Kx; [|reflexivity].
      symmetry. apply sort_insert_first.
      intros z Hz. apply filter_In in Hz as [Hz _].
      destruct Hc as [_ Htrans]. destruct Hz as [<-|Hz]; [exact E|].
      apply Htrans with y; [now left | right; now left | right; now right | exact E |].
      rewrite Forall_forall in Hy. now apply Hy, list_elem_of_In.
    + cbn [List.filter]. rewrite IH.
      destruct (keep x) eqn:Kx, (keep y) eqn:Ky; try reflexivity.
      cbn [sort_insert]. now rewrite E.
Qed.

(** Filtering the sorted list gives the sorted filtered list. *)
Lemma filter_sorted_by l :
  consistent_on cmp l ->
  List.filter keep (sorted_by cmp l) = sorted_by cmp (List.filter keep l).
Proof.
  induction l as [|x l IH]; intros Hc; [reflexivity|].
  assert (consistent_on cmp l) as Hl by now apply consistent_on_tail with x.
  cbn [sorted_by foldr]. fold (sorted_by cmp l).
  rewrite filter_sort_insert.
  - rewrite (IH Hl). cbn [List.filter]. now destruct (keep x).
  - destruct Hc as [Htot Htrans].
    assert (forall a, In a (x :: sorted_by cmp l) -> In a (x :: l)) as Hin.
    { intros a [<-|Ha]; [now left|right]. now apply sorted_by_In in Ha. }
    split.
    + intros a b Ha Hb. apply Htot; now apply Hin.
    + intros a b c Ha Hb Hc'. apply Htrans; now apply Hin.
  - now apply sorted_by_sorted.
Qed.

End FilterSorted.

Lemma numeric_key_consistent (key : game -> Q) cmp l :
  (forall a b, cmp a b = Some (key b - key a)%Q) -> consistent_on cmp l.
Proof.
  intros Hcmp.
  assert (forall a b, precedes cmp a b <-> (key b <= key a)%Q) as Hp.
  { intros a b. unfold precedes. rewrite Hcmp. simpl. split; intros; lra. }
  split.
  - intros a b _ _. rewrite !Hp. lra.
  - intros a b c _ _ _. rewrite !Hp. lra.
Qed.

Section FilterAndSort.
Context `{HostLocale}.

(** X4. Where the comparator of the sort key orders the library
    consistently, the list shown is the whole library in sort order with the
    games that fail the filter left out: filtering before the sort, as the
    code does, and after it give the same list.  So a change of the filters
    never changes the order of the games that stay. *)
Theorem shown_list_is_the_sorted_library_filtered :
  forall st : state,
    consistent_on (compareGames (currentSort st)) (games st) ->
    displayed (games_list (applySortingAndFiltering st)) =
      applyFiltering (currentFilters st) (applySorting (currentSort st) (games st)) /\
    displayed (games_list (applySortingAndFiltering st))
      `sublist_of` applySorting (currentSort st) (games st).
Proof.
  intros st Hc.
  assert (displayed (games_list (applySortingAndFiltering st)) =
          applyFiltering (currentFilters st)
            (applySorting (currentSort st) (games st))) as E.
  { rewrite applySortingAndFiltering_displayed.
    unfold applySorting, applyFiltering. symmetry. now apply filter_sorted_by. }
  split; [exact E|]. rewrite E. apply filter_sublist.
Qed.

End FilterAndSort.

(** The library under the key "hours", with the search "alp". *)
Lemma shown_list_witness :
  consistent_on (@compareGames codeUnitLocale "hours") [Alpha; Beta] /\
  displayed (games_list
     (@applySortingAndFiltering codeUnitLocale
        (set_currentFilters
           {| f_status := ""; f_platform := ""; f_search := "alp" |}
           (page_with [Alpha; Beta] "hours"))))
  `sublist_of` [Beta; Alpha].
Proof.
  assert (consistent_on (@compareGames codeUnitLocale "hours") [Alpha; Beta]) as Hc
    by now apply (numeric_key_consistent (fun g => or0 (hours_played g))).
  split; [exact Hc|].
  exact (proj2 (@shown_list_is_the_sorted_library_filtered codeUnitLocale
                  (set_currentFilters
                     {| f_status := ""; f_platform := ""; f_search := "alp" |}
                     (page_with [Alpha; Beta] "hours")) Hc)).
Defined.

(** ** Reads and writes of the games tab *)

Section ReadsAndWrites.
Context `{HostLocale}.

Lemma games_of_new_cache payload st :
  games (applySortingAndFiltering
           (set_allGames (Array_new payload (heap st)).1
              (set_heap (Array_new payload (heap st)).2 st))) = payload.
Proof.
  rewrite applySortingAndFiltering_games. unfold games.
  cbn [allGames heap set_allGames set_heap]. apply Array_new_read.
Qed.

Lemma fetchGames_taken code payload st :
  r_ok (A := list game) {| r_status := code; r_json := Some payload |} = true ->
  fetchGames (responds code (Some payload)) st =
  applySortingAndFiltering
    (set_allGames (Array_new payload (heap st)).1
       (set_heap (Array_new payload (heap st)).2 st)).
Proof. intros Hok. unfold fetchGames, responds. now rewrite Hok. Qed.

(** X5. A read of the games list that succeeds -- a status in 200..299 and
    a body that parses -- makes the payload the cache and shows its
    derivation under the filters and the sort key in force, which it leaves
    as they are; the login flag is untouched, and so is every array that
    existed, the former cache among them. *)
Theorem successful_fetch_shows_the_payload :
  forall (code : Z) (payload : list game) (st : state),
    r_ok (A := list game) {| r_status := code; r_json := Some payload |} = true ->
    games (fetchGames (responds code (Some payload)) st) = payload /\
    displayed (games_list (fetchGames (responds code (Some payload)) st)) =
      applySorting (currentSort st) (applyFiltering (currentFilters st) payload) /\
    currentFilters (fetchGames (responds code (Some payload)) st) = currentFilters st /\
    currentSort (fetchGames (responds code (Some payload)) st) = currentSort st /\
    isLoggedIn (fetchGames (responds code (Some payload)) st) = isLoggedIn st /\
    (forall r, is_Some (heap st !! r) ->
               heap (fetchGames (responds code (Some payload)) st) !! r = heap st !! r).
Proof.
  intros code payload st Hok. rewrite (fetchGames_taken code payload st Hok).
  set (st1 := set_allGames _ _).
  assert (games st1 = payload) as G by apply Array_new_read.
  split; [apply games_of_new_cache|].
  split; [now rewrite applySortingAndFiltering_displayed, G|].
  destruct (applySortingAndFiltering_inputs st1) as (-> & -> & _).
  destruct (applySortingAndFiltering_frame st1) as (_ & -> & _).
  repeat split.
  intros r Hr. rewrite applySortingAndFiltering_eq.
  cbn [heap set_games_list set_heap].
  assert (heap st1 !! r = heap st !! r) as E1 by now apply Array_new_frame.
  rewrite heap_after_frame; [exact E1 | now rewrite E1].
Qed.

(** X6. The earlier declarations of [fetchGames] took the body of every
    response that parsed, whatever its status, as the new cache, and did
    nothing at all -- no notice, no change -- when there was none. *)
Theorem fetchGames_legacy_takes_any_body :
  forall (code : Z) (payload : list game) (st : state),
    games (fetchGames_legacy (responds code (Some payload)) st) = payload /\
    displayed (games_list (fetchGames_legacy (responds code (Some payload)) st)) =
      applySorting (currentSort st) (applyFiltering (currentFilters st) payload) /\
    fetchGames_legacy (responds code None) st = st /\
    fetchGames_legacy Rejected st = st.
Proof.
  intros code payload st. unfold fetchGames_legacy, responds.
  cbn [r_json].
  change (let '(a, h) := Array_new payload (heap st) in
          applySortingAndFiltering (set_allGames a (set_heap h st)))
    with (applySortingAndFiltering
            (set_allGames (Array_new payload (heap st)).1
               (set_heap (Array_new payload (heap st)).2 st))).
  split; [apply games_of_new_cache|]. split; [|easy].
  rewrite applySortingAndFiltering_displayed.
  f_equal. f_equal. apply Array_new_read.
Qed.

Lemma findIndex_spec gameId l i :
  findIndex gameId l = Some i ->
  (exists g, l !! i = Some g /\ id g = gameId) /\
  (forall j g, (j < i)%nat -> l !! j = Some g -> id g <> gameId).
Proof.
  revert i. induction l as [|x l IH]; intros i; cbn [findIndex]; [discriminate|].
  destruct (decide (id x = gameId)) as [E|N].
  - intros [= <-]. split; [now exists x | intros j g Hj; lia].
  - destruct (findIndex gameId l) as [k|] eqn:Ek; [|discriminate].
    intros [= <-]. destruct (IH k eq_refl) as [(g & Hg & Hid) Hbefore].
    split; [now exists g|].
    intros [|j] g' Hj Hl; [now injection Hl as <-|].
    apply (Hbefore j); [lia | exact Hl].
Qed.

Lemma findIndex_none gameId l :
  findIndex gameId l = None -> forall g, In g l -> id g <> gameId.
Proof.
  induction l as [|x l IH]; cbn [findIndex]; [easy|].
  destruct (decide (id x = gameId)) as [E|N]; [discriminate|].
  destruct (findIndex gameId l); [discriminate|].
  intros _ g [<-|Hg]; [exact N | now apply IH].
Qed.

(** X7. A favourite toggle the backend accepts writes the returned flag to
    the first game of the cache with the id and to no other game: the cache
    keeps its length and order, the games before that index have other ids
    and all games but that one are as they were; then the list is derived
    again.  With no such game in the cache nothing changes. *)
Theorem toggleFavorite_updates_one_game :
  forall (gameId code : Z) (v : bool) (st : state),
    r_ok (A := bool) {| r_status := code; r_json := Some v |} = true ->
    (forall i,
        findIndex gameId (games st) = Some i ->
        games (toggleFavorite gameId (responds code (Some v)) st) =
          alter (set_is_favorite v) i (games st) /\
        (exists g, games st !! i = Some g /\ id g = gameId) /\
        (forall j g, (j < i)%nat -> games st !! j = Some g -> id g <> gameId) /\
        (forall j, j <> i ->
            games (toggleFavorite gameId (responds code (Some v)) st) !! j =
            games st !! j) /\
        displayed (games_list (toggleFavorite gameId (responds code (Some v)) st)) =
          applySorting (currentSort st)
            (applyFiltering (currentFilters st)
               (alter (set_is_favorite v) i (games st)))) /\
    (findIndex gameId (games st) = None ->
     (forall g, In g (games st) -> id g <> gameId) /\
     toggleFavorite gameId (responds code (Some v)) st = st).
Proof.
  intros gameId code v st Hok. split.
  - intros i Hi. unfold toggleFavorite, responds. rewrite Hok. cbn [r_json].
    rewrite Hi.
    set (st1 := set_heap _ st).
    assert (games st1 = alter (set_is_favorite v) i (games st)) as G.
    { unfold games, st1. cbn [allGames heap set_heap]. apply Array_read_insert. }
    destruct (findIndex_spec gameId (games st) i Hi) as [Hat Hbefore].
    rewrite applySortingAndFiltering_games, applySortingAndFiltering_displayed, G.
    split; [reflexivity|]. split; [exact Hat|]. split; [exact Hbefore|].
    split; [|reflexivity].
    intros j Hj. now apply list_lookup_alter_ne.
  - intros Hnone. split; [now apply findIndex_none|].
    unfold toggleFavorite, responds. rewrite Hok. cbn [r_json]. now rewrite Hnone.
Qed.

(** X8. A delete that does not go through leaves the library alone: when
    the user is not logged in, declines the confirmation, or the request is
    rejected or answered with 401, the cache and the games list are as they
    were.  On a 401 the flag is reverted, the indicator shows the guest mode
    and the user is told to enter the password again. *)
Theorem deleteGame_without_effect :
  forall (gameId : Z) (confirmed : bool) (r : fetched unit)
         (reloaded : fetched (list game)) (st : state),
    isLoggedIn st = false \/ confirmed = false \/ r = Rejected \/
    (exists body, r = responds 401 body) ->
    games (deleteGame gameId confirmed r reloaded st) = games st /\
    games_list (deleteGame gameId confirmed r reloaded st) = games_list st /\
    ((exists body, r = responds 401 body) ->
     isLoggedIn st = true -> confirmed = true ->
     isLoggedIn (deleteGame gameId confirmed r reloaded st) = false /\
     auth_indicator (deleteGame gameId confirmed r reloaded st) = "View Only"%string /\
     alerts (deleteGame gameId confirmed r reloaded st) =
       "Your session has expired. Please enter the password again."%string
         :: alerts st).
Proof.
  intros gameId confirmed r reloaded st Hcase. unfold deleteGame.
  destruct (isLoggedIn st) eqn:Hin; cbn [negb];
    [|repeat split; intros; discriminate].
  destruct confirmed; cbn [negb]; [|repeat split; intros; discriminate].
  destruct Hcase as [Hf|[Hf|[->|(body & ->)]]]; try discriminate.
  - split; [reflexivity|]. split; [reflexivity|].
    intros (body & Hb). discriminate.
  - cbn. repeat split.
Qed.

(** X9. A save that does not go through leaves the library alone: when the
    user is not logged in, the title is blank, or the request is rejected
    or answered with 401, the cache and the games list are as they were, and
    the user is told why.  On a 401 the page is asked to reload. *)
Theorem saveGame_without_effect :
  forall (title_value : string) (r : fetched unit)
         (reloaded : fetched (list game)) (st : state),
    isLoggedIn st = false \/ JsString.trim title_value = ""%string \/
    r = Rejected \/ (exists body, r = responds 401 body) ->
    games (saveGame title_value r reloaded st) = games st /\
    games_list (saveGame title_value r reloaded st) = games_list st /\
    (exists notice, alerts (saveGame title_value r reloaded st) = notice :: alerts st) /\
    ((exists body, r = responds 401 body) ->
     isLoggedIn st = true -> JsString.trim title_value <> ""%string ->
     reload_requested (saveGame title_value r reloaded st) = true).
Proof.
  intros title_value r reloaded st Hcase. unfold saveGame.
  destruct (isLoggedIn st) eqn:Hin; cbn [negb];
    [|repeat split; eauto; intros; discriminate].
  destruct (decide (JsString.trim title_value = ""%string)) as [Hb|Hb];
    [repeat split; eauto; intros; contradiction|].
  destruct Hcase as [Hf|[Hf|[->|(body & ->)]]]; try easy.
  - split; [reflexivity|]. split; [reflexivity|]. split; [eauto|].
    intros (body & Hr). discriminate.
  - cbn. repeat split; eauto.
Qed.

(** X10. Once an authentication check has answered, the indicator shows the
    mode of the flag, and it goes on doing so whatever the handlers of the
    page do: every handler that writes the flag refreshes the indicator. *)
Theorem indicator_follows_the_flag :
  (forall (code : Z) (logged_in : bool) (st : state),
      indicator_agrees (checkAuth (responds code (Some logged_in)) st)) /\
  (forall st st',
      rtc page_step st st' -> indicator_agrees st -> indicator_agrees st').
Proof.
  split; [intros code [] st; reflexivity|].
  assert (forall st, indicator_agrees st ->
                     indicator_agrees (applySortingAndFiltering st)) as Happly.
  { intros st Hst. unfold indicator_agrees.
    now destruct (applySortingAndFiltering_frame st) as (_ & -> & -> & _). }
  assert (forall r st, indicator_agrees st -> indicator_agrees (fetchGames r st))
    as Hfetch.
  { intros r st Hst. unfold fetchGames.
    destruct r as [|res]; [exact Hst|].
    destruct (r_ok res); cbn [negb]; [|exact Hst].
    destruct (r_json res); [|exact Hst]. now apply Happly. }
  intros st st' Hsteps. induction Hsteps as [st|st st1 st' Hstep _ IH]; [easy|].
  intros Hst. apply IH. clear IH.
  destruct Hstep as
    [r st|password r st|title r listed st|r st|typed sv pv st|value st
    |gameId r st|gameId confirmed r reloaded st|title_value r reloaded st].
  - unfold checkAuth. destruct r as [|res]; [exact Hst|].
    destruct (r_json res) as [[]|]; easy.
  - unfold login. destruct (decide (password = ""%string)); [exact Hst|].
    destruct r as [|res]; [exact Hst|].
    destruct (r_json res) as [[]|]; easy.
  - unfold addAchievement. destruct title as [t|]; [|exact Hst].
    destruct (decide (t = ""%string)); [exact Hst|].
    destruct r as [|res]; [easy|]. now destruct listed.
  - now apply Hfetch.
  - unfold filterGames. now apply Happly.
  - unfold sortByChanged. now apply Happly.
  - unfold toggleFavorite. destruct r as [|res]; [exact Hst|].
    destruct (r_ok res); [|exact Hst]. destruct (r_json res); [|exact Hst].
    destruct (findIndex gameId (games st)); [|exact Hst]. now apply Happly.
  - unfold deleteGame. destruct (isLoggedIn st) eqn:Hin; cbn [negb];
      [|exact Hst].
    destruct confirmed; cbn [negb]; [|exact Hst].
    destruct r as [|res]; [exact Hst|].
    destruct (decide (r_status res = 401)); [easy|].
    apply Hfetch. now destruct (isSteamGame gameId st).
  - unfold saveGame. destruct (isLoggedIn st) eqn:Hin; cbn [negb];
      [|exact Hst].
    destruct (decide (JsString.trim title_value = ""%string));
      [exact Hst|].
    destruct r as [|res]; [exact Hst|].
    destruct (decide (r_status res = 401));
      [exact Hst|].
    now apply Hfetch.
Qed.

End ReadsAndWrites.

Lemma successful_fetch_witness :
  r_ok (A := list game) {| r_status := 200; r_json := Some [Alpha; Beta] |} = true /\
  games (@fetchGames codeUnitLocale (responds 200 (Some [Alpha; Beta]))
           (page_with [Beta] "hours")) = [Alpha; Beta].
Proof.
  split; [reflexivity|].
  exact (proj1 (@successful_fetch_shows_the_payload codeUnitLocale 200
                  [Alpha; Beta] (page_with [Beta] "hours") eq_refl)).
Defined.

Lemma toggleFavorite_witness :
  r_ok (A := bool) {| r_status := 200; r_json := Some true |} = true /\
  findIndex 2 (games (admin_page [Alpha; Beta])) = Some 1%nat /\
  games (@toggleFavorite codeUnitLocale 2 (responds 200 (Some true))
           (admin_page [Alpha; Beta])) =
    alter (set_is_favorite true) 1%nat (games (admin_page [Alpha; Beta])).
Proof.
  split; [reflexivity|]. split; [reflexivity|].
  exact (proj1 (proj1 (@toggleFavorite_updates_one_game codeUnitLocale 2 200 true
                         (admin_page [Alpha; Beta]) eq_refl) 1%nat eq_refl)).
Defined.

Lemma deleteGame_witness :
  (exists body, responds (A := unit) 401 None = responds 401 body) /\
  games (@deleteGame codeUnitLocale 1 true (responds 401 None)
           (responds 200 (Some [Beta])) (admin_page [Alpha; Beta])) =
    games (admin_page [Alpha; Beta]).
Proof.
  assert (exists body, responds (A := unit) 401 None = responds 401 body) as Hr
    by (exists None; reflexivity).
  split; [exact Hr|].
  exact (proj1 (@deleteGame_without_effect codeUnitLocale 1 true (responds 401 None)
                  (responds 200 (Some [Beta])) (admin_page [Alpha; Beta])
                  (or_intror (or_intror (or_intror Hr))))).
Defined.

Lemma saveGame_witness :
  JsString.trim "   " = ""%string /\
  games (@saveGame codeUnitLocale "   " (responds 200 None)
           (responds 200 (Some [Beta])) (admin_page [Alpha; Beta])) =
    games (admin_page [Alpha; Beta]).
Proof.
  split; [reflexivity|].
  exact (proj1 (@saveGame_without_effect codeUnitLocale "   " (responds 200 None)
                  (responds 200 (Some [Beta])) (admin_page [Alpha; Beta])
                  (or_intror (or_introl eq_refl)))).
Defined.

Lemma indicator_witness :
  rtc (@page_step codeUnitLocale)
    (admin_page [Alpha; Beta])
    (@deleteGame codeUnitLocale 1 true (responds 401 None) Rejected
       (admin_page [Alpha; Beta])) /\
  indicator_agrees (admin_page [Alpha; Beta]) /\
  indicator_agrees
    (@deleteGame codeUnitLocale 1 true (responds 401 None) Rejected
       (admin_page [Alpha; Beta])).
Proof.
  assert (rtc (@page_step codeUnitLocale)
            (admin_page [Alpha; Beta])
            (@deleteGame codeUnitLocale 1 true (responds 401 None) Rejected
               (admin_page [Alpha; Beta]))) as Hrun
    by (apply rtc_once; constructor).
  split; [exact Hrun|]. split; [reflexivity|].
  exact (proj2 (@indicator_follows_the_flag codeUnitLocale) _ _ Hrun eq_refl).
Defined.

(** ** Moves of the Top-10 draft *)

Section Top10Moves.
Import Top10 Top10Results.

Lemma inTop10_spec ed g :
  inTop10 ed g = false <-> ~ In (id g) (map game_id (top10Games ed)).
Proof.
  unfold inTop10. rewrite in_map_iff. split.
  - intros Hno (e & He & Hin).
    assert (existsb (fun top10 => bool_decide (game_id top10 = id g)) (top10Games ed) = true)
      as Hyes by (apply existsb_exists; exists e; split; [exact Hin | now apply bool_decide_eq_true]).
    congruence.
  - intros Hno. destruct (existsb _ _) eqn:E; [|reflexivity].
    apply existsb_exists in E as (e & Hin & He).
    apply bool_decide_eq_true in He. exfalso. apply Hno. now exists e.
Qed.

Lemma find_id gameId l g :
  List.find (fun g => bool_decide (id g = gameId)) l = Some g -> id g = gameId.
Proof. intros Hf. apply find_some in Hf as [_ Hf]. now apply bool_decide_eq_true in Hf. Qed.

Lemma addGameToTop10_draft gameId ed :
  top10Games (addGameToTop10 gameId ed) = top10Games ed \/
  exists game, List.find (fun g => bool_decide (id g = gameId)) (cache ed) = Some game /\
    (length (top10Games ed) < 10)%nat /\
    top10Games (addGameToTop10 gameId ed) =
      top10Games ed ++ [entry_of game (cover_url game)].
Proof.
  unfold addGameToTop10.
  destruct (10 <=? Z.of_nat (length (top10Games ed))) eqn:Hfull; [now left|].
  destruct (List.find _ (cache ed)) as [game|] eqn:Hfind; [|now left].
  right. exists game. split; [reflexivity|]. split; [lia|].
  cbn [top10Games set_search_box]. now rewrite renderTop10Selection_draft.
Qed.

(** X11. Every game the Top-10 search lists is a game of the cache that is
    not in the draft.  Adding it through its control appends one entry with
    its id when the draft has room, and a draft whose entries have distinct
    games keeps them distinct. *)
Theorem search_results_are_new_to_the_draft :
  forall (searchTerm : string) (ed : editor) (g : game),
    In g (filteredGames searchTerm ed) ->
    In g (cache ed) /\
    ~ In (id g) (map game_id (top10Games ed)) /\
    ((length (top10Games ed) < 10)%nat ->
     exists e, top10Games (addGameToTop10 (id g) ed) = top10Games ed ++ [e] /\
               game_id e = id g) /\
    (NoDup (map game_id (top10Games ed)) ->
     NoDup (map game_id (top10Games (addGameToTop10 (id g) ed)))).
Proof.
  intros searchTerm ed g Hg. unfold filteredGames in Hg.
  apply filter_In in Hg as [Hcache Hkeep].
  apply andb_prop in Hkeep as [Hnew _]. apply negb_true_iff in Hnew.
  apply inTop10_spec in Hnew.
  split; [exact Hcache|]. split; [exact Hnew|]. split.
  - intros Hroom. unfold addGameToTop10.
    destruct (10 <=? Z.of_nat (length (top10Games ed))) eqn:Hfull; [lia|].
    destruct (List.find _ (cache ed)) as [game|] eqn:Hfind.
    + exists (entry_of game (cover_url game)). split.
      * cbn [top10Games set_search_box]. now rewrite renderTop10Selection_draft.
      * cbn [game_id entry_of]. now apply find_id in Hfind.
    + pose proof (find_none _ _ Hfind g Hcache) as Hn. cbn beta in Hn.
      now rewrite bool_decide_eq_true_2 in Hn.
  - intros Hdistinct.
    destruct (addGameToTop10_draft (id g) ed) as [->|(game & Hfind & _ & ->)];
      [exact Hdistinct|].
    rewrite map_app. cbn [map game_id entry_of].
    apply find_id in Hfind. rewrite Hfind.
    apply NoDup_app. split; [exact Hdistinct|]. split.
    + intros x Hx Hx'. apply list_elem_of_singleton in Hx'. subst x.
      now apply list_elem_of_In in Hx.
    + apply NoDup_singleton.
Qed.




Lemma set_reason_first gameId reason l i e :
  l !! i = Some e -> game_id e = gameId ->
  (forall j e', (j < i)%nat -> l !! j = Some e' -> game_id e' <> gameId) ->
  set_reason gameId reason l = <[i := set_why reason e]> l.
Proof.
  revert i. induction l as [|x l IH]; intros i Hi He Hbefore; [discriminate|].
  cbn [set_reason]. destruct i as [|i]; cbn in Hi.
  - injection Hi as ->. now rewrite decide_True.
  - rewrite decide_False by (apply (Hbefore 0%nat); [lia | reflexivity]).
    cbn. f_equal. apply IH; [exact Hi | exact He |].
    intros j e' Hj Hl. apply (Hbefore (S j)); [lia | exact Hl].
Qed.

Lemma set_reason_absent gameId reason l :
  ~ In gameId (map game_id l) -> set_reason gameId reason l = l.
Proof.
  induction l as [|x l IH]; [reflexivity|]. cbn [map set_reason]. intros Hno.
  rewrite decide_False by (intros E; apply Hno; now left).
  f_equal. apply IH. intros Hin. apply Hno. now right.
Qed.

(** X13. What is typed in the text area of an entry is what a save posts
    for it: the item of the first entry with that game carries the text,
    at the entry's position, and every other item is as before.  With no
    such entry the body is unchanged. *)
Theorem typed_reason_is_posted :
  forall (gameId : Z) (reason : string) (ed : editor),
    (forall i e,
        top10Games ed !! i = Some e -> game_id e = gameId ->
        (forall j e', (j < i)%nat -> top10Games ed !! j = Some e' ->
                      game_id e' <> gameId) ->
        body (saveTop10_request (updateTop10Reason gameId reason ed)) =
          <[i := {| s_game_id := gameId; position := Z.of_nat i + 1;
                    s_why_i_love_it := reason |}]>
            (body (saveTop10_request ed))) /\
    (~ In gameId (map game_id (top10Games ed)) ->
     body (saveTop10_request (updateTop10Reason gameId reason ed)) =
       body (saveTop10_request ed)).
Proof.
  intros gameId reason ed. split.
  - intros i e Hi He Hbefore. cbn [body saveTop10_request].
    unfold updateTop10Reason. cbn [top10Games set_top10Games].
    rewrite (set_reason_first gameId reason _ i e Hi He Hbefore).
    apply list_eq. intros j. rewrite gamesToSave_lookup.
    destruct (decide (j = i)) as [->|Hj].
    + rewrite !list_lookup_insert_eq.
      * cbn. unfold posted. cbn. now rewrite He.
      * unfold gamesToSave. rewrite length_imap. now apply lookup_lt_Some in Hi.
      * now apply lookup_lt_Some in Hi.
    + rewrite !list_lookup_insert_ne by congruence.
      now rewrite gamesToSave_lookup.
  - intros Hno. cbn [body saveTop10_request]. unfold updateTop10Reason.
    cbn [top10Games set_top10Games]. now rewrite set_reason_absent.
Qed.

Lemma filter_other_ids gameId (l : list top10_entry) :
  ~ In gameId (map game_id l) ->
  List.filter (fun game => negb (bool_decide (game_id game = gameId))) l = l.
Proof.
  induction l as [|x l IH]; [reflexivity|]. cbn [map List.filter]. intros Hno.
  rewrite bool_decide_eq_false_2 by (intros E; apply Hno; now left).
  cbn. f_equal. apply IH. intros Hin. apply Hno. now right.
Qed.

(** X14. Adding a game that the draft does not hold and removing it again
    gives the draft back, whether the draft was full, the game unknown to
    the cache, or the game added; the editor shows the former ranks. *)
Theorem removing_an_added_game_restores_the_draft :
  forall (gameId : Z) (ed : editor),
    ~ In gameId (map game_id (top10Games ed)) ->
    top10Games (removeFromTop10 gameId (addGameToTop10 gameId ed)) = top10Games ed /\
    ranks (top10_selection (removeFromTop10 gameId (addGameToTop10 gameId ed))) =
      ranked (top10Games ed).
Proof.
  intros gameId ed Hno.
  assert (top10Games (removeFromTop10 gameId (addGameToTop10 gameId ed)) =
          top10Games ed) as E.
  { unfold removeFromTop10. rewrite renderTop10Selection_draft.
    cbn [top10Games set_top10Games].
    destruct (addGameToTop10_draft gameId ed) as [->|(game & Hfind & _ & ->)].
    - now apply filter_other_ids.
    - rewrite List.filter_app. cbn [List.filter game_id entry_of].
      apply find_id in Hfind. rewrite bool_decide_eq_true_2 by exact Hfind.
      cbn. rewrite app_nil_r. now apply filter_other_ids. }
  split; [exact E|].
  unfold removeFromTop10 at 1. rewrite renderTop10Selection_ranks.
  unfold removeFromTop10 in E. rewrite renderTop10Selection_draft in E.
  now rewrite E.
Qed.

End Top10Moves.

(** The search for "rpg" lists [Gamma], which the draft does not hold. *)
Lemma search_results_witness :
  In Gamma (Top10Results.filteredGames "rpg" draft_editor) /\
  ~ In (id Gamma) (map game_id (Top10.top10Games draft_editor)).
Proof.
  assert (In Gamma (Top10Results.filteredGames "rpg" draft_editor)) as Hin
    by (vm_compute; left; reflexivity).
  split; [exact Hin|].
  exact (proj1 (proj2 (search_results_are_new_to_the_draft "rpg" draft_editor
                         Gamma Hin))).
Defined.


(** A reason typed for the second entry of the draft. *)
Lemma typed_reason_witness :
  Top10.top10Games draft_editor !! 1%nat = Some (stored_entry 8 "Celeste" "") /\
  Top10.body (Top10.saveTop10_request
                (Top10.updateTop10Reason 8 "tight controls" draft_editor)) !! 1%nat =
    Some {| Top10.s_game_id := 8; Top10.position := 2;
            Top10.s_why_i_love_it := "tight controls" |}.
Proof.
  split; [reflexivity|].
  rewrite (proj1 (typed_reason_is_posted 8 "tight controls" draft_editor)
             1%nat (stored_entry 8 "Celeste" "") eq_refl eq_refl).
  - reflexivity.
  - intros [|j] e' Hj Hl; [injection Hl as <-; discriminate | lia].
Defined.

(** [Gamma] added to the draft and removed again. *)
Lemma add_remove_witness :
  ~ In 3 (map game_id (Top10.top10Games draft_editor)) /\
  Top10.top10Games (Top10.removeFromTop10 3 (Top10.addGameToTop10 3 draft_editor)) =
    three_entries.
Proof.
  assert (~ In 3 (map game_id (Top10.top10Games draft_editor))) as Hno
    by (intros [E|[E|[E|[]]]]; discriminate E).
  split; [exact Hno|].
  exact (proj1 (removing_an_added_game_restores_the_draft 3 draft_editor Hno)).
Defined.


(** ** The search box with both listeners *)

Section SearchSession.
Import Top10Search.

Lemma onInput_search_timers now value b :
  timers (onInput_search now value b) = timers b /\
  searchTimeout (onInput_search now value b) = searchTimeout b /\
  next_timer (onInput_search now value b) = next_timer b.
Proof. unfold onInput_search. now destruct (JsString.length _ <? 2). Qed.

Lemma clearTimeout_timers i b b' :
  timers b' = timers b ->
  timers (clearTimeout i b') = timers (clearTimeout i b).
Proof. intros E. destruct i; cbn [clearTimeout timers]; now rewrite E. Qed.

Lemma onInput_clears_pending past now value b :
  pending_ok past b ->
  timers (clearTimeout (searchTimeout (onInput_search now value (runTimers now b)))
            (onInput_search now value (runTimers now b))) = [].
Proof.
  intros Hp.
  destruct (onInput_search_timers now value (runTimers now b)) as (Ht & -> & _).
  rewrite (clearTimeout_timers _ (runTimers now b) _ Ht).
  exact (input_clears_pending past now b Hp).
Qed.

Lemma onInput_pending past now value b :
  pending_ok past b ->
  (forall e, In e past -> fst e <= now) ->
  pending_ok (past ++ [(now, value)]) (onInput now value (runTimers now b)).
Proof.
  intros Hp Hmax.
  pose proof (onInput_clears_pending past now value b Hp) as Hclear.
  unfold onInput, onInput_debounced.
  destruct (JsString.length _ <? 2) eqn:Hlen.
  - left. exact Hclear.
  - right. eexists _, now, value.
    cbn [timers searchTimeout setSearchTimeout]. rewrite Hclear.
    split; [reflexivity|]. split; [reflexivity|].
    split; [apply in_or_app; right; now left|].
    intros e He. apply in_app_or in He. destruct He as [He|[<-|[]]].
    + now apply Hmax.
    + simpl. lia.
Qed.

Lemma onInput_searches now value b :
  searches (onInput now value b) =
  if JsString.length (search_term value) <? 2 then searches b
  else (now, search_term value) :: searches b.
Proof.
  unfold onInput. rewrite onInput_debounced_searches. unfold onInput_search, search_term.
  now destruct (JsString.length _ <? 2).
Qed.

Lemma at_input_later past extra t term :
  at_input past t term -> at_input (past ++ extra) t term.
Proof.
  intros (value & Hin & Hs & Hterm). exists value.
  split; [apply in_or_app; now left | now split].
Qed.

Lemma runTimers_searched past now value future b :
  pending_ok past b ->
  searched_ok past ((now, value) :: future) b ->
  (forall e, In e future -> now <= fst e) ->
  searched_ok (past ++ [(now, value)]) future (runTimers now b).
Proof.
  intros Hp Hl Hsorted t term Hin.
  cbn [searches runTimers] in Hin. apply in_app_or in Hin.
  destruct Hin as [Hdue|Hold].
  - destruct Hp as [Hnone|(i & t0 & v0 & Ht & _ & Hin0 & Hmax)].
    + rewrite Hnone in Hdue. destruct Hdue.
    + rewrite Ht in Hdue. cbn [List.filter fst snd] in Hdue.
      destruct (t0 + 300 <=? now) eqn:E; [|destruct Hdue].
      apply Z.leb_le in E.
      destruct Hdue as [[= <- <-]|[]].
      split.
      * right. apply after_quiet_later; [now apply pending_after_quiet|].
        intros e [<-|[]]. simpl. lia.
      * intros e He. apply Hsorted in He. lia.
  - destruct (Hl t term Hold) as [Hq Hlater]. split.
    + destruct Hq as [Hq|Hq]; [left; now apply at_input_later|].
      right. apply after_quiet_later; [exact Hq|].
      intros e [<-|[]]. apply Hlater. now left.
    + intros e He. apply Hlater. now right.
Qed.

Lemma session_searched future :
  times_ascend future ->
  forall past b,
    pending_ok past b ->
    searched_ok past future b ->
    (forall p e, In p past -> In e future -> fst p <= fst e) ->
    forall t term,
      In (t, term) (searches (session future b)) ->
      at_input (past ++ future) t term \/ after_quiet (past ++ future) t term.
Proof.
  induction 1 as [|[now value] future Hs IH Hnow];
    intros past b Hp Hl Hpf t term Hin.
  - rewrite app_nil_r. cbn [session searches runAllTimers] in Hin.
    apply in_app_or in Hin. destruct Hin as [Hdue|Hold]; [|now apply Hl].
    destruct Hp as [Hnone|(i & t0 & v0 & Ht & _ & Hin0 & Hmax)].
    + rewrite Hnone in Hdue. destruct Hdue.
    + rewrite Ht in Hdue. destruct Hdue as [[= <- <-]|[]].
      right. now apply pending_after_quiet.
  - rewrite Forall_forall in Hnow.
    assert (forall e, In e future -> now <= fst e) as Hsorted.
    { intros e He. now apply (Hnow e), list_elem_of_In. }
    assert (forall e, In e past -> fst e <= now) as Hmax.
    { intros e He. apply (Hpf e (now, value) He). now left. }
    cbn [session] in Hin.
    replace (past ++ (now, value) :: future)
      with ((past ++ [(now, value)]) ++ future) by now rewrite <- app_assoc.
    apply (IH (past ++ [(now, value)])
              (onInput now value (runTimers now b))); [| | |exact Hin].
    + now apply onInput_pending.
    + intros t1 term1 H1. rewrite onInput_searches in H1.
      pose proof (runTimers_searched past now value future b Hp Hl Hsorted) as Hr.
      destruct (JsString.length (search_term value) <? 2) eqn:Hlen;
        [now apply Hr|].
      destruct H1 as [[= <- <-]|H1]; [|now apply Hr].
      split; [|exact Hsorted].
      left. exists value. split; [apply in_or_app; right; now left|].
      split; [exact Hlen | reflexivity].
    + intros p e Hin' He. apply in_app_or in Hin'.
      destruct Hin' as [Hin'|[<-|[]]].
      * apply (Hpf p e Hin'). now right.
      * now apply Hsorted.
Qed.

(** X15. In a session of the search box as the script wires it, with both
    listeners, every call of [searchAvailableGames] either comes at the time
    of an input of two characters or more, for the term of that input, or
    comes 300 ms after an input that no other input followed in between. *)
Theorem searches_come_with_an_input_or_after_a_quiet_period :
  forall (events : list (Z * string)) (t : Z) (term : string),
    times_ascend events ->
    In (t, term) (searches_of events) ->
    at_input events t term \/ after_quiet events t term.
Proof.
  intros events t term Hs Hin. unfold searches_of in Hin.
  apply in_rev in Hin.
  apply (session_searched events Hs [] initial); try easy.
  now left.
Qed.

(** A session in two parts: the inputs of the first, its pending timeouts
    not yet run, then the second. *)
Lemma session_app l1 l2 b :
  session (l1 ++ l2) b =
  session l2 (fold_left (fun b e => onInput (fst e) (snd e) (runTimers (fst e) b)) l1 b).
Proof.
  revert b. induction l1 as [|[now value] l1 IH]; intros b; [reflexivity|].
  cbn [app session fold_left fst snd]. apply IH.
Qed.

Lemma runTimers_one_pending now b : one_pending b -> one_pending (runTimers now b).
Proof.
  intros [Hnone|(i & d & Ht & Hid)]; unfold one_pending, runTimers;
    cbn [timers searchTimeout].
  - left. now rewrite Hnone.
  - rewrite Ht. cbn [List.filter]. destruct (fst (snd (i, d)) <=? now); cbn [negb];
      [now left | right; now exists i, d].
Qed.

Lemma onInput_one_pending now value b :
  one_pending b ->
  one_pending (onInput now value b) /\
  (searchable value ->
   exists i, timers (onInput now value b) = [(i, (now + 300, search_term value))]).
Proof.
  intros Hp.
  assert (timers (clearTimeout (searchTimeout (onInput_search now value b))
                    (onInput_search now value b)) = []) as Hclear.
  { destruct (onInput_search_timers now value b) as (Ht & -> & _).
    rewrite (clearTimeout_timers _ b _ Ht).
    destruct Hp as [Hnone|(i & d & Hb & ->)].
    - destruct (searchTimeout b); cbn [clearTimeout timers]; now rewrite Hnone.
    - cbn [clearTimeout timers]. rewrite Hb. cbn [List.filter fst].
      now rewrite Nat.eqb_refl. }
  unfold one_pending, searchable, search_term, onInput, onInput_debounced.
  destruct (JsString.length _ <? 2) eqn:Hlen.
  - split; [left; exact Hclear | discriminate].
  - cbn [timers searchTimeout setSearchTimeout]. rewrite Hclear. split.
    + right. eexists _, _. split; reflexivity.
    + intros _. eexists. reflexivity.
Qed.

Lemma inputs_one_pending l b :
  one_pending b ->
  one_pending
    (fold_left (fun b e => onInput (fst e) (snd e) (runTimers (fst e) b)) l b).
Proof.
  revert b. induction l as [|[now value] l IH]; intros b Hp; [exact Hp|].
  cbn [fold_left fst snd]. apply IH.
  now apply onInput_one_pending, runTimers_one_pending.
Qed.

(** X16. When the typing stops on an input of two characters or more, the
    last search of the session is the one for that input, 300 ms after it:
    no timeout of an earlier input is still pending then. *)
Theorem last_search_is_for_the_last_input :
  forall (past : list (Z * string)) (now : Z) (value : string),
    searchable value ->
    last (searches_of (past ++ [(now, value)])) = Some (now + 300, search_term value).
Proof.
  intros past now value Hs. unfold searches_of. rewrite session_app.
  set (b := fold_left _ past initial).
  assert (one_pending b) as Hb by (apply inputs_one_pending; now left).
  cbn [session searches runAllTimers].
  destruct (onInput_one_pending now value (runTimers now b)
              (runTimers_one_pending now b Hb)) as [_ Hset].
  destruct (Hset Hs) as [i ->]. cbn [map snd rev app].
  apply last_snoc.
Qed.

End SearchSession.

(** One input "ze": a search with the input and one after the quiet
    period. *)
Lemma search_session_witness :
  times_ascend [(0, "ze"%string)] /\
  In (300, "ze"%string) (Top10Search.searches_of [(0, "ze"%string)]) /\
  (at_input [(0, "ze"%string)] 300 "ze" \/ after_quiet [(0, "ze"%string)] 300 "ze").
Proof.
  assert (times_ascend [(0, "ze"%string)]) as Hs by (repeat constructor).
  assert (In (300, "ze"%string) (Top10Search.searches_of [(0, "ze"%string)])) as Hin
    by (right; left; reflexivity).
  split; [exact Hs|]. split; [exact Hin|].
  exact (searches_come_with_an_input_or_after_a_quiet_period _ _ _ Hs Hin).
Defined.

(** The burst "z", "ze", "zel". *)
Lemma last_search_witness :
  searchable "zel" /\
  last (Top10Search.searches_of [(0, "z"); (100, "ze"); (200, "zel")]%string) =
    Some (500, "zel"%string).
Proof.
  split; [reflexivity|].
  exact (last_search_is_for_the_last_input [(0, "z"); (100, "ze")]%string
           200 "zel" eq_refl).
Defined.


(** ** The tags field *)

Section Tags.

Lemma trimEnd_idem s : JsString.trimEnd (JsString.trimEnd s) = JsString.trimEnd s.
Proof.
  induction s as [|c s IH]; [reflexivity|]. cbn [JsString.trimEnd].
  destruct (JsString.trimEnd s) as [|a t] eqn:E.
  - destruct (JsString.is_space c) eqn:Hc; [reflexivity|].
    cbn [JsString.trimEnd]. now rewrite Hc.
  - cbn [JsString.trimEnd] in *. now rewrite IH.
Qed.

Lemma trimStart_first s :
  JsString.trimStart s = ""%string \/
  exists c t, JsString.trimStart s = String c t /\ JsString.is_space c = false.
Proof.
  induction s as [|c s IH]; [now left|]. cbn [JsString.trimStart].
  destruct (JsString.is_space c) eqn:Hc; [exact IH|]. right. now exists c, s.
Qed.

Lemma trimEnd_first c t :
  JsString.is_space c = false ->
  exists t', JsString.trimEnd (String c t) = String c t'.
Proof.
  intros Hc. cbn [JsString.trimEnd].
  destruct (JsString.trimEnd t); [rewrite Hc|]; eauto.
Qed.

Lemma trim_idem s : JsString.trim (JsString.trim s) = JsString.trim s.
Proof.
  unfold JsString.trim.
  destruct (trimStart_first s) as [->|(c & t & -> & Hc)]; [reflexivity|].
  destruct (trimEnd_first c t Hc) as [t' E].
  rewrite E at 1. cbn [JsString.trimStart]. rewrite Hc, <- E.
  apply trimEnd_idem.
Qed.

Lemma mentions_trimStart c s :
  mentions c s = false -> mentions c (JsString.trimStart s) = false.
Proof.
  induction s as [|a s IH]; [easy|]. cbn [JsString.trimStart mentions].
  intros Hm. apply orb_false_elim in Hm as [Ha Hs].
  destruct (JsString.is_space a); [now apply IH|].
  cbn [mentions]. now rewrite Ha, Hs.
Qed.

Lemma mentions_trimEnd c s :
  mentions c s = false -> mentions c (JsString.trimEnd s) = false.
Proof.
  induction s as [|a s IH]; [easy|]. cbn [JsString.trimEnd mentions].
  intros Hm. apply orb_false_elim in Hm as [Ha Hs]. specialize (IH Hs).
  destruct (JsString.trimEnd s) as [|b t].
  - destruct (JsString.is_space a); [reflexivity|]. cbn [mentions].
    now rewrite Ha.
  - cbn [mentions] in *. now rewrite Ha, IH.
Qed.

Lemma split_comma_pieces s :
  Forall (fun piece => mentions "," piece = false) (split_comma s).
Proof.
  induction s as [|a s IH]; [now repeat constructor|]. cbn [split_comma].
  destruct (Ascii.eqb a ",") eqn:Ha; [now constructor|].
  destruct (split_comma s) as [|piece pieces]; [now repeat constructor; cbn; rewrite Ha|].
  inversion IH as [|? ? Hp Hps]; subst. constructor; [|exact Hps].
  cbn [mentions]. now rewrite Ha, Hp.
Qed.

Lemma split_comma_not_nil s : split_comma s <> [].
Proof.
  destruct s as [|a s]; [easy|]. cbn [split_comma].
  destruct (Ascii.eqb a ","); [easy|]. now destruct (split_comma s).
Qed.

Lemma split_comma_piece t rest :
  mentions "," t = false ->
  split_comma (t +:+ String "," rest) = t :: split_comma rest.
Proof.
  induction t as [|a t IH]; intros Hm; [reflexivity|].
  cbn [mentions] in Hm. apply orb_false_elim in Hm as [Ha Ht].
  rewrite append_String. cbn [split_comma]. rewrite Ha, IH by exact Ht.
  reflexivity.
Qed.

Lemma split_comma_last t :
  mentions "," t = false -> split_comma t = [t].
Proof.
  induction t as [|a t IH]; intros Hm; [reflexivity|].
  cbn [mentions] in Hm. apply orb_false_elim in Hm as [Ha Ht].
  cbn [split_comma]. now rewrite Ha, IH.
Qed.

Lemma trim_after_space t : JsString.trim (String " " t) = JsString.trim t.
Proof. reflexivity. Qed.

(** The pieces that [tagsOf] reads from [join ", " l], before they are
    trimmed. *)
Lemma split_comma_join t l :
  Forall (fun t => mentions "," t = false) (t :: l) ->
  split_comma (join ", " (t :: l)) = t :: map (String " ") l.
Proof.
  revert t. induction l as [|t' l IH]; intros t Hall.
  - inversion Hall; subst. now apply split_comma_last.
  - inversion Hall as [|? ? Ht Hrest]; subst.
    change (join ", " (t :: t' :: l)) with (t +:+ ", " +:+ join ", " (t' :: l)).
    change (", " +:+ join ", " (t' :: l))
      with (String "," (String " " (join ", " (t' :: l)))).
    rewrite split_comma_piece by exact Ht. f_equal.
    cbn [split_comma]. change (Ascii.eqb " " ",") with false. cbv iota.
    rewrite IH by exact Hrest. reflexivity.
Qed.

(** X17. The tags of a game survive the edit form: [editGame] writes them
    to the input joined by a comma and a space, and the save handler reads
    the same list back, provided no tag is empty, holds a comma or has
    white space at either end.  Whatever the input holds, the tags the save
    handler reads are of that kind, so tags saved through the form come
    back unchanged the next time. *)
Theorem tags_survive_the_edit_form :
  (forall g : game,
      Forall clean_tag (default [] (tags g)) ->
      tagsOf (tagsInput g) = default [] (tags g)) /\
  (forall value : string, Forall clean_tag (tagsOf value)) /\
  (forall value : string,
      tagsOf (join ", " (tagsOf value)) = tagsOf value).
Proof.
  assert (forall l : list string, Forall clean_tag l -> tagsOf (join ", " l) = l)
    as Hround.
  { intros [|t l] Hall; [reflexivity|].
    unfold tagsOf. rewrite split_comma_join
      by (eapply Forall_impl; [exact Hall | now intros ? (_ & ? & _)]).
    cbn [map]. rewrite map_map.
    assert (forall k, Forall clean_tag k ->
              List.filter (fun t => negb (bool_decide (t = ""%string)))
                (map (fun t => JsString.trim (String " " t)) k) = k) as Hk.
    { induction k as [|x k IHk]; [reflexivity|]. intros Hx.
      inversion Hx as [|? ? (Hne & _ & Htrim) Hk']; subst.
      cbn [map List.filter]. rewrite trim_after_space, Htrim.
      rewrite bool_decide_eq_false_2 by exact Hne. cbn. f_equal. now apply IHk. }
    inversion Hall as [|? ? (Hne & _ & Htrim) Hl]; subst.
    cbn [List.filter]. rewrite Htrim, bool_decide_eq_false_2 by exact Hne.
    cbn. f_equal. now apply Hk. }
  assert (forall value : string, Forall clean_tag (tagsOf value)) as Hclean.
  { intros value. unfold tagsOf. apply Forall_forall. intros t Ht.
    apply list_elem_of_In, filter_In in Ht as [Hin Hne].
    apply in_map_iff in Hin as (piece & <- & Hpiece).
    pose proof (split_comma_pieces value) as Hp.
    rewrite Forall_forall in Hp. specialize (Hp piece (proj2 (list_elem_of_In _ _) Hpiece)).
    split; [|split].
    - apply negb_true_iff in Hne. now apply bool_decide_eq_false in Hne.
    - unfold JsString.trim. now apply mentions_trimEnd, mentions_trimStart.
    - apply trim_idem. }
  split; [intros g; apply Hround|]. split; [exact Hclean|].
  intros value. apply Hround, Hclean.
Qed.

End Tags.

(** The tags of [Gamma], through the form and back. *)
Lemma tags_witness :
  Forall clean_tag (default [] (tags Gamma)) /\
  tagsInput Gamma = "rpg, co-op"%string /\
  tagsOf (tagsInput Gamma) = ["rpg"; "co-op"]%string.
Proof.
  assert (Forall clean_tag (default [] (tags Gamma))) as Hclean
    by (repeat constructor; discriminate).
  split; [exact Hclean|]. split; [reflexivity|].
  exact (proj1 tags_survive_the_edit_form Gamma Hclean).
Defined.


(** ** The batch mode *)

Section BatchFacts.
Context `{HostLocale}.
Import Batch.

Lemma Set_add_NoDup x s : NoDup s -> NoDup (Set_add x s).
Proof.
  intros Hs. unfold Set_add. destruct (decide (x ∈ s)) as [|Hx]; [exact Hs|].
  apply NoDup_app. split; [exact Hs|]. split; [|apply NoDup_singleton].
  intros y Hy Hy'. apply list_elem_of_singleton in Hy'. now subst y.
Qed.

Lemma Set_delete_NoDup x s : NoDup s -> NoDup (Set_delete x s).
Proof.
  intros Hs. unfold Set_delete. apply NoDup_ListNoDup.
  apply List.NoDup_filter. now apply NoDup_ListNoDup.
Qed.

Lemma batchDeleteGames_selection confirmed r reloaded p :
  selectedGames (batchDeleteGames confirmed r reloaded p) = selectedGames p /\
  batchMode (batchDeleteGames confirmed r reloaded p) = batchMode p \/
  selectedGames (batchDeleteGames confirmed r reloaded p) = [] /\
  batchMode (batchDeleteGames confirmed r reloaded p) = false.
Proof.
  unfold batchDeleteGames. destruct (selectedGames p) eqn:E; [left; now split|].
  destruct confirmed; cbn [negb]; [|left; now split].
  destruct r as [|res]; [left; now split|].
  destruct (r_ok res); [now right | left; now split].
Qed.

Lemma batchUpdateStatus_selection newStatus confirmed answer reloaded p :
  selectedGames (batchUpdateStatus newStatus confirmed answer reloaded p) = selectedGames p /\
  batchMode (batchUpdateStatus newStatus confirmed answer reloaded p) = batchMode p \/
  selectedGames (batchUpdateStatus newStatus confirmed answer reloaded p) = [] /\
  batchMode (batchUpdateStatus newStatus confirmed answer reloaded p) = false.
Proof.
  unfold batchUpdateStatus. destruct (selectedGames p) eqn:E; [left; now split|].
  destruct confirmed; cbn [negb]; [now right | left; now split].
Qed.

(** X18. Whatever the user does, the ids a batch request would carry are
    distinct, and outside the batch mode nothing is selected: ticking a box
    twice adds the game once, and entering or leaving the mode clears the
    selection. *)
Theorem batch_selection_is_a_set_of_the_batch_mode :
  forall (st : state) (p : page),
    rtc step (initial st) p ->
    NoDup (game_ids p) /\ (batchMode p = false -> game_ids p = []).
Proof.
  intros st p Hrun. unfold game_ids.
  apply (rtc_ind_r (R := step)
           (fun p => NoDup (selectedGames p) /\ (batchMode p = false -> selectedGames p = []))
           (initial st)); [split; [constructor | reflexivity] | | exact Hrun].
  clear p Hrun. intros p p' _ Hstep [Hnd Hoff].
  destruct Hstep as
    [gameId checked p Hmode _|p|p|confirmed r reloaded p
    |newStatus confirmed answer reloaded p|st' p _].
  - cbn [selectedGames checkboxChanged batchMode]. split; [|congruence].
    destruct checked; [now apply Set_add_NoDup | now apply Set_delete_NoDup].
  - split; [constructor | reflexivity].
  - split; [constructor | reflexivity].
  - destruct (batchDeleteGames_selection confirmed r reloaded p) as [[-> ->]|[-> _]];
      [now split | split; [constructor | reflexivity]].
  - destruct (batchUpdateStatus_selection newStatus confirmed answer reloaded p)
      as [[-> ->]|[-> _]];
      [now split | split; [constructor | reflexivity]].
  - now split.
Qed.

Lemma updateOne_counts newStatus answer x t :
  updatedCount (updateOne newStatus x (answer x) t) =
    updatedCount t + (if succeeded answer x then 1 else 0) /\
  completedCount (updateOne newStatus x (answer x) t) =
    completedCount t + (if completed answer x then 1 else 0) /\
  status_writes (updateOne newStatus x (answer x) t) =
    status_writes t ++
    (if decide (newStatus = ""%string) then []
     else if succeeded answer x && negb (completed answer x) then [x] else []).
Proof.
  unfold succeeded, completed, updateOne.
  destruct (answer x) as [|[] n []];
    cbn [updatedCount completedCount status_writes negb andb];
    destruct (decide (newStatus = ""%string)) as [E|E];
    rewrite ?(bool_decide_eq_true_2 _ E), ?(bool_decide_eq_false_2 _ E);
    cbn [negb andb]; rewrite ?app_nil_r; repeat split; lia.
Qed.

Lemma fold_updateOne newStatus answer sel t :
  let t' := fold_left (fun t gameId => updateOne newStatus gameId (answer gameId) t) sel t in
  updatedCount t' =
    updatedCount t + Z.of_nat (length (List.filter (succeeded answer) sel)) /\
  completedCount t' =
    completedCount t + Z.of_nat (length (List.filter (completed answer) sel)) /\
  status_writes t' =
    status_writes t ++
    (if decide (newStatus = ""%string) then []
     else List.filter (fun gameId => succeeded answer gameId && negb (completed answer gameId)) sel).
Proof.
  revert t. induction sel as [|x sel IH]; intros t; cbn [fold_left].
  - cbn. rewrite !Z.add_0_r. destruct (decide _); now rewrite app_nil_r.
  - destruct (IH (updateOne newStatus x (answer x) t)) as (-> & -> & ->).
    destruct (updateOne_counts newStatus answer x t) as (-> & -> & ->).
    cbn [List.filter].
    destruct (succeeded answer x), (completed answer x),
      (decide (newStatus = ""%string));
      cbn [negb andb length]; rewrite <- ?app_assoc, ?app_nil_r; cbn [app];
      repeat split; lia.
Qed.


Lemma fetchGames_alerts r st : alerts (fetchGames r st) = alerts st.
Proof.
  unfold fetchGames. destruct r as [|res]; [reflexivity|].
  destruct (r_ok res); cbn [negb]; [|reflexivity].
  destruct (r_json res) as [payload|]; [|reflexivity].
  change (let '(a, h) := Array_new payload (heap st) in
          applySortingAndFiltering (set_allGames a (set_heap h st)))
    with (applySortingAndFiltering
            (set_allGames (Array_new payload (heap st)).1
               (set_heap (Array_new payload (heap st)).2 st))).
  now destruct (applySortingAndFiltering_frame
                  (set_allGames (Array_new payload (heap st)).1
                     (set_heap (Array_new payload (heap st)).2 st)))
    as (_ & _ & _ & ->).
Qed.

Lemma filter_length_bound {A} (f : A -> bool) (l : list A) :
  (length (List.filter f l) <= length l)%nat.
Proof. induction l as [|x l IH]; cbn; [lia|]. destruct (f x); cbn; lia. Qed.

Lemma filter_length_mono {A} (f g : A -> bool) (l : list A) :
  (forall x, f x = true -> g x = true) ->
  (length (List.filter f l) <= length (List.filter g l))%nat.
Proof.
  intros Hfg. induction l as [|x l IH]; cbn; [lia|].
  destruct (f x) eqn:Hf; [rewrite (Hfg x Hf); cbn; lia|].
  destruct (g x); cbn; lia.
Qed.

(** X19. A confirmed batch update goes through every selected game, a
    failure for one game not stopping the loop: the notice counts the games
    whose update succeeded and, among them, those with all achievements
    unlocked; the loop goes on to write the chosen status for the updated
    games that are not complete, and for none when no status is chosen.
    Afterwards the batch mode is off, the selection empty and the notice
    shown. *)
Theorem batch_update_counts_every_selected_game :
  forall (newStatus : string) (answer : Z -> update_result)
         (reloaded : fetched (list game)) (p : page),
    selectedGames p <> [] ->
    let t := updateAll newStatus answer (selectedGames p) in
    let p' := batchUpdateStatus newStatus true answer reloaded p in
    updatedCount t =
      Z.of_nat (length (List.filter (succeeded answer) (selectedGames p))) /\
    completedCount t =
      Z.of_nat (length (List.filter (completed answer) (selectedGames p))) /\
    status_writes t =
      (if decide (newStatus = ""%string) then []
       else List.filter (fun gameId => succeeded answer gameId &&
                                       negb (completed answer gameId))
                        (selectedGames p)) /\
    0 <= completedCount t <= updatedCount t /\
    updatedCount t <= Z.of_nat (length (selectedGames p)) /\
    batchMode p' = false /\ selectedGames p' = [] /\
    alerts (view p') = updateMessage t :: alerts (view p).
Proof.
  intros newStatus answer reloaded p Hsel t p'.
  destruct (fold_updateOne newStatus answer (selectedGames p) no_tally)
    as (Hu & Hc & Hw).
  fold (updateAll newStatus answer (selectedGames p)) in Hu, Hc, Hw.
  fold t in Hu, Hc, Hw. cbn [no_tally updatedCount completedCount status_writes] in *.
  rewrite Z.add_0_l in Hu, Hc. cbn [app] in Hw.
  split; [exact Hu|]. split; [exact Hc|]. split; [exact Hw|].
  split; [|split].
  - rewrite Hu, Hc. split; [lia|]. apply inj_le, filter_length_mono.
    intros x. unfold completed, succeeded.
    now destruct (answer x) as [|[] ? []].
  - rewrite Hu. apply inj_le, filter_length_bound.
  - subst p'. unfold batchUpdateStatus.
    destruct (selectedGames p) eqn:E; [contradiction|]. cbn [negb].
    cbn [batchMode selectedGames set_view cancelBatchMode view].
    split; [reflexivity|]. split; [reflexivity|].
    rewrite fetchGames_alerts.
    match goal with
    | |- alerts (applySortingAndFiltering ?s) = _ =>
        destruct (applySortingAndFiltering_frame s) as (_ & _ & _ & ->)
    end.
    reflexivity.
Qed.

(** X20. A confirmed batch delete clears the selection and leaves the batch
    mode only when the backend accepts it, and then says how many games
    were deleted.  Otherwise the mode, the selection, the cache and the
    list stay; a response with an error status is dropped without any
    notice. *)
Theorem batch_delete_clears_the_selection_on_success_only :
  forall (r : fetched unit) (reloaded : fetched (list game)) (p : page),
    selectedGames p <> [] ->
    let p' := batchDeleteGames true r reloaded p in
    (accepted r ->
     batchMode p' = false /\ selectedGames p' = [] /\
     alerts (view p') =
       ("Deleted " +:+ pretty (length (selectedGames p)) +:+ " game(s) successfully!")
         :: alerts (view p)) /\
    (~ accepted r ->
     batchMode p' = batchMode p /\ selectedGames p' = selectedGames p /\
     games (view p') = games (view p) /\
     games_list (view p') = games_list (view p) /\
     (r <> Rejected -> p' = p)).
Proof.
  intros r reloaded p Hsel p'. subst p'. unfold batchDeleteGames.
  destruct (selectedGames p) as [|x sel] eqn:E; [contradiction|]. cbn [negb].
  split.
  - intros (res & -> & Hok). rewrite Hok.
    cbn [batchMode selectedGames set_view cancelBatchMode view].
    split; [reflexivity|]. split; [reflexivity|].
    rewrite fetchGames_alerts.
    match goal with
    | |- alerts (applySortingAndFiltering ?s) = _ =>
        now destruct (applySortingAndFiltering_frame s) as (_ & _ & _ & ->)
    end.
  - intros Hno. destruct r as [|res].
    + cbn. repeat split; try easy.
    + destruct (r_ok res) eqn:Hok; [exfalso; apply Hno; now exists res|].
      now repeat split.
Qed.

End BatchFacts.

(** The batch mode entered and the box of [Alpha] ticked twice. *)
Lemma batch_selection_witness :
  rtc (@Batch.step codeUnitLocale)
    (Batch.initial (admin_page [Alpha; Beta]))
    (Batch.checkboxChanged 1 true
       (Batch.checkboxChanged 1 true
          (@Batch.toggleBatchMode codeUnitLocale
             (Batch.initial (admin_page [Alpha; Beta]))))) /\
  NoDup (Batch.game_ids
           (Batch.checkboxChanged 1 true
              (Batch.checkboxChanged 1 true
                 (@Batch.toggleBatchMode codeUnitLocale
                    (Batch.initial (admin_page [Alpha; Beta])))))).
Proof.
  assert (rtc (@Batch.step codeUnitLocale)
            (Batch.initial (admin_page [Alpha; Beta]))
            (Batch.checkboxChanged 1 true
               (Batch.checkboxChanged 1 true
                  (@Batch.toggleBatchMode codeUnitLocale
                     (Batch.initial (admin_page [Alpha; Beta])))))) as Hrun.
  { eapply rtc_l; [apply Batch.step_toggle|].
    eapply rtc_l; [apply Batch.step_checkbox; [reflexivity | vm_compute; tauto]|].
    apply rtc_once.
    apply Batch.step_checkbox; [reflexivity | vm_compute; tauto]. }
  split; [exact Hrun|].
  exact (proj1 (@batch_selection_is_a_set_of_the_batch_mode codeUnitLocale _ _ Hrun)).
Defined.

(** Three games selected, the update of the second failing. *)
Lemma batch_update_witness :
  Batch.selectedGames batch_page <> [] /\
  Batch.updatedCount (Batch.updateAll "Completed" second_fails [1; 2; 3]) = 2 /\
  Batch.status_writes (Batch.updateAll "Completed" second_fails [1; 2; 3]) = [1].
Proof.
  assert (Batch.selectedGames batch_page <> []) as Hsel by discriminate.
  split; [exact Hsel|].
  pose proof (@batch_update_counts_every_selected_game codeUnitLocale "Completed"
                second_fails Rejected batch_page Hsel) as (Hu & _ & Hw & _).
  split; [exact Hu | exact Hw].
Defined.

(** A batch delete the backend answers with status 500. *)
Lemma batch_delete_witness :
  Batch.selectedGames batch_page <> [] /\
  ~ accepted (responds (A := unit) 500 None) /\
  @Batch.batchDeleteGames codeUnitLocale true (responds 500 None) Rejected batch_page
    = batch_page.
Proof.
  assert (Batch.selectedGames batch_page <> []) as Hsel by discriminate.
  assert (~ accepted (responds (A := unit) 500 None)) as Hno.
  { intros (res & E & Hok). injection E as <-. discriminate Hok. }
  split; [exact Hsel|]. split; [exact Hno|].
  destruct (proj2 (@batch_delete_clears_the_selection_on_success_only codeUnitLocale
                     (responds 500 None) Rejected batch_page Hsel) Hno)
    as (_ & _ & _ & _ & Hsame).
  apply Hsame. discriminate.
Defined.

(** ** Starting the page *)

Section Reload.
Context `{HostLocale}.

Lemma checkAuth_frame auth st :
  localStorage (checkAuth auth st) = localStorage st /\
  currentFilters (checkAuth auth st) = currentFilters st /\
  currentSort (checkAuth auth st) = currentSort st.
Proof.
  unfold checkAuth. destruct auth as [|res]; [easy|].
  now destruct (r_json res).
Qed.

Lemma fetchGames_frame r st :
  localStorage (fetchGames r st) = localStorage st /\
  currentFilters (fetchGames r st) = currentFilters st /\
  currentSort (fetchGames r st) = currentSort st.
Proof.
  unfold fetchGames. destruct r as [|res]; [easy|].
  destruct (r_ok res); cbn [negb]; [|easy].
  destruct (r_json res) as [payload|]; [|easy].
  change (let '(a, h) := Array_new payload (heap st) in
          applySortingAndFiltering (set_allGames a (set_heap h st)))
    with (applySortingAndFiltering
            (set_allGames (Array_new payload (heap st)).1
               (set_heap (Array_new payload (heap st)).2 st))).
  set (s := set_allGames _ _).
  destruct (applySortingAndFiltering_frame s) as (-> & _).
  now destruct (applySortingAndFiltering_inputs s) as (-> & -> & _).
Qed.

Lemma loadSavedFilters_frame c st :
  currentSort (loadSavedFilters c st).2 = currentSort st /\
  localStorage (loadSavedFilters c st).2 = localStorage st.
Proof.
  unfold loadSavedFilters.
  destruct (restoreStatus_spec (c, st)) as (L1 & _).
  destruct (restorePlatform_spec (restoreStatus (c, st))) as (L2 & _).
  destruct (restoreSearch_spec (restorePlatform (restoreStatus (c, st)))) as (L3 & _).
  split; [|now rewrite L3, L2, L1].
  unfold restoreSearch, restorePlatform, restoreStatus. cbn [fst snd].
  destruct (stored "gameTracker_filter_status" st); cbn [fst snd];
    match goal with |- context [stored "gameTracker_filter_platform" ?s] =>
      destruct (stored "gameTracker_filter_platform" s) end; cbn [fst snd];
    match goal with |- context [stored "gameTracker_filter_search" ?s] =>
      destruct (stored "gameTracker_filter_search" s) end; reflexivity.
Qed.

Lemma sortByChanged_storage value st :
  localStorage (sortByChanged value st) =
  <["gameTracker_sort"%string := value]> (localStorage st).
Proof.
  unfold sortByChanged.
  now destruct (applySortingAndFiltering_frame
                  (set_localStorage
                     (<["gameTracker_sort"%string := value]> (localStorage st))
                     (set_currentSort value st))) as (-> & _).
Qed.

Lemma stored_after_both typed sv pv value st1 st0 :
  localStorage st0 = localStorage (sortByChanged value (filterGames typed sv pv st1)) ->
  default ""%string (stored "gameTracker_filter_status" st0) = sv /\
  default ""%string (stored "gameTracker_filter_platform" st0) = pv /\
  default ""%string (stored "gameTracker_filter_search" st0)
    = JsString.toLowerCase typed /\
  initialSort (localStorage st0) =
    if decide (value = ""%string) then "recent"%string else value.
Proof.
  intros Hls. unfold stored, initialSort.
  rewrite Hls, sortByChanged_storage, filterGames_storage.
  repeat split.
  - do 3 rewrite lookup_insert_ne by discriminate. rewrite lookup_insert_eq.
    now destruct (decide (sv = ""%string)).
  - do 2 rewrite lookup_insert_ne by discriminate. rewrite lookup_insert_eq.
    now destruct (decide (pv = ""%string)).
  - rewrite lookup_insert_ne by discriminate. rewrite lookup_insert_eq.
    now destruct (decide (JsString.toLowerCase typed = ""%string)).
  - now rewrite lookup_insert_eq.
Qed.

Lemma displayed_after_both typed sv pv value st :
  displayed (games_list (sortByChanged value (filterGames typed sv pv st))) =
    applySorting (if decide (value = ""%string) then "recent"%string else value)
      (applyFiltering
         {| f_status := sv; f_platform := pv; f_search := JsString.toLowerCase typed |}
         (games (sortByChanged value (filterGames typed sv pv st)))).
Proof.
  assert (games (sortByChanged value (filterGames typed sv pv st)) =
          games (filterGames typed sv pv st)) as ->
    by (unfold sortByChanged; now rewrite applySortingAndFiltering_games).
  unfold sortByChanged. rewrite applySortingAndFiltering_displayed.
  cbn [currentSort currentFilters set_localStorage set_currentSort].
  rewrite filterGames_filters.
  change (games (set_localStorage ?l (set_currentSort ?v ?s))) with (games s).
  destruct (decide (value = ""%string)) as [->|_]; reflexivity.
Qed.

Lemma startup_step_just_loaded rs ls cs e :
  e <> AuthChecked1 -> just_loaded ls cs -> just_loaded ls (startup_step rs cs e).
Proof.
  intros He (Hc & Hf & Hs & Hl). unfold just_loaded.
  destruct e; [contradiction| | |]; cbn [startup_step fst snd].
  - destruct (fetchGames_frame (games1 rs) cs.2) as (-> & -> & ->). easy.
  - destruct (checkAuth_frame (auth2 rs) cs.2) as (-> & -> & ->). easy.
  - destruct (fetchGames_frame (games2 rs) cs.2) as (-> & -> & ->). easy.
Qed.

Lemma startup_step_restored rs ls f cs e :
  e <> AuthChecked1 -> filters_restored ls f cs -> filters_restored ls f (startup_step rs cs e).
Proof.
  intros He (Hc & Hf & Hs & Hl). unfold filters_restored.
  destruct e; [contradiction| | |]; cbn [startup_step fst snd].
  - destruct (fetchGames_frame (games1 rs) cs.2) as (-> & -> & ->). easy.
  - destruct (checkAuth_frame (auth2 rs) cs.2) as (-> & -> & ->). easy.
  - destruct (fetchGames_frame (games2 rs) cs.2) as (-> & -> & ->). easy.
Qed.

Lemma startup_step_restores rs typed sv pv value st cs :
  just_loaded (localStorage (sortByChanged value (filterGames typed sv pv st))) cs ->
  filters_restored (localStorage (sortByChanged value (filterGames typed sv pv st)))
    {| f_status := sv; f_platform := pv; f_search := JsString.toLowerCase typed |}
    (startup_step rs cs AuthChecked1).
Proof.
  intros (Hc & Hf & Hs & Hl). unfold filters_restored. cbn [startup_step].
  destruct (checkAuth_frame (auth1 rs) cs.2) as (La & Fa & Sa).
  assert (localStorage (checkAuth (auth1 rs) cs.2) =
          localStorage (sortByChanged value (filterGames typed sv pv st))) as Hls
    by now rewrite La.
  destruct (stored_after_both typed sv pv value st _ Hls) as (E1 & E2 & E3 & _).
  destruct (loadSavedFilters_spec cs.1 (checkAuth (auth1 rs) cs.2)) as (-> & ->).
  destruct (loadSavedFilters_frame cs.1 (checkAuth (auth1 rs) cs.2)) as (-> & ->).
  rewrite Fa, Hf, Hc, Sa, La.
  cbn [no_filters empty_controls f_status f_platform f_search
       status_select platform_select search_box].
  now rewrite E1, E2, E3.
Qed.

Lemma fetchGames_shows r payload st :
  delivers r payload ->
  displayed (games_list (fetchGames r st)) =
    applySorting (currentSort st) (applyFiltering (currentFilters st) payload).
Proof.
  intros (code & -> & Hok). rewrite (fetchGames_taken code payload st Hok).
  set (s := set_allGames _ _).
  assert (games s = payload) as G by apply Array_new_read.
  now rewrite applySortingAndFiltering_displayed, G.
Qed.

(** X21. A reload of the page brings the same list back.  After the filters
    were set and a sort key chosen, a page that starts with the storage
    they left and receives the same library shows the games the former
    page showed, in the same order, and the controls show the saved
    filters, the search text in lower case.  This holds in whatever order
    the requests of the two start callbacks settle, and whatever the
    authentication checks answer. *)
Theorem reload_shows_the_same_list :
  forall (typed sv pv value : string) (st st0 : state)
         (rs : startup_results) (order : list startup_event),
    let st1 := sortByChanged value (filterGames typed sv pv st) in
    In order startup_orders ->
    currentFilters st0 = no_filters ->
    currentSort st0 = initialSort (localStorage st0) ->
    localStorage st0 = localStorage st1 ->
    delivers (games1 rs) (games st1) ->
    delivers (games2 rs) (games st1) ->
    displayed (games_list (startup rs order (empty_controls, st0)).2) =
      displayed (games_list st1) /\
    (startup rs order (empty_controls, st0)).1 =
      {| search_box := JsString.toLowerCase typed; status_select := sv;
         platform_select := pv |}.
Proof.
  intros typed sv pv value st st0 rs order st1 Horder Hnone Hsort Hls H1 H2.
  set (ls := localStorage st1).
  set (f := {| f_status := sv; f_platform := pv;
               f_search := JsString.toLowerCase typed |}).
  assert (just_loaded ls (empty_controls, st0)) as Hloaded
    by (unfold just_loaded; cbn [fst snd]; subst ls; rewrite <- Hls; easy).
  assert (forall cs e,
            filters_restored ls f cs -> e = GamesFetched1 \/ e = GamesFetched2 ->
            displayed (games_list (startup_step rs cs e).2) =
              displayed (games_list st1) /\
            (startup_step rs cs e).1 =
              {| search_box := JsString.toLowerCase typed; status_select := sv;
                 platform_select := pv |}) as Hshow.
  { intros cs e (Hc & Hf & Hs & _) He.
    assert (exists r, startup_step rs cs e = (cs.1, fetchGames r cs.2) /\
                      delivers r (games st1)) as (r & -> & Hr)
      by (destruct He as [->| ->]; eexists; split; try reflexivity; assumption).
    cbn [fst snd]. split; [|exact Hc].
    rewrite (fetchGames_shows r _ _ Hr), Hf, Hs.
    subst st1 ls. rewrite displayed_after_both.
    now destruct (stored_after_both typed sv pv value st _ eq_refl) as (_ & _ & _ & ->). }
  assert (forall cs, just_loaded ls cs -> filters_restored ls f (startup_step rs cs AuthChecked1))
    as Hload by (intros cs; apply startup_step_restores).
  unfold startup_orders in Horder. cbn in Horder.
  destruct Horder as [<-|[<-|[<-|[<-|[<-|[<-|[]]]]]]];
    unfold startup; cbn [fold_left];
    (apply Hshow; [|auto]);
    repeat first
      [ exact Hloaded
      | apply Hload
      | apply startup_step_restored; [discriminate|]
      | apply startup_step_just_loaded; [discriminate|] ].
Qed.

End Reload.


(** The search "A" sorted by hours, then a reload in which the games of the
    second callback arrive before the saved filters are loaded. *)
Lemma reload_witness :
  In [AuthChecked2; GamesFetched2; AuthChecked1; GamesFetched1] startup_orders /\
  delivers (games1 library_twice)
    (games (@sortByChanged codeUnitLocale "hours"
              (@filterGames codeUnitLocale "A" "" "" (admin_page [Alpha; Beta])))) /\
  displayed (games_list
    (@startup codeUnitLocale library_twice
       [AuthChecked2; GamesFetched2; AuthChecked1; GamesFetched1]
       (empty_controls,
        set_localStorage
          (localStorage (@sortByChanged codeUnitLocale "hours"
             (@filterGames codeUnitLocale "A" "" "" (admin_page [Alpha; Beta]))))
          (page_with [] "hours"))).2) =
  displayed (games_list
    (@sortByChanged codeUnitLocale "hours"
       (@filterGames codeUnitLocale "A" "" "" (admin_page [Alpha; Beta])))).
Proof.
  assert (In [AuthChecked2; GamesFetched2; AuthChecked1; GamesFetched1] startup_orders)
    as Horder by (vm_compute; tauto).
  assert (delivers (games1 library_twice)
            (games (@sortByChanged codeUnitLocale "hours"
                      (@filterGames codeUnitLocale "A" "" ""
                         (admin_page [Alpha; Beta]))))) as Hd
    by (exists 200; split; vm_compute; reflexivity).
  split; [exact Horder|]. split; [exact Hd|].
  exact (proj1 (@reload_shows_the_same_list codeUnitLocale "A" "" "" "hours"
                  (admin_page [Alpha; Beta])
                  (set_localStorage
                     (localStorage (@sortByChanged codeUnitLocale "hours"
                        (@filterGames codeUnitLocale "A" "" ""
                           (admin_page [Alpha; Beta]))))
                     (page_with [] "hours"))
                  library_twice _ Horder eq_refl eq_refl eq_refl Hd Hd)).
Defined.

(** ** Ascending and descending keys *)

Lemma StronglySorted_rev {A} (R : relation A) (l : list A) :
  StronglySorted R l -> StronglySorted (fun a b => R b a) (rev l).
Proof.
  induction 1 as [|a l Hl IH Ha]; [constructor|]. cbn [rev].
  apply StronglySorted_app_2; [|exact IH|repeat constructor].
  intros x1 x2 H1 H2. apply list_elem_of_singleton in H2. subst x2.
  rewrite Forall_forall in Ha. apply Ha.
  apply list_elem_of_In. apply in_rev. now apply list_elem_of_In.
Qed.

Lemma distinct_keys_inj key l a b :
  distinct_keys key l -> In a l -> In b l -> (key a == key b)%Q -> a = b.
Proof.
  unfold distinct_keys. intros Hd Ha Hb Hk. apply Qred_complete in Hk.
  induction l as [|x l IH]; [destruct Ha|]. cbn [map] in Hd.
  apply NoDup_cons in Hd as [Hx Hd].
  assert (forall c, In c l -> Qred (key c) = Qred (key x) -> False) as Hfresh.
  { intros c Hc Hcx. apply Hx. rewrite <- Hcx.
    apply list_elem_of_In. apply in_map_iff. now exists c. }
  destruct Ha as [<-|Ha], Hb as [<-|Hb]; [reflexivity| | |now apply IH].
  - exfalso. now apply (Hfresh b Hb).
  - exfalso. now apply (Hfresh a Ha).
Qed.

Section Reversal.
Context `{HostLocale}.

Lemma ascending_rev_descending key (up down : game -> game -> option Q) l :
  (forall a b, up a b = Some (key a - key b)%Q) ->
  (forall a b, down a b = Some (key b - key a)%Q) ->
  distinct_keys key l ->
  sorted_by up l = rev (sorted_by down l).
Proof.
  intros Hup Hdown Hd.
  destruct (sorted_ascending key up l Hup) as [Hasc _].
  destruct (sorted_descending key down l Hdown) as [Hdesc _].
  apply StronglySorted_rev in Hdesc.
  apply (StronglySorted_unique_strong (fun a b => (key a <= key b)%Q));
    [|exact Hasc|exact Hdesc|].
  - intros x1 x2 H1 H2 H12 H21.
    apply (distinct_keys_inj key l); [exact Hd| | |lra].
    + apply (Permutation_in _ (sorted_by_perm up l)). now apply list_elem_of_In.
    + apply (Permutation_in _ (sorted_by_perm down l)), in_rev.
      now apply list_elem_of_In.
  - etransitivity; [apply sorted_by_perm|].
    etransitivity; [symmetry; apply (sorted_by_perm down)|].
    apply Permutation_rev.
Qed.

Lemma sortByChanged_displayed value st :
  displayed (games_list (sortByChanged value st)) =
    applySorting value (applyFiltering (currentFilters st) (games st)).
Proof.
  unfold sortByChanged. now rewrite applySortingAndFiltering_displayed.
Qed.

Lemma all_ties_keep_the_order key (cmp : game -> game -> option Q) l :
  keeps_ties_of key l (sorted_by cmp l) ->
  (forall a b, In a l -> In b l -> (key a == key b)%Q) ->
  sorted_by cmp l = l.
Proof.
  intros Hties Hall. destruct l as [|x l]; [reflexivity|].
  specialize (Hties (key x)).
  assert (forall k : list game,
            (forall a, In a k -> In a (x :: l)) ->
            List.filter (fun g => Qeq_bool (key g) (key x)) k = k) as Hid.
  { induction k as [|y k IH]; [reflexivity|]. intros Hk. cbn [List.filter].
    assert (Qeq_bool (key y) (key x) = true) as ->
      by (apply Qeq_bool_iff, Hall; [apply Hk|]; now left).
    f_equal. apply IH. intros a Ha. apply Hk. now right. }
  rewrite (Hid (x :: l)) in Hties by easy.
  rewrite Hid in Hties; [exact Hties|].
  intros a Ha. now apply (Permutation_in _ (sorted_by_perm cmp (x :: l))).
Qed.

(** X22. For the sort keys that order by a number (hours, rating,
    completion): where no two of the games that pass the filters have the
    same number, the ascending key shows the list of the descending key
    reversed.  Ties are not reversed: where all of them have the same
    number, both keys show them in the order of the cache. *)
Theorem ascending_is_descending_reversed :
  forall (down up : string) (key : game -> Q) (st : state),
    In (down, up, key) numeric_sorts ->
    let shown := applyFiltering (currentFilters st) (games st) in
    (distinct_keys key shown ->
     displayed (games_list (sortByChanged up st)) =
       rev (displayed (games_list (sortByChanged down st)))) /\
    ((forall a b, In a shown -> In b shown -> (key a == key b)%Q) ->
     displayed (games_list (sortByChanged up st)) = shown /\
     displayed (games_list (sortByChanged down st)) = shown).
Proof.
  intros down up key st Hin shown. rewrite !sortByChanged_displayed.
  unfold applySorting. fold shown.
  assert ((forall a b, compareGames up a b = Some (key a - key b)%Q) /\
          (forall a b, compareGames down a b = Some (key b - key a)%Q)) as [Hup Hdown]
    by (destruct Hin as [E|[E|[E|[]]]]; injection E as <- <- <-; now split).
  split.
  - intros Hd. now apply (ascending_rev_descending key).
  - intros Hall. split.
    + apply (all_ties_keep_the_order key); [|exact Hall].
      now apply sorted_ascending.
    + apply (all_ties_keep_the_order key); [|exact Hall].
      now apply sorted_descending.
Qed.

End Reversal.

(** [Alpha] and [Beta] by hours, both ways. *)
Lemma reversal_witness :
  In ("hours", "hours-asc", fun g => or0 (hours_played g))%string numeric_sorts /\
  distinct_keys (fun g => or0 (hours_played g))
    (applyFiltering (currentFilters (admin_page [Alpha; Beta]))
       (games (admin_page [Alpha; Beta]))) /\
  displayed (games_list (@sortByChanged codeUnitLocale "hours-asc"
                           (admin_page [Alpha; Beta]))) =
    rev (displayed (games_list (@sortByChanged codeUnitLocale "hours"
                                  (admin_page [Alpha; Beta])))).
Proof.
  assert (In ("hours", "hours-asc", fun g => or0 (hours_played g))%string numeric_sorts)
    as Hin by (left; reflexivity).
  assert (distinct_keys (fun g => or0 (hours_played g))
            (applyFiltering (currentFilters (admin_page [Alpha; Beta]))
               (games (admin_page [Alpha; Beta])))) as Hd.
  { vm_compute. repeat constructor; cbn; intros Hx;
      repeat (apply elem_of_cons in Hx as [Hx|Hx]; [discriminate Hx|]);
      now apply elem_of_nil in Hx. }
  split; [exact Hin|]. split; [exact Hd|].
  exact (proj1 (@ascending_is_descending_reversed codeUnitLocale _ _ _
                  (admin_page [Alpha; Beta]) Hin) Hd).
Defined.
